(** * Site crawler: a shallow embedding of [main.py] and its ledger invariants

    The development follows the layout of the program.

    - [Py] models the few operations of Python's [str] the crawler uses.
    - [Url] models the functions of [urllib.parse] and the one regular
      expression of [re] that [SiteCrawler.is_valid_url] and
      [SiteCrawler.extract_links] call.
    - The class [SiteCrawler] follows: its attributes as a record, its
      methods as functions in a small state-and-exception monad.  The
      network, the clock, interruptions and the iteration order of Python
      sets are an explicit environment [Env].
    - Then come the vocabulary of the ledger properties, a few concrete
      sites, the lemmas, the unit tests of the repository replayed on the
      model, and the properties themselves.

    What the model leaves out.  Python strings are modelled as byte
    strings; the model is exact on ASCII text, which is what URLs are made
    of: on other text [str.lower] and the check of [urlsplit] on a host
    that is not ASCII are not modelled.  Logging has no effect on the
    ledger and is dropped.  An interrupt can arrive where the program
    blocks, in [session.get] and in [time.sleep]; an interrupt that
    arrives between two assignments or inside a logging call is not
    modelled.  The recursion limit of the interpreter is not modelled:
    [crawl_page] recurses at most [max_depth + 1] deep. *)

From Stdlib Require Import ZArith Ascii String List Bool Lia.
From stdpp Require Import base option list strings pretty sorting gmap fin_maps fin_sets.

Local Open Scope string_scope.
Local Open Scope list_scope.
Local Open Scope Z_scope.

(** ** Python strings *)

Module Py.

Definition code (a : ascii) : nat := nat_of_ascii a.

Definition between (lo hi : nat) (a : ascii) : bool :=
  ((lo <=? code a) && (code a <=? hi))%nat.

Definition isupper (a : ascii) : bool := between 65 90 a.
Definition islower (a : ascii) : bool := between 97 122 a.
Definition isalpha (a : ascii) : bool := isupper a || islower a.
Definition isdigit (a : ascii) : bool := between 48 57 a.

Definition lower_char (a : ascii) : ascii :=
  if isupper a then ascii_of_nat (code a + 32) else a.

(** [s.lower()] *)
Fixpoint lower (s : string) : string :=
  match s with
  | EmptyString => EmptyString
  | String a s' => String (lower_char a) (lower s')
  end.

(** [s.startswith(p)] *)
Definition startswith (s p : string) : bool := String.prefix p s.

(** [s.endswith(suffix)] *)
Definition endswith (s suffix : string) : bool :=
  String.prefix (String.rev suffix) (String.rev s).

(** [sub in s] *)
Fixpoint contains (sub s : string) : bool :=
  String.prefix sub s ||
  match s with
  | EmptyString => false
  | String _ s' => contains sub s'
  end.

(** [c in s] for a single character *)
Fixpoint has_char (c : ascii) (s : string) : bool :=
  match s with
  | EmptyString => false
  | String a s' => Ascii.eqb a c || has_char c s'
  end.

(** [all(p(c) for c in s)] *)
Fixpoint all_chars (p : ascii -> bool) (s : string) : bool :=
  match s with
  | EmptyString => true
  | String a s' => p a && all_chars p s'
  end.

(** [s.lstrip(chars)], the characters given as a predicate *)
Fixpoint lstrip (p : ascii -> bool) (s : string) : string :=
  match s with
  | EmptyString => EmptyString
  | String a s' => if p a then lstrip p s' else s
  end.

(** [s.rstrip(chars)] *)
Definition rstrip (p : ascii -> bool) (s : string) : string :=
  String.rev (lstrip p (String.rev s)).

(** [s.strip(chars)] *)
Definition strip (p : ascii -> bool) (s : string) : string :=
  rstrip p (lstrip p s).

(** deleting every character that satisfies [p]: what a chain of
    [replace] calls with an empty replacement does *)
Fixpoint remove_chars (p : ascii -> bool) (s : string) : string :=
  match s with
  | EmptyString => EmptyString
  | String a s' => if p a then remove_chars p s' else String a (remove_chars p s')
  end.

(** [s.partition(c)]: the text before the first [c], and the text after
    it when there is one *)
Fixpoint partition (c : ascii) (s : string) : string * option string :=
  match s with
  | EmptyString => (EmptyString, None)
  | String a s' =>
      if Ascii.eqb a c then (EmptyString, Some s')
      else let '(before, after) := partition c s' in (String a before, after)
  end.

(** [s.split(c, 1)] when [c in s], and [s] with an empty second part
    otherwise: how [urlsplit] takes off the fragment and the query *)
Definition split_once (c : ascii) (s : string) : string * string :=
  match partition c s with
  | (before, Some after) => (before, after)
  | (_, None) => (s, EmptyString)
  end.

(** [s.rpartition(c)[2]]: the text after the last [c], all of [s] when
    there is none *)
Fixpoint after_last (c : ascii) (s : string) : string :=
  match s with
  | EmptyString => EmptyString
  | String a s' =>
      if has_char c s' then after_last c s'
      else if Ascii.eqb a c then s' else s
  end.

(** [s.split(c)] *)
Fixpoint split (c : ascii) (s : string) : list string :=
  match s with
  | EmptyString => [EmptyString]
  | String a s' =>
      if Ascii.eqb a c then EmptyString :: split c s'
      else match split c s' with
           | w :: ws => String a w :: ws
           | [] => [String a EmptyString]
           end
  end.

(** [sep.join(parts)] *)
Fixpoint join (sep : string) (parts : list string) : string :=
  match parts with
  | [] => EmptyString
  | [w] => w
  | w :: ws => w +:+ sep +:+ join sep ws
  end.

(** the longest prefix of [s] whose characters all satisfy [p], and the
    rest of [s] *)
Fixpoint span (p : ascii -> bool) (s : string) : string * string :=
  match s with
  | EmptyString => (EmptyString, EmptyString)
  | String a s' =>
      if p a then let '(run, rest) := span p s' in (String a run, rest)
      else (EmptyString, s)
  end.

(** [s[n:]] *)
Fixpoint drop (n : nat) (s : string) : string :=
  match n, s with
  | O, _ => s
  | S n', String _ s' => drop n' s'
  | S _, EmptyString => EmptyString
  end.

(** [bool(s)]: a string is true when it is not empty *)
Definition nonempty (s : string) : bool :=
  match s with EmptyString => false | String _ _ => true end.

(** [x in l] for a list of strings *)
Definition mem (x : string) (l : list string) : bool :=
  existsb (String.eqb x) l.

(** [str(n)] for an integer *)
Definition str (n : Z) : string := pretty n.

(** [f"{s:<{width}}"]: pad on the right with spaces up to [width] *)
Fixpoint spaces (n : nat) : string :=
  match n with
  | O => EmptyString
  | S n' => String " " (spaces n')
  end.

Definition ljust (width : nat) (s : string) : string :=
  s +:+ spaces (width - String.length s).

(** ['-' * n] *)
Fixpoint dashes (n : nat) : string :=
  match n with
  | O => EmptyString
  | S n' => String "-" (dashes n')
  end.

End Py.

(** ** The functions of [urllib.parse] and [re] the crawler calls

    Modelled after CPython 3.11's [urllib/parse.py].  [None] stands for a
    raised [ValueError].  The one thing left to the environment is
    [ipaddress.ip_address], which [urlsplit] consults for a host written in
    brackets. *)

Inductive IPKind := IPv4Address | IPv6Address.

Module Url.
Import Py.

Record ParseResult := mkParseResult {
  scheme : string;
  netloc : string;
  path : string;
  params : string;
  query : string;
  fragment : string
}.

Definition uses_relative : list string :=
  [EmptyString; "ftp"; "http"; "gopher"; "nntp"; "imap"; "wais"; "file"; "https";
   "shttp"; "mms"; "prospero"; "rtsp"; "rtspu"; "sftp"; "svn"; "svn+ssh";
   "ws"; "wss"].

Definition uses_netloc : list string :=
  [EmptyString; "ftp"; "http"; "gopher"; "nntp"; "telnet"; "imap"; "wais"; "file";
   "mms"; "https"; "shttp"; "snews"; "prospero"; "rtsp"; "rtspu"; "rsync";
   "svn"; "svn+ssh"; "sftp"; "nfs"; "git"; "git+ssh"; "ws"; "wss"].

Definition uses_params : list string :=
  [EmptyString; "ftp"; "hdl"; "prospero"; "http"; "imap"; "https"; "shttp"; "rtsp";
   "rtspu"; "sip"; "sips"; "mms"; "sftp"; "tel"].

Definition scheme_chars (a : ascii) : bool :=
  isalpha a || isdigit a || has_char a "+-.".

(** [_WHATWG_C0_CONTROL_OR_SPACE]: the characters 0x00 to 0x20 *)
Definition c0_control_or_space (a : ascii) : bool := (code a <=? 32)%nat.

(** [_UNSAFE_URL_BYTES_TO_REMOVE]: tab, carriage return, line feed *)
Definition unsafe_url_byte (a : ascii) : bool :=
  (code a =? 9)%nat || (code a =? 13)%nat || (code a =? 10)%nat.

Definition ishex (a : ascii) : bool :=
  isdigit a || between 97 102 a || between 65 70 a.

Definition netloc_delim (a : ascii) : bool := has_char a "/?#".

Section parse.
Variable ip_address : string -> option IPKind.

(** [_check_bracketed_host]: an IPvFuture literal must match
    [\Av[a-fA-F0-9]+\..+\Z]; anything else must be an IPv6 address. *)
Definition check_bracketed_host (hostname : string) : bool :=
  if startswith hostname "v" then
    let '(digits, rest) := span ishex (drop 1 hostname) in
    nonempty digits &&
    match rest with
    | String "." tail => nonempty tail && negb (has_char "010" tail)
    | _ => false
    end
  else
    match ip_address hostname with
    | Some IPv6Address => true
    | Some IPv4Address => false
    | None => false
    end.

(** [_check_bracketed_netloc] *)
Definition check_bracketed_netloc (netloc : string) : bool :=
  let hostname_and_port := after_last "@" netloc in
  match partition "[" hostname_and_port with
  | (before_bracket, Some bracketed) =>
      if nonempty before_bracket then false
      else
        let '(hostname, after) := partition "]" bracketed in
        let port := default EmptyString after in
        if nonempty port && negb (startswith port ":") then false
        else check_bracketed_host hostname
  | (_, None) =>
      check_bracketed_host (fst (partition ":" hostname_and_port))
  end.

(** [urlsplit(url, scheme)]: scheme, netloc, path, query, fragment.
    [_checknetloc] returns at once on an ASCII netloc and is left out. *)
Definition urlsplit (url scheme : string)
  : option (string * string * string * string * string) :=
  let url := lstrip c0_control_or_space url in
  let scheme := strip c0_control_or_space scheme in
  let url := remove_chars unsafe_url_byte url in
  let scheme := remove_chars unsafe_url_byte scheme in
  let '(scheme, url) :=
    match partition ":" url with
    | (String c0 _ as before, Some after) =>
        if isalpha c0 && all_chars scheme_chars before
        then (lower before, after)
        else (scheme, url)
    | _ => (scheme, url)
    end in
  let split_netloc :=
    if startswith url "//" then
      let '(netloc, url) := span (fun a => negb (netloc_delim a)) (drop 2 url) in
      if (has_char "[" netloc && negb (has_char "]" netloc))
         || (has_char "]" netloc && negb (has_char "[" netloc))
      then None
      else if has_char "[" netloc && has_char "]" netloc
              && negb (check_bracketed_netloc netloc)
      then None
      else Some (netloc, url)
    else Some (EmptyString, url) in
  match split_netloc with
  | None => None
  | Some (netloc, url) =>
      let '(url, fragment) := split_once "#" url in
      let '(url, query) := split_once "?" url in
      Some (scheme, netloc, url, query, fragment)
  end.

(** [_splitparams] *)
Definition splitparams (url : string) : string * string :=
  if has_char "/" url then
    let tail := after_last "/" url in
    let head := String.substring 0 (String.length url - String.length tail) url in
    match partition ";" tail with
    | (before, Some after) => (head +:+ before, after)
    | (_, None) => (url, EmptyString)
    end
  else split_once ";" url.

(** [urlparse(url, scheme)] *)
Definition urlparse_with (url scheme : string) : option ParseResult :=
  match urlsplit url scheme with
  | None => None
  | Some (scheme, netloc, url, query, fragment) =>
      let '(url, params) :=
        if mem scheme uses_params && has_char ";" url
        then splitparams url
        else (url, EmptyString) in
      Some (mkParseResult scheme netloc url params query fragment)
  end.

(** [urlparse(url)] *)
Definition urlparse (url : string) : option ParseResult :=
  urlparse_with url EmptyString.

(** [urlunsplit] *)
Definition urlunsplit (scheme netloc url query fragment : string) : string :=
  let url :=
    if nonempty netloc
       || (nonempty scheme && mem scheme uses_netloc && negb (startswith url "//"))
    then "//" +:+ netloc +:+ (if nonempty url && negb (startswith url "/")
                            then "/" +:+ url else url)
    else url in
  let url := if nonempty scheme then scheme +:+ ":" +:+ url else url in
  let url := if nonempty query then url +:+ "?" +:+ query else url in
  if nonempty fragment then url +:+ "#" +:+ fragment else url.

(** [urlunparse] *)
Definition urlunparse (scheme netloc url params query fragment : string) : string :=
  let url := if nonempty params then url +:+ ";" +:+ params else url in
  urlunsplit scheme netloc url query fragment.

(** [del base_parts[-1]] when the last part is not empty *)
Definition drop_last_nonempty (parts : list string) : list string :=
  match last parts with
  | Some w => if nonempty w then removelast parts else parts
  | None => parts
  end.

(** [segments[1:-1] = filter(None, segments[1:-1])] *)
Definition filter_inner (segments : list string) : list string :=
  match segments with
  | first :: (_ :: _) as others =>
      first :: List.filter nonempty (removelast others)
               ++ option_list (last others)
  | _ => segments
  end.

(** the loop of [urljoin] over the segments; [resolved_path] is kept
    reversed, its last element first *)
Fixpoint resolve (segments resolved_path : list string) : list string :=
  match segments with
  | [] => rev resolved_path
  | seg :: segments' =>
      if String.eqb seg ".." then resolve segments' (tail resolved_path)
      else if String.eqb seg "." then resolve segments' resolved_path
      else resolve segments' (seg :: resolved_path)
  end.

(** [urljoin(base, url)] *)
Definition urljoin (base url : string) : option string :=
  if negb (nonempty base) then Some url
  else if negb (nonempty url) then Some base
  else
    match urlparse_with base EmptyString with
    | None => None
    | Some b =>
        match urlparse_with url (scheme b) with
        | None => None
        | Some u =>
            if negb (String.eqb (scheme u) (scheme b))
               || negb (mem (scheme u) uses_relative)
            then Some url
            else if mem (scheme u) uses_netloc && nonempty (netloc u)
            then Some (urlunparse (scheme u) (netloc u) (path u)
                                  (params u) (query u) (fragment u))
            else
              let netloc' :=
                if mem (scheme u) uses_netloc then netloc b else netloc u in
              if negb (nonempty (path u)) && negb (nonempty (params u))
              then Some (urlunparse (scheme u) netloc' (path b) (params b)
                           (if nonempty (query u) then query u else query b)
                           (fragment u))
              else
                let base_parts := drop_last_nonempty (split "/" (path b)) in
                let segments :=
                  if startswith (path u) "/" then split "/" (path u)
                  else filter_inner (base_parts ++ split "/" (path u)) in
                let resolved_path := resolve segments [] in
                let resolved_path :=
                  match last segments with
                  | Some seg =>
                      if String.eqb seg "." || String.eqb seg ".."
                      then resolved_path ++ [EmptyString]
                      else resolved_path
                  | None => resolved_path
                  end in
                let joined := join "/" resolved_path in
                Some (urlunparse (scheme u) netloc'
                        (if nonempty joined then joined else "/")
                        (params u) (query u) (fragment u))
        end
    end.
End parse.

(** *** [re.findall(href_pattern, text)]

    The pattern of [extract_links] reads: the text [href=], a single or
    double quote, one or more characters that are not quotes (the group,
    which is what [findall] returns), and a single or double quote. *)

Definition is_quote (a : ascii) : bool :=
  (code a =? 34)%nat || (code a =? 39)%nat.

(** A match of the pattern at the very start of [s]: the text of its
    group and the number of characters matched.  After [href=] and an
    opening quote the group takes every character up to the next quote;
    the match needs a group of at least one character and a quote
    closing it. *)
Definition match_href (s : string) : option (string * nat) :=
  if startswith s "href=" then
    match drop 5 s with
    | String q s' =>
        if is_quote q then
          match span (fun a => negb (is_quote a)) s' with
          | (String _ _ as group, String _ _) =>
              Some (group, (5 + 1 + String.length group + 1)%nat)
          | _ => None
          end
        else None
    | EmptyString => None
    end
  else None.

(** The scan of [findall] from left to right: matches do not overlap, so
    after a match the scan skips the characters it consumed. *)
Fixpoint findall_from (skip : nat) (s : string) : list string :=
  match s with
  | EmptyString => []
  | String _ s' =>
      match skip with
      | S skip' => findall_from skip' s'
      | O =>
          match match_href s with
          | Some (group, len) => group :: findall_from (len - 1) s'
          | None => findall_from 0 s'
          end
      end
  end.

Definition findall_href (text : string) : list string := findall_from 0 text.

End Url.

(** ** The environment of a crawl

    Everything the crawler does not decide itself: the answers of the
    network, interruptions of [time.sleep], the order in which a [for]
    loop visits a Python set, the rendering of local time. *)

(** The exceptions the crawler can meet.  [RequestException] and
    [OtherException] are instances of [Exception]; [KeyboardInterrupt]
    derives from [BaseException] only, so [except Exception] lets it pass. *)
Inductive Exn := RequestException | OtherException | KeyboardInterrupt.

Definition is_RequestException (e : Exn) : bool :=
  match e with RequestException => true | _ => false end.

Definition is_Exception (e : Exn) : bool :=
  match e with KeyboardInterrupt => false | _ => true end.

(** What [session.get(url, timeout=30, allow_redirects=True)] yields: a
    response, of which the crawler reads [status_code] and [text], or an
    exception. *)
Inductive FetchResult :=
| Response (status_code : Z) (text : string)
| Fails (e : Exn).

Record Env := mkEnv {
  (** [ipaddress.ip_address] *)
  ip_address : string -> option IPKind;
  (** the result of the [n]-th call of [session.get], counted from 0 *)
  session_get : nat -> string -> FetchResult;
  (** the [time.sleep] that follows [n] calls of [session.get]: it returns,
      or raises (a [ValueError] for a negative delay, an interrupt) *)
  time_sleep : nat -> option Exn;
  (** the order in which the loop [for link in links] that follows [n]
      calls of [session.get] visits the set [links] *)
  set_order : nat -> gset string -> list string;
  (** [time.strftime("%Y-%m-%d %H:%M:%S", time.localtime(t))] *)
  strftime_localtime : Z -> string
}.

(** ** The class [SiteCrawler] *)

(** The attributes of a crawler.  Times are readings of the clock in ticks
    of [2^-22] seconds (see [ticks_per_second] below).  [delay] only ever
    reaches [time.sleep], whose behaviour is the environment's, and has no
    field.  [session_calls] is the history of the [session] object: the
    URLs [session.get] was called with, latest first. *)
Record SiteCrawler := mkSiteCrawler {
  base_url : string;
  domain : string;
  max_depth : Z;
  visited_urls : gset string;
  url_status : gmap string Z;
  url_depth : gmap string Z;
  error_urls : gmap Z (list string);
  total_requests : Z;
  start_time : Z;
  session_calls : list string
}.

(** *** State and exceptions *)

Inductive Outcome (A : Type) :=
| Done (a : A) (self : SiteCrawler)
| Raised (e : Exn) (self : SiteCrawler)
| OutOfFuel.
Arguments Done {A} a self.
Arguments Raised {A} e self.
Arguments OutOfFuel {A}.

Definition M (A : Type) : Type := SiteCrawler -> Outcome A.

Definition ret {A} (a : A) : M A := fun self => Done a self.

Definition bind {A B} (m : M A) (k : A -> M B) : M B :=
  fun self =>
    match m self with
    | Done a self' => k a self'
    | Raised e self' => Raised e self'
    | OutOfFuel => OutOfFuel
    end.

Definition raise {A} (e : Exn) : M A := fun self => Raised e self.

Definition out_of_fuel {A} : M A := fun _ => OutOfFuel.

(** reading an attribute of [self] *)
Definition get {A} (f : SiteCrawler -> A) : M A := fun self => Done (f self) self.

(** an assignment to attributes of [self] *)
Definition modify (f : SiteCrawler -> SiteCrawler) : M unit :=
  fun self => Done tt (f self).

(** [try: body  except ...: handler]; [handler e] is [None] when no
    [except] clause matches [e] *)
Definition try_except {A} (body : M A) (handler : Exn -> option (M A)) : M A :=
  fun self =>
    match body self with
    | Raised e self' =>
        match handler e with
        | Some h => h self'
        | None => Raised e self'
        end
    | other => other
    end.

(** [for x in xs: body(x)] *)
Fixpoint for_each {A} (xs : list A) (body : A -> M unit) : M unit :=
  match xs with
  | [] => ret tt
  | x :: xs' => bind (body x) (fun _ => for_each xs' body)
  end.

Declare Scope crawl_scope.
Delimit Scope crawl_scope with crawl.
Notation "x <- m ;; k" := (bind m (fun x => k))
  (at level 100, m at next level, right associativity) : crawl_scope.
Notation "m ;; k" := (bind m (fun _ => k))
  (at level 100, right associativity) : crawl_scope.

Local Open Scope crawl_scope.

(** *** [__init__]

    [urlparse(base_url)] may raise, and then no crawler is made: [None]. *)
Definition init (env : Env) (base_url : string) (max_depth : Z) (now : Z)
  : option SiteCrawler :=
  match Url.urlparse (ip_address env) base_url with
  | None => None
  | Some parsed =>
      Some {| base_url := Py.rstrip (Ascii.eqb "/") base_url;
              domain := Url.netloc parsed;
              max_depth := max_depth;
              visited_urls := ∅;
              url_status := ∅;
              url_depth := ∅;
              error_urls := ∅;
              total_requests := 0;
              start_time := now;
              session_calls := [] |}
  end.

(** *** [is_valid_url] *)

Definition skip_extensions : list string :=
  [".pdf"; ".zip"; ".exe"; ".dmg"; ".pkg"; ".jpg"; ".jpeg"; ".png"; ".gif";
   ".svg"; ".ico"; ".css"; ".js"; ".xml"].

Definition skip_paths : list string :=
  ["/api/"; "/admin/"; "/wp-admin/"; "/cgi-bin/"; "/mail/"].

(** [None] when [urlparse] raises [ValueError]: the method has no handler
    for it. *)
Definition is_valid_url (env : Env) (self : SiteCrawler) (url : string)
  : option bool :=
  match Url.urlparse (ip_address env) url with
  | None => None
  | Some parsed =>
      Some
        (if negb (String.eqb (Url.netloc parsed) (domain self)) then false
         else if negb (Py.mem (Url.scheme parsed) ["http"; "https"]) then false
         else if existsb (fun ext => Py.endswith (Py.lower (Url.path parsed)) ext)
                         skip_extensions then false
         else if existsb (fun skip_path => Py.contains skip_path (Py.lower (Url.path parsed)))
                         skip_paths then false
         else true)
  end.

(** *** [extract_links] *)

(** [f"{parsed.scheme}://{parsed.netloc}{parsed.path}"] *)
Definition clean_url (parsed : Url.ParseResult) : string :=
  Url.scheme parsed +:+ "://" +:+ Url.netloc parsed +:+ Url.path parsed.

(** the body of the loop over [matches]: the link to add, if any;
    the outer [None] is a raised [ValueError] *)
Definition extract_link (env : Env) (self : SiteCrawler)
    (current_url href : string) : option (option string) :=
  match Url.urljoin (ip_address env) current_url href with
  | None => None
  | Some absolute_url =>
      match Url.urlparse (ip_address env) absolute_url with
      | None => None
      | Some parsed =>
          match is_valid_url env self (clean_url parsed) with
          | None => None
          | Some true => Some (Some (clean_url parsed))
          | Some false => Some None
          end
      end
  end.

Fixpoint extract_links_loop (env : Env) (self : SiteCrawler)
    (current_url : string) (matches : list string) (links : gset string)
  : option (gset string) :=
  match matches with
  | [] => Some links
  | href :: matches' =>
      match extract_link env self current_url href with
      | None => None
      | Some (Some link) =>
          extract_links_loop env self current_url matches' (links ∪ {[link]})
      | Some None =>
          extract_links_loop env self current_url matches' links
      end
  end.

Definition extract_links (env : Env) (self : SiteCrawler)
    (html_content current_url : string) : option (gset string) :=
  extract_links_loop env self current_url (Url.findall_href html_content) ∅.

(** *** [crawl_page] *)

(** Assignments to single attributes. *)
Definition with_visited_urls (v : gset string) (self : SiteCrawler) : SiteCrawler :=
  {| base_url := base_url self; domain := domain self; max_depth := max_depth self;
     visited_urls := v;
     url_status := url_status self; url_depth := url_depth self;
     error_urls := error_urls self; total_requests := total_requests self;
     start_time := start_time self; session_calls := session_calls self |}.

Definition with_url_status (m : gmap string Z) (self : SiteCrawler) : SiteCrawler :=
  {| base_url := base_url self; domain := domain self; max_depth := max_depth self;
     visited_urls := visited_urls self;
     url_status := m; url_depth := url_depth self;
     error_urls := error_urls self; total_requests := total_requests self;
     start_time := start_time self; session_calls := session_calls self |}.

Definition with_url_depth (m : gmap string Z) (self : SiteCrawler) : SiteCrawler :=
  {| base_url := base_url self; domain := domain self; max_depth := max_depth self;
     visited_urls := visited_urls self;
     url_status := url_status self; url_depth := m;
     error_urls := error_urls self; total_requests := total_requests self;
     start_time := start_time self; session_calls := session_calls self |}.

Definition with_error_urls (m : gmap Z (list string)) (self : SiteCrawler) : SiteCrawler :=
  {| base_url := base_url self; domain := domain self; max_depth := max_depth self;
     visited_urls := visited_urls self;
     url_status := url_status self; url_depth := url_depth self;
     error_urls := m; total_requests := total_requests self;
     start_time := start_time self; session_calls := session_calls self |}.

Definition with_total_requests (n : Z) (self : SiteCrawler) : SiteCrawler :=
  {| base_url := base_url self; domain := domain self; max_depth := max_depth self;
     visited_urls := visited_urls self;
     url_status := url_status self; url_depth := url_depth self;
     error_urls := error_urls self; total_requests := n;
     start_time := start_time self; session_calls := session_calls self |}.

Definition with_session_calls (calls : list string) (self : SiteCrawler) : SiteCrawler :=
  {| base_url := base_url self; domain := domain self; max_depth := max_depth self;
     visited_urls := visited_urls self;
     url_status := url_status self; url_depth := url_depth self;
     error_urls := error_urls self; total_requests := total_requests self;
     start_time := start_time self; session_calls := calls |}.

(** [self.visited_urls.add(url)] *)
Definition visited_urls_add (url : string) : M unit :=
  modify (fun self => with_visited_urls (visited_urls self ∪ {[url]}) self).

(** [self.url_depth[url] = depth] *)
Definition url_depth_set (url : string) (depth : Z) : M unit :=
  modify (fun self => with_url_depth (<[url := depth]> (url_depth self)) self).

(** [self.url_status[url] = status_code] *)
Definition url_status_set (url : string) (status_code : Z) : M unit :=
  modify (fun self => with_url_status (<[url := status_code]> (url_status self)) self).

(** [self.error_urls[k]] on the [defaultdict(list)] *)
Definition error_list (k : Z) (self : SiteCrawler) : list string :=
  default [] (error_urls self !! k).

(** [self.error_urls[status_code].append(url)] *)
Definition error_urls_append (status_code : Z) (url : string) : M unit :=
  modify (fun self =>
    with_error_urls
      (<[status_code := error_list status_code self ++ [url]]> (error_urls self)) self).

(** [self.total_requests += 1] *)
Definition total_requests_incr : M unit :=
  modify (fun self => with_total_requests (total_requests self + 1) self).

(** [self.session.get(url, timeout=30, allow_redirects=True)]: the call is
    entered in the history of the session, then the environment answers. *)
Definition session_get_call (env : Env) (url : string) : M (Z * string) :=
  fun self =>
    let self' := with_session_calls (url :: session_calls self) self in
    match session_get env (length (session_calls self)) url with
    | Response status_code text => Done (status_code, text) self'
    | Fails e => Raised e self'
    end.

(** [time.sleep(self.delay)] *)
Definition sleep (env : Env) : M unit :=
  fun self =>
    match time_sleep env (length (session_calls self)) with
    | None => Done tt self
    | Some e => Raised e self
    end.

(** [self.extract_links(response.text, url)] inside the crawl: a
    [ValueError] is an [Exception] *)
Definition extract_links_call (env : Env) (text url : string) : M (gset string) :=
  fun self =>
    match extract_links env self text url with
    | Some links => Done links self
    | None => Raised OtherException self
    end.

(** The three groups of statements of [crawl_page] that write the ledger. *)

(** [self.visited_urls.add(url); self.url_depth[url] = depth] *)
Definition record_visit (url : string) (depth : Z) : M unit :=
  visited_urls_add url ;;
  url_depth_set url depth.

(** what follows a response: the request is counted, the status recorded,
    an error status filed under its class *)
Definition record_response (url : string) (status_code : Z) : M unit :=
  total_requests_incr ;;
  (* Record status *)
  url_status_set url status_code ;;
  (* Track errors *)
  if status_code >=? 400 then error_urls_append status_code url
  else ret tt.

(** the body of both [except] clauses: mark as failed *)
Definition record_failure (url : string) : M unit :=
  url_status_set url 0 ;;
  error_urls_append 0 url.

(** The method.  Every recursive call uses up one unit of [fuel];
    [crawl_page] below supplies as much as the depth limit can need.  The
    calls of [logger] are left out, and with them an interrupt that
    arrives inside one of them. *)
Fixpoint crawl_page_fuel (env : Env) (fuel : nat) (url : string) (depth : Z)
  : M unit :=
  limit <- get max_depth ;;
  visited <- get visited_urls ;;
  if (depth >? limit) || bool_decide (url ∈ visited) then ret tt
  else
    match fuel with
    | O => out_of_fuel
    | S fuel' =>
        record_visit url depth ;;
        try_except
          ((* Make request *)
           response <- session_get_call env url ;;
           let status_code := fst response in
           record_response url status_code ;;
           (* Extract links for further crawling *)
           limit <- get max_depth ;;
           if (status_code =? 200) && (depth <? limit) then
             try_except
               (links <- extract_links_call env (snd response) url ;;
                calls <- get session_calls ;;
                for_each (set_order env (length calls) links) (fun link =>
                  visited <- get visited_urls ;;
                  if bool_decide (link ∉ visited) then
                    (* Add delay between requests *)
                    sleep env ;;
                    crawl_page_fuel env fuel' link (depth + 1)
                  else ret tt))
               (fun e => if is_Exception e then Some (ret tt) else None)
           else ret tt)
          (fun e =>
             if is_RequestException e then Some (record_failure url)
             else if is_Exception e then Some (record_failure url)
             else None)
    end.

Definition crawl_page (env : Env) (url : string) (depth : Z) : M unit :=
  fun self =>
    crawl_page_fuel env (Z.to_nat (max_depth self - depth + 1)) url depth self.

(** *** [crawl] *)

(** the call of [crawl_page] between the calls of [logger], which are
    left out *)
Definition crawl (env : Env) : M unit :=
  fun self => crawl_page env (base_url self) 0 self.

(** *** [generate_report] *)

Definition nl : string := String "010" EmptyString.

(** the warning sign that opens the partial-report line, as UTF-8 *)
Definition warning_sign : string :=
  String "226" (String "154" (String "160"
    (String "239" (String "184" (String "143" EmptyString))))).

(** A time is a reading of [time.time()], a double.  From 2004 to 2038
    the readings lie between [2^30] and [2^31] seconds, where the doubles
    are the multiples of [2^-22] seconds and the difference of two of them
    is exact.  A time is modelled as its number of such ticks. *)
Definition ticks_per_second : Z := 2 ^ 22.

(** [n / d] rounded to the nearest integer, a tie to the even one: how
    [.2f] rounds the exact value of a double *)
Definition round_half_even (n d : Z) : Z :=
  let q := n / d in
  let r := n mod d in
  if 2 * r <? d then q
  else if d <? 2 * r then q + 1
  else if Z.even q then q else q + 1.

(** the hundredths of a second that [.2f] shows for [d] ticks, sign apart *)
Definition hundredths (d : Z) : Z :=
  round_half_even (100 * Z.abs d) ticks_per_second.

(** [f"{d:.2f}"] for a time [d] in ticks *)
Definition format_2f (d : Z) : string :=
  let cents := hundredths d mod 100 in
  (if d <? 0 then "-" else EmptyString)
  +:+ Py.str (hundredths d / 100) +:+ "."
  +:+ (if cents <? 10 then "0" else EmptyString) +:+ Py.str cents.

(** [max(values) if values else 0] *)
Definition max_or_zero (values : list Z) : Z :=
  match values with
  | [] => 0
  | v :: values' => fold_left Z.max values' v
  end.

(** [Counter(self.url_status.values())], read through
    [sorted(status_counts.keys())]: each status code with its count *)
Definition status_counts (self : SiteCrawler) : list (Z * nat) :=
  let values := (map_to_list (url_status self)).*2 in
  map (fun status_code =>
         (status_code, length (List.filter (Z.eqb status_code) values)))
      (merge_sort Z.le (remove_dups values)).

Definition status_desc (status_code : Z) : string :=
  if status_code =? 0 then "FAILED"
  else if status_code =? 200 then "OK"
  else if status_code >=? 400 then "ERROR"
  else "OTHER".

Definition metrics (env : Env) (end_time : Z) (self : SiteCrawler)
  : list (string * string) :=
  let duration := end_time - start_time self in
  [ ("Base URL", base_url self);
    ("Domain", domain self);
    ("Start Time", strftime_localtime env (start_time self));
    ("Duration", format_2f duration +:+ " seconds");
    ("Total Requests", Py.str (total_requests self));
    ("Total Pages Visited", Py.str (Z.of_nat (size (visited_urls self))));
    ("Max Depth Reached",
     Py.str (max_or_zero (map_to_list (url_depth self)).*2)) ].

(** the lines of one group of the error section *)
Definition error_group (self : SiteCrawler) (status_code : Z) : list string :=
  (if status_code =? 0 then "### FAILED REQUESTS" +:+ nl
   else "#### HTTP " +:+ Py.str status_code +:+ " ERRORS" +:+ nl)
  :: map (fun url => "- " +:+ url) (error_list status_code self)
  ++ [EmptyString].

(** [self.url_status.get(url, "Unknown")] inside an f-string *)
Definition status_text (self : SiteCrawler) (url : string) : string :=
  match url_status self !! url with
  | Some status => Py.str status
  | None => "Unknown"
  end.

(** the lines of one depth of the listing of visited pages *)
Definition depth_group (self : SiteCrawler) (depth : Z) : list string :=
  let urls_at_depth :=
    (List.filter (fun entry => snd entry =? depth) (map_to_list (url_depth self))).*1 in
  match urls_at_depth with
  | [] => []
  | _ :: _ =>
      ("### Depth " +:+ Py.str depth +:+ " ("
       +:+ Py.str (Z.of_nat (length urls_at_depth)) +:+ " pages)" +:+ nl)
      :: map (fun url => "- [" +:+ status_text self url +:+ "] " +:+ url)
             (merge_sort String.le urls_at_depth)
      ++ [EmptyString]
  end.

(** [end_time] is what [time.time()] returns when the method is entered. *)
Definition generate_report (env : Env) (end_time : Z) (is_partial : bool)
    (self : SiteCrawler) : string :=
  let metrics := metrics env end_time self in
  let max_metric_width :=
    fold_right Nat.max 0%nat (map (fun m => String.length (fst m)) metrics) in
  let report : list string :=
    ["# Site Crawler Report: " +:+ base_url self +:+ nl]
    ++ (if is_partial
        then [warning_sign +:+ " **PARTIAL REPORT** - Crawling was interrupted" +:+ nl]
        else [])
    (* Create properly aligned table *)
    ++ ["| " +:+ Py.ljust max_metric_width "Metric" +:+ " | Value |";
        "|" +:+ Py.dashes max_metric_width +:+ "-|--------|"]
    ++ map (fun m => "| " +:+ Py.ljust max_metric_width (fst m)
                     +:+ " | " +:+ snd m +:+ " |") metrics
    ++ [EmptyString]
    (* Status code summary *)
    ++ ["## HTTP STATUS CODE SUMMARY" +:+ nl;
        "| Status Code | Description | Count |";
        "|-------------|-------------|-------|"]
    ++ map (fun entry => "| " +:+ Py.str (fst entry) +:+ " | "
                         +:+ status_desc (fst entry) +:+ " | "
                         +:+ Py.str (Z.of_nat (snd entry)) +:+ " |")
           (status_counts self)
    ++ [EmptyString]
    (* Error details *)
    ++ (if bool_decide (error_urls self = ∅) then []
        else ("## DETAILED ERROR REPORT" +:+ nl)
             :: concat (map (error_group self)
                            (merge_sort Z.le (map_to_list (error_urls self)).*1)))
    (* All visited URLs by depth *)
    ++ ["## ALL VISITED PAGES BY DEPTH" +:+ nl]
    ++ concat (map (depth_group self)
                   (seqZ 0 (if bool_decide (url_depth self = ∅) then 0
                            else max_or_zero (map_to_list (url_depth self)).*2 + 1))) in
  Py.join nl report.

(** ** The vocabulary of the ledger properties *)

(** the state an outcome leaves behind *)
Definition outcome_state {A} (o : Outcome A) : option SiteCrawler :=
  match o with
  | Done _ self => Some self
  | Raised _ self => Some self
  | OutOfFuel => None
  end.

(** the state after a group of assignments *)
Definition exec (m : M unit) (self : SiteCrawler) : SiteCrawler :=
  default self (outcome_state (m self)).

(** The writes a crawl makes to the ledger, each with what holds when the
    program makes it. *)
Inductive ledger_step (env : Env) (s : SiteCrawler) : SiteCrawler -> Prop :=
| step_visit url depth :
    url ∉ visited_urls s ->
    depth <= max_depth s ->
    ledger_step env s (exec (record_visit url depth) s)
| step_request url :
    ledger_step env s (with_session_calls (url :: session_calls s) s)
| step_response url status_code text n :
    url ∈ visited_urls s ->
    url_status s !! url = None ->
    session_get env n url = Response status_code text ->
    ledger_step env s (exec (record_response url status_code) s)
| step_failure url :
    url ∈ visited_urls s ->
    url_status s !! url = None ->
    ledger_step env s (exec (record_failure url) s).

(** Only visited URLs carry a status or a depth. *)
Record ledger_ok (s : SiteCrawler) : Prop := {
  status_visited : forall u, is_Some (url_status s !! u) -> u ∈ visited_urls s;
  depth_visited : forall u, is_Some (url_depth s !! u) -> u ∈ visited_urls s
}.

(** a URL that is visited and has no status yet *)
Definition pending (s : SiteCrawler) (u : string) : Prop :=
  u ∈ visited_urls s /\ url_status s !! u = None.

(** the environment can interrupt the crawl *)
Definition interrupting (env : Env) : Prop :=
  (exists n u, session_get env n u = Fails KeyboardInterrupt)
  \/ (exists n, time_sleep env n = Some KeyboardInterrupt).

(** the ledger moved from [s] to [s'] by writes of the crawl *)
Definition moves (env : Env) (s s' : SiteCrawler) : Prop :=
  max_depth s' = max_depth s
  /\ (ledger_ok s -> ledger_ok s' /\ rtc (ledger_step env) s s').

(** What a piece of the crawl started in [s] may end with.  With [strict]
    the only exception that may leave is [KeyboardInterrupt]. *)
Definition crawl_post (env : Env) (strict : bool) (s : SiteCrawler)
    (o : Outcome unit) : Prop :=
  match o with
  | Done _ s' =>
      moves env s s' /\ (forall u, pending s' u -> pending s u)
  | Raised e s' =>
      (strict = true -> e = KeyboardInterrupt)
      /\ (e = KeyboardInterrupt -> interrupting env)
      /\ moves env s s'
      /\ (forall u, pending s' u ->
            pending s u
            \/ (e = KeyboardInterrupt /\ head (session_calls s') = Some u))
  | OutOfFuel => False
  end.

(** the states a program can bring a crawler into: made by [__init__],
    then any calls of [crawl_page], interrupted or not *)
Inductive reachable (env : Env) : SiteCrawler -> Prop :=
| reachable_init base_url max_depth now s :
    init env base_url max_depth now = Some s ->
    reachable env s
| reachable_crawl_page s url depth s' :
    reachable env s ->
    outcome_state (crawl_page env url depth s) = Some s' ->
    reachable env s'.

(** the first two writes of a visit: the URL is entered, the request issued *)
Definition requested (url : string) (depth : Z) (s : SiteCrawler) : SiteCrawler :=
  with_session_calls (url :: session_calls s) (exec (record_visit url depth) s).

(** the body of the loop over the links of a page *)
Definition visit_link (env : Env) (fuel : nat) (depth : Z) (link : string) : M unit :=
  visited <- get visited_urls ;;
  if bool_decide (link ∉ visited) then
    sleep env ;;
    crawl_page_fuel env fuel link (depth + 1)
  else ret tt.

Definition enough_fuel (fuel : nat) (depth : Z) (s : SiteCrawler) : Prop :=
  max_depth s - depth + 1 <= Z.of_nat fuel.

(** what [crawl_page] does once the URL is entered and the request issued *)
Definition after_request (env : Env) (fuel : nat) (url : string) (depth : Z)
    (answer : FetchResult) : M unit :=
  match answer with
  | Fails e =>
      if is_Exception e then record_failure url else raise e
  | Response status_code text =>
      record_response url status_code ;;
      limit <- get max_depth ;;
      if (status_code =? 200) && (depth <? limit) then
        fun s =>
          match extract_links env s text url with
          | None => Done tt s
          | Some links =>
              match for_each (set_order env (length (session_calls s)) links)
                      (visit_link env fuel depth) s with
              | Raised e s' => if is_Exception e then Done tt s' else Raised e s'
              | other => other
              end
          end
      else ret tt
  end.


(** *** The properties themselves *)

(** no recorded depth exceeds the limit *)
Definition depth_bounded (s : SiteCrawler) : Prop :=
  forall u d, url_depth s !! u = Some d -> d <= max_depth s.

(** a URL filed under an error class has that class as its status, and
    the class is 0 or an HTTP error status *)
Definition errors_have_status (s : SiteCrawler) : Prop :=
  forall k u, u ∈ error_list k s ->
    url_status s !! u = Some k /\ (k = 0 \/ 400 <= k).

(** a URL whose status is 0 or an HTTP error status is filed under it *)
Definition failures_are_filed (s : SiteCrawler) : Prop :=
  forall u c, url_status s !! u = Some c -> c = 0 \/ 400 <= c ->
    u ∈ error_list c s.

(** An HTTP response never carries the status 0: [http.client] accepts
    status lines from 100 to 999 only. *)
Definition http_statuses (env : Env) : Prop :=
  forall n u status_code text,
    session_get env n u = Response status_code text -> status_code <> 0.

(** every visited URL has a status *)
Definition every_visited_url_has_status (s : SiteCrawler) : Prop :=
  forall u, u ∈ visited_urls s -> is_Some (url_status s !! u).

(** the number of URLs recorded with a status other than 0 *)
Definition completed_requests (s : SiteCrawler) : nat :=
  size (filter (fun entry : string * Z => entry.2 <> 0) (url_status s)).

(** the characters that end the path of a URL: the one that opens the
    query and the one that opens the fragment *)
Definition ends_path (c : ascii) : Prop := c = "?"%char \/ c = "#"%char.

(** the elapsed time [d], in ticks, is 0 or more and less than half a
    hundredth of a second away from [k] hundredths: it prints as [k]
    hundredths *)
Definition prints_as (k d : Z) : Prop :=
  0 <= d
  /\ (2 * k - 1) * ticks_per_second < 200 * d < (2 * k + 1) * ticks_per_second.

(** ** Concrete sites

    Small sites on which the statements below are tried. *)

(** the double quote *)
Definition dq : string := String "034" EmptyString.

(** an anchor with a double-quoted [href] *)
Definition anchor (href : string) : string :=
  "<a href=" +:+ dq +:+ href +:+ dq +:+ ">link</a>".

(** an environment without interruptions; a set is visited in the order of
    [elements] *)
Definition quiet_env (site : nat -> string -> FetchResult) : Env :=
  {| ip_address := fun _ => None;
     session_get := site;
     time_sleep := fun _ => None;
     set_order := fun _ => elements;
     strftime_localtime := fun _ => "1970-01-01 00:00:00" |}.

(** the crawler [SiteCrawler("https://same.com/", max_depth=2)] made at
    time 0 *)
Definition same_com : SiteCrawler :=
  {| base_url := "https://same.com";
     domain := "same.com";
     max_depth := 2;
     visited_urls := ∅;
     url_status := ∅;
     url_depth := ∅;
     error_urls := ∅;
     total_requests := 0;
     start_time := 0;
     session_calls := [] |}.

(** the root links to [/a], [/a] to [/b], [/b] to [/c], [/c] to [/d] *)
Definition chain_site (n : nat) (url : string) : FetchResult :=
  if String.eqb url "https://same.com" then Response 200 (anchor "/a")
  else if String.eqb url "https://same.com/a" then Response 200 (anchor "/b")
  else if String.eqb url "https://same.com/b" then Response 200 (anchor "/c")
  else if String.eqb url "https://same.com/c" then Response 200 (anchor "/d")
  else Response 404 EmptyString.

Definition chain_env : Env := quiet_env chain_site.

(** the root links to a page whose body cannot be scanned, to a missing
    page and to a page whose request fails *)
Definition mixed_site (n : nat) (url : string) : FetchResult :=
  if String.eqb url "https://same.com" then
    Response 200 (anchor "/ok" +:+ anchor "/missing" +:+ anchor "/down")
  else if String.eqb url "https://same.com/ok" then
    Response 200 (anchor "/next" +:+ anchor "http://[")
  else if String.eqb url "https://same.com/missing" then
    Response 404 "not found"
  else if String.eqb url "https://same.com/down" then
    Fails RequestException
  else Response 200 EmptyString.

Definition mixed_env : Env := quiet_env mixed_site.

(** the user interrupts the very first request *)
Definition interrupted_env : Env :=
  quiet_env (fun _ _ => Fails KeyboardInterrupt).

(** the page of the link-extraction example *)
Definition links_page : string :=
  anchor "/p1" +:+ anchor "https://same.com/p2"
  +:+ anchor "https://other.com/x" +:+ anchor "/p3.pdf".

(** the crawler of the unit tests:
    [SiteCrawler("https://example.com", max_depth=2)] *)
Definition example_com : SiteCrawler :=
  {| base_url := "https://example.com";
     domain := "example.com";
     max_depth := 2;
     visited_urls := ∅;
     url_status := ∅;
     url_depth := ∅;
     error_urls := ∅;
     total_requests := 0;
     start_time := 0;
     session_calls := [] |}.

(** the site of [test_crawl_recursive_behavior] *)
Definition recursive_site (n : nat) (url : string) : FetchResult :=
  if String.eqb url "https://example.com/" then Response 200 (anchor "/page1")
  else if String.eqb url "https://example.com/page1" then Response 200 (anchor "/page2")
  else if String.eqb url "https://example.com/page2" then Response 200 (anchor "/page3")
  else Response 404 EmptyString.

(** ** The vocabulary of further properties *)

(** a URL that [is_valid_url] accepts *)
Definition admissible (env : Env) (s : SiteCrawler) (u : string) : Prop :=
  is_valid_url env s u = Some true.

(** a URL that some loop [for link in links] of the crawl can hand to
    [crawl_page]: the loop runs over what [extract_links] returned for
    some page *)
Definition offered (env : Env) (s : SiteCrawler) (u : string) : Prop :=
  exists n text page links,
    extract_links env s text page = Some links
    /\ u ∈ set_order env n links.

(** a [for] loop over a set visits elements of the set only *)
Definition order_sound (env : Env) : Prop :=
  forall n (links : gset string) u, u ∈ set_order env n links -> u ∈ links.

(** What a piece of the crawl may change.  The configuration stays; the
    visited set grows; the depth and the status of a URL that was visited
    before stay as they were; error lists and the history of requests are
    extended with URLs that were not visited before, each requested once;
    [total_requests] grows by at most the number of new requests. *)
Record grows (s s' : SiteCrawler) : Prop := {
  grows_base_url : base_url s' = base_url s;
  grows_domain : domain s' = domain s;
  grows_max_depth : max_depth s' = max_depth s;
  grows_start_time : start_time s' = start_time s;
  grows_visited : forall u, u ∈ visited_urls s -> u ∈ visited_urls s';
  grows_depth :
    forall u, u ∈ visited_urls s -> url_depth s' !! u = url_depth s !! u;
  grows_status :
    forall u, u ∈ visited_urls s -> url_status s' !! u = url_status s !! u;
  grows_errors :
    forall k, exists new,
      error_list k s' = error_list k s ++ new
      /\ forall u, u ∈ new -> (u ∉ visited_urls s) /\ u ∈ visited_urls s';
  grows_calls :
    exists new,
      session_calls s' = new ++ session_calls s
      /\ NoDup new
      /\ (forall u, u ∈ new -> (u ∉ visited_urls s) /\ u ∈ visited_urls s')
      /\ total_requests s <= total_requests s'
         <= total_requests s + Z.of_nat (length new)
}.

(** every URL visited since [s] has a depth, and URL and depth satisfy
    [ok] *)
Definition new_visits (ok : string -> Z -> Prop) (s s' : SiteCrawler) : Prop :=
  forall u, u ∈ visited_urls s' -> u ∉ visited_urls s ->
    exists d, url_depth s' !! u = Some d /\ ok u d.

(** what the loop over the links of a page at [depth] may visit *)
Definition link_visit (env : Env) (s : SiteCrawler) (depth : Z)
    (u : string) (d : Z) : Prop :=
  offered env s u /\ depth < d <= max_depth s.

(** what [crawl_page(url, depth)] may visit *)
Definition call_visit (env : Env) (s : SiteCrawler) (url : string) (depth : Z)
    (u : string) (d : Z) : Prop :=
  (u = url /\ d = depth /\ depth <= max_depth s) \/ link_visit env s depth u d.

(** what a call [crawl_page(url, depth)] started in [s] ends with *)
Definition call_post (env : Env) (url : string) (depth : Z)
    (s : SiteCrawler) (o : Outcome unit) : Prop :=
  forall s', outcome_state o = Some s' ->
    grows s s'
    /\ new_visits (call_visit env s url depth) s s'
    /\ (url ∉ visited_urls s -> depth <= max_depth s ->
        url ∈ visited_urls s'
        /\ url_depth s' !! url = Some depth
        /\ url ∈ session_calls s').

(** the requests are distinct and for visited URLs; no more requests are
    counted than were issued *)
Definition requests_ok (s : SiteCrawler) : Prop :=
  NoDup (session_calls s)
  /\ (forall u, u ∈ session_calls s -> u ∈ visited_urls s)
  /\ 0 <= total_requests s <= Z.of_nat (length (session_calls s)).


(** *** The report, line by line

    [generate_report] joins a list of lines; the sections of that list
    are named here. *)

(** the row of the status summary for one status code and its count *)
Definition status_row (entry : Z * nat) : string :=
  "| " +:+ Py.str (fst entry) +:+ " | " +:+ status_desc (fst entry) +:+ " | "
  +:+ Py.str (Z.of_nat (snd entry)) +:+ " |".

(** the lines under [if self.error_urls:] *)
Definition error_section (self : SiteCrawler) : list string :=
  if bool_decide (error_urls self = ∅) then []
  else ("## DETAILED ERROR REPORT" +:+ nl)
       :: concat (map (error_group self)
                      (merge_sort Z.le (map_to_list (error_urls self)).*1)).

(** [max(self.url_depth.values())], 0 for an empty dictionary *)
Definition max_depth_reached (self : SiteCrawler) : Z :=
  max_or_zero (map_to_list (url_depth self)).*2.

(** the lines of the loop over [range(max(...) + 1 if self.url_depth else 0)] *)
Definition depth_section (self : SiteCrawler) : list string :=
  concat (map (depth_group self)
              (seqZ 0 (if bool_decide (url_depth self = ∅) then 0
                       else max_depth_reached self + 1))).

(** the list [report] when [generate_report] joins it *)
Definition report_lines (env : Env) (end_time : Z) (is_partial : bool)
    (self : SiteCrawler) : list string :=
  let metrics := metrics env end_time self in
  let max_metric_width :=
    fold_right Nat.max 0%nat (map (fun m => String.length (fst m)) metrics) in
  ["# Site Crawler Report: " +:+ base_url self +:+ nl]
  ++ (if is_partial
      then [warning_sign +:+ " **PARTIAL REPORT** - Crawling was interrupted" +:+ nl]
      else [])
  ++ ["| " +:+ Py.ljust max_metric_width "Metric" +:+ " | Value |";
      "|" +:+ Py.dashes max_metric_width +:+ "-|--------|"]
  ++ map (fun m => "| " +:+ Py.ljust max_metric_width (fst m)
                   +:+ " | " +:+ snd m +:+ " |") metrics
  ++ [EmptyString]
  ++ ["## HTTP STATUS CODE SUMMARY" +:+ nl;
      "| Status Code | Description | Count |";
      "|-------------|-------------|-------|"]
  ++ map status_row (status_counts self)
  ++ [EmptyString]
  ++ error_section self
  ++ ["## ALL VISITED PAGES BY DEPTH" +:+ nl]
  ++ depth_section self.

(** the line of the listing by depth for one URL *)
Definition page_line (self : SiteCrawler) (url : string) : string :=
  "- [" +:+ status_text self url +:+ "] " +:+ url.

(** the number of URLs recorded with the status [c] *)
Definition urls_with_status (c : Z) (s : SiteCrawler) : nat :=
  size (filter (fun entry : string * Z => entry.2 = c) (url_status s)).

(** [[url for url, d in self.url_depth.items() if d == depth]] *)
Definition urls_at_depth (self : SiteCrawler) (depth : Z) : list string :=
  (List.filter (fun entry => snd entry =? depth) (map_to_list (url_depth self))).*1.

(** the depths the listing runs over:
    [range(max(self.url_depth.values()) + 1 if self.url_depth else 0)] *)
Definition listed_depths (self : SiteCrawler) : list Z :=
  seqZ 0 (if bool_decide (url_depth self = ∅) then 0
          else max_depth_reached self + 1).

(** ** The command line: [main]

    What [main] does once [parse_args] has returned.  [--delay] reaches
    the crawl through [time_sleep]; the machine that runs the program gives
    the two readings of the clock and the result of writing the report. *)

Record Args := mkArgs {
  arg_url : string;
  arg_max_depth : Z;
  (** [None] when [--output] is not given *)
  arg_output : option string
}.

(** what [open(args.output, "w")] and [f.write(report)] come to *)
Inductive WriteResult :=
| Written
| WriteIOError (message : string)
| WriteError.

Record Host := mkHost {
  (** [time.time()] in [__init__] *)
  time_at_init : Z;
  (** [time.time()] in [generate_report] *)
  time_at_report : Z;
  write_file : string -> string -> WriteResult
}.

(** what the program shows: a [print], or a file with its contents *)
Inductive Event :=
| Printed (text : string)
| FileWritten (path text : string).

Inductive Exit :=
| Returns
| SysExit (code : Z)
| Uncaught (e : Exn)
| Unfinished.

(** [if not args.url.startswith(("http://", "https://")): ...] *)
Definition validate_url (url : string) : string :=
  if Py.startswith url "http://" || Py.startswith url "https://" then url
  else "https://" +:+ url.

(** the [try] block that puts the report out *)
Definition output_report (host : Host) (output : option string) (report : string)
  : list Event * Exit :=
  match output with
  | Some path =>
      if Py.nonempty path then
        match write_file host path report with
        | Written =>
            ([FileWritten path report; Printed ("Report saved to " +:+ path)], Returns)
        | WriteIOError e =>
            ([Printed ("Error writing to " +:+ path +:+ ": " +:+ e);
              Printed (nl +:+ report)], Returns)
        | WriteError => ([], SysExit 1)
        end
      else ([Printed report], Returns)
  | None => ([Printed report], Returns)
  end.

(** what [main] prints in the handler that caught [e] *)
Definition interruption_notice (e : Exn) : list Event :=
  if is_Exception e then [Printed "Generating partial report..."]
  else [Printed (nl +:+ "Crawling interrupted by user");
        Printed "Generating partial report..."].

Definition main (env : Env) (host : Host) (args : Args) : list Event * Exit :=
  (* Validate URL *)
  let url := validate_url (arg_url args) in
  (* Create crawler instance *)
  match init env url (arg_max_depth args) (time_at_init host) with
  | None => ([], Uncaught OtherException)
  | Some crawler =>
      match crawl env crawler with
      | Done _ crawler' =>
          output_report host (arg_output args)
            (generate_report env (time_at_report host) false crawler')
      | Raised e crawler' =>
          let shown :=
            output_report host (arg_output args)
              (generate_report env (time_at_report host) true crawler') in
          (interruption_notice e ++ fst shown, snd shown)
      | OutOfFuel => ([], Unfinished)
      end
  end.

(** a machine whose clock reads 0, then 100, and where files can be
    written *)
Definition quiet_host : Host :=
  {| time_at_init := 0; time_at_report := 100; write_file := fun _ _ => Written |}.

(** [main.py same.com/ --max-depth 2] *)
Definition same_com_args : Args :=
  {| arg_url := "same.com/"; arg_max_depth := 2; arg_output := None |}.

(** ** URLs written plainly

    A URL [scheme://host/path] in which no character needs the care of
    [urlsplit]: the vocabulary for what the crawler does on the URLs of its
    own site. *)

(** a character that stands in a host as it is: it does not end the host,
    is no bracket, and is not removed as a tab, carriage return or line
    feed *)
Definition host_char (a : ascii) : bool :=
  negb (Url.netloc_delim a) && negb (Py.has_char a "[]")
  && negb (Url.unsafe_url_byte a).

(** a character that stands in a path as it is: it opens no query, no
    fragment and no parameters, and is not removed *)
Definition path_char (a : ascii) : bool :=
  negb (Py.has_char a "?#;") && negb (Url.unsafe_url_byte a).

Definition plain_host (host : string) : bool := Py.all_chars host_char host.

(** a path is empty or starts with a slash *)
Definition plain_path (path : string) : bool :=
  match path with
  | EmptyString => true
  | String c _ => Ascii.eqb c "/"
  end && Py.all_chars path_char path.

(** what [is_valid_url] asks of a path *)
Definition accepted_path (path : string) : bool :=
  negb (existsb (fun ext => Py.endswith (Py.lower path) ext) skip_extensions)
  && negb (existsb (fun skip_path => Py.contains skip_path (Py.lower path)) skip_paths).

(** every visited URL was requested *)
Definition visits_requested (s : SiteCrawler) : Prop :=
  forall u, u ∈ visited_urls s -> u ∈ session_calls s.

(** a loop over a set comes to every element of the set *)
Definition order_complete (env : Env) : Prop :=
  forall n (links : gset string) u, u ∈ links -> u ∈ set_order env n links.

(** a site whose pages all link to the home page as [/] *)
Definition home_site (n : nat) (url : string) : FetchResult :=
  Response 200 (anchor "/").

Definition home_env : Env := quiet_env home_site.

(** a scheme as [urlsplit] returns it: empty, or a letter followed by
    letters, digits and the characters [+-.], in lower case *)
Definition split_scheme (scheme : string) : Prop :=
  scheme = EmptyString
  \/ (match scheme with
      | String c0 _ => Py.isalpha c0
      | EmptyString => false
      end = true
      /\ Py.all_chars Url.scheme_chars scheme = true
      /\ Py.lower scheme = scheme).

(** [s.isascii()] *)
Definition isascii (s : string) : bool :=
  Py.all_chars (fun a => (Py.code a <? 128)%nat) s.

(** a character that [urlsplit] keeps in the host: it does not end the
    host and is not removed as a tab, carriage return or line feed *)
Definition netloc_char (a : ascii) : bool :=
  negb (Url.netloc_delim a) && negb (Url.unsafe_url_byte a).

(** one of the two square brackets is in the host and the other is not *)
Definition unbalanced_brackets (host : string) : bool :=
  xorb (Py.has_char "[" host) (Py.has_char "]" host).

(** a site whose home page holds a link that [urlparse] accepts and whose
    clean form it rejects *)
Definition bracket_site (n : nat) (url : string) : FetchResult :=
  Response 200 (anchor "http:[x").

Definition bracket_env : Env := quiet_env bracket_site.
Lemma moves_refl env s : moves env s s.
Proof. split; [done|]. intros; split; [done|]. apply rtc_refl. Qed.

Lemma moves_trans env s1 s2 s3 : moves env s1 s2 -> moves env s2 s3 -> moves env s1 s3.
Proof.
  intros [H1 H2] [H3 H4]. split; [congruence|].
  intros Hok. destruct (H2 Hok) as [Hok2 R1]. destruct (H4 Hok2) as [Hok3 R2].
  split; [done|]. by etrans.
Qed.

Lemma record_response_visited url status_code s :
  visited_urls (exec (record_response url status_code) s) = visited_urls s.
Proof. unfold exec, record_response. cbn. by destruct (status_code >=? 400). Qed.

Lemma record_response_status url status_code s :
  url_status (exec (record_response url status_code) s)
  = <[url := status_code]> (url_status s).
Proof. unfold exec, record_response. cbn. by destruct (status_code >=? 400). Qed.

Lemma record_response_depth url status_code s :
  url_depth (exec (record_response url status_code) s) = url_depth s.
Proof. unfold exec, record_response. cbn. by destruct (status_code >=? 400). Qed.

Lemma record_response_max_depth url status_code s :
  max_depth (exec (record_response url status_code) s) = max_depth s.
Proof. unfold exec, record_response. cbn. by destruct (status_code >=? 400). Qed.

Lemma record_response_calls url status_code s :
  session_calls (exec (record_response url status_code) s) = session_calls s.
Proof. unfold exec, record_response. cbn. by destruct (status_code >=? 400). Qed.

Lemma record_response_requests url status_code s :
  total_requests (exec (record_response url status_code) s) = total_requests s + 1.
Proof. unfold exec, record_response. cbn. by destruct (status_code >=? 400). Qed.

Lemma record_response_errors url status_code s :
  error_urls (exec (record_response url status_code) s) =
    if status_code >=? 400
    then <[status_code := error_list status_code s ++ [url]]> (error_urls s)
    else error_urls s.
Proof. unfold exec, record_response. cbn. by destruct (status_code >=? 400). Qed.

Lemma ledger_step_max_depth env s s' : ledger_step env s s' -> max_depth s' = max_depth s.
Proof. destruct 1; try done. apply record_response_max_depth. Qed.

Lemma ledger_step_ok env s s' : ledger_ok s -> ledger_step env s s' -> ledger_ok s'.
Proof.
  intros [Hs Hd] Hstep.
  destruct Hstep as [url depth Hnew Hle|url|url c text n Hin Hnone Hget|url Hin Hnone];
    split; intros u;
    rewrite ?record_response_visited, ?record_response_status, ?record_response_depth;
    cbn; intros Hu; auto.
  - apply elem_of_union_l; auto.
  - destruct (decide (url = u)) as [->|Hne]; [set_solver|].
    rewrite lookup_insert_ne in Hu by done. apply elem_of_union_l; auto.
  - destruct (decide (url = u)) as [->|Hne]; [done|].
    rewrite lookup_insert_ne in Hu by done. auto.
  - destruct (decide (url = u)) as [->|Hne]; [done|].
    rewrite lookup_insert_ne in Hu by done. auto.
Qed.

Lemma moves_step env s s' : ledger_step env s s' -> moves env s s'.
Proof.
  intros Hstep. split; [by eapply ledger_step_max_depth|].
  intros Hok. split; [by eapply ledger_step_ok|]. by apply rtc_once.
Qed.


Lemma moves_guarded_step env s s' :
  max_depth s' = max_depth s ->
  (ledger_ok s -> ledger_step env s s') ->
  moves env s s'.
Proof.
  intros Hmax Hstep. split; [done|]. intros Hok.
  split; [by eapply ledger_step_ok; eauto|]. apply rtc_once; auto.
Qed.

Lemma requested_moves env url depth s :
  url ∉ visited_urls s -> depth <= max_depth s ->
  moves env s (requested url depth s).
Proof.
  intros Hnew Hle. eapply moves_trans.
  - apply moves_step. by apply step_visit.
  - apply moves_step.
    exact (step_request env (exec (record_visit url depth) s) url).
Qed.

Lemma requested_pending url depth s u :
  pending (requested url depth s) u -> pending s u \/ u = url.
Proof.
  unfold pending; cbn. intros [Hin Hnone].
  apply elem_of_union in Hin as [Hin|Hin]; [by left|right]. set_solver.
Qed.

Lemma requested_no_status url depth s :
  url ∉ visited_urls s -> ledger_ok s ->
  url_status (requested url depth s) !! url = None.
Proof.
  intros Hnew [Hs _]. cbn. destruct (url_status s !! url) eqn:E; [|done].
  exfalso. apply Hnew, Hs. by rewrite E.
Qed.

Lemma moves_extend env s s1 s2 :
  moves env s s1 ->
  max_depth s2 = max_depth s1 ->
  (ledger_ok s -> ledger_step env s1 s2) ->
  moves env s s2.
Proof.
  intros [Hmax Hmv] Hmax2 Hstep. split; [congruence|].
  intros Hok. destruct (Hmv Hok) as [Hok1 Hrtc]. split.
  - eapply ledger_step_ok; eauto.
  - eapply rtc_r; eauto.
Qed.

Lemma response_moves env url depth status_code text n s :
  url ∉ visited_urls s -> depth <= max_depth s ->
  session_get env n url = Response status_code text ->
  moves env s (exec (record_response url status_code) (requested url depth s)).
Proof.
  intros Hnew Hle Hget.
  eapply moves_extend; [by apply requested_moves|apply record_response_max_depth|].
  intros Hok. eapply step_response; eauto.
  - cbn. set_solver.
  - by apply requested_no_status.
Qed.

Lemma response_pending url status_code s u :
  pending (exec (record_response url status_code) s) u -> pending s u /\ u <> url.
Proof.
  unfold pending. rewrite record_response_visited, record_response_status.
  intros [Hin Hnone]. destruct (decide (url = u)) as [->|Hne].
  - by rewrite lookup_insert_eq in Hnone.
  - rewrite lookup_insert_ne in Hnone by done. auto.
Qed.

Lemma failure_moves env url depth s :
  url ∉ visited_urls s -> depth <= max_depth s ->
  moves env s (exec (record_failure url) (requested url depth s)).
Proof.
  intros Hnew Hle.
  eapply moves_extend; [by apply requested_moves|done|].
  intros Hok. apply step_failure.
  - cbn. set_solver.
  - by apply requested_no_status.
Qed.

Lemma failure_pending url s u :
  pending (exec (record_failure url) s) u -> pending s u /\ u <> url.
Proof.
  unfold pending; cbn. intros [Hin Hnone]. destruct (decide (url = u)) as [->|Hne].
  - by rewrite lookup_insert_eq in Hnone.
  - rewrite lookup_insert_ne in Hnone by done. auto.
Qed.

Lemma crawl_post_weaken env s o : crawl_post env true s o -> crawl_post env false s o.
Proof. destruct o; cbn; intuition congruence. Qed.

Lemma for_each_links_post env fuel depth :
  (forall link s, enough_fuel fuel (depth + 1) s ->
     crawl_post env true s (crawl_page_fuel env fuel link (depth + 1) s)) ->
  forall links s, enough_fuel fuel (depth + 1) s ->
    crawl_post env false s (for_each links (visit_link env fuel depth) s).
Proof.
  intros IH links. induction links as [|link links IHl]; intros s Hfuel.
  - cbn. split; [apply moves_refl|auto].
  - cbn [for_each]. unfold bind at 1.
    assert (crawl_post env false s (visit_link env fuel depth link s)) as Hlink.
    { unfold visit_link, bind, get, sleep. case_bool_decide as Hnew.
      - destruct (time_sleep env _) as [e|] eqn:Hsleep.
        + cbn. split; [done|]. split; [|split; [apply moves_refl|auto]].
          intros ->. right. eauto.
        + apply crawl_post_weaken, IH, Hfuel.
      - cbn. split; [apply moves_refl|auto]. }
    destruct (visit_link env fuel depth link s) as [[] s1|e s1|]; [|done..].
    destruct Hlink as [Hmv Hpend].
    assert (enough_fuel fuel (depth + 1) s1) as Hfuel1.
    { unfold enough_fuel in *. destruct Hmv as [-> _]. done. }
    specialize (IHl s1 Hfuel1).
    destruct (for_each links _ s1) as [[] s2|e s2|]; [| |done].
    + destruct IHl as [Hmv2 Hpend2]. split; [by eapply moves_trans|auto].
    + destruct IHl as (Hs & Hi & Hmv2 & Hpend2).
      split; [done|]. split; [done|]. split; [by eapply moves_trans|].
      intros u Hu. destruct (Hpend2 u Hu) as [?|?]; auto.
Qed.

Lemma record_response_done url status_code s :
  record_response url status_code s
  = Done tt (exec (record_response url status_code) s).
Proof.
  unfold exec, record_response, bind, total_requests_incr, url_status_set, modify.
  by destruct (status_code >=? 400).
Qed.

Lemma crawl_page_fuel_unfold env fuel url depth s :
  crawl_page_fuel env fuel url depth s =
  if (depth >? max_depth s) || bool_decide (url ∈ visited_urls s) then Done tt s
  else match fuel with
       | O => OutOfFuel
       | S fuel' =>
           after_request env fuel' url depth
             (session_get env (length (session_calls s)) url)
             (requested url depth s)
       end.
Proof.
  destruct fuel as [|fuel']; cbn [crawl_page_fuel]; unfold bind at 1 2, get;
    destruct (_ || _); try done.
  unfold bind at 1.
  change (record_visit url depth s) with (Done tt (exec (record_visit url depth) s)).
  cbv beta iota.
  unfold try_except at 1, bind at 1, session_get_call.
  change (session_calls (exec (record_visit url depth) s)) with (session_calls s).
  fold (requested url depth s).
  destruct (session_get env _ url) as [status_code text|e]; cbn [after_request].
  - cbn [fst snd]. unfold bind, get. rewrite !record_response_done.
    cbv beta iota.
    destruct (andb (status_code =? 200) _); [|done].
    unfold try_except, extract_links_call.
    destruct (extract_links env _ text url) as [links|]; [|done].
    change (for_each ?order _)
      with (for_each order (visit_link env fuel' depth)).
    destruct (for_each _ _ _) as [[] s'|e s'|]; try done.
    by destruct e.
  - by destruct e.
Qed.

Lemma crawl_page_fuel_post env fuel :
  forall url depth s, enough_fuel fuel depth s ->
    crawl_post env true s (crawl_page_fuel env fuel url depth s).
Proof.
  induction fuel as [|fuel IH]; intros url depth s Hfuel;
    rewrite crawl_page_fuel_unfold;
    destruct (depth >? max_depth s) eqn:Hdepth; cbn [orb];
    try (split; [apply moves_refl|by auto]);
    case_bool_decide as Hnew; try (split; [apply moves_refl|by auto]).
  - unfold enough_fuel in Hfuel. lia.
  - assert (depth <= max_depth s) as Hle by lia.
    destruct (session_get env _ url) as [status_code text|e] eqn:Hget;
      cbn [after_request].
    + unfold bind at 1. rewrite record_response_done. cbv beta iota.
      unfold bind, get. cbv beta iota.
      pose proof (response_moves env url depth _ _ _ s Hnew Hle Hget) as Hmv.
      assert (forall u, pending (exec (record_response url status_code)
                                      (requested url depth s)) u -> pending s u)
        as Hpend.
      { intros u [Hu Hne]%response_pending.
        by destruct (requested_pending _ _ _ _ Hu). }
      set (s2 := exec (record_response url status_code) (requested url depth s)) in *.
      destruct (andb _ _) eqn:Hdescend; [|by split].
      destruct (extract_links env s2 text url) as [links|]; [|by split].
      assert (enough_fuel fuel (depth + 1) s2) as Hfuel2.
      { unfold enough_fuel in *. destruct Hmv as [-> _]. lia. }
      pose proof (for_each_links_post env fuel depth (fun link => IH link (depth + 1))
                    (set_order env (length (session_calls s2)) links) s2 Hfuel2)
        as Hloop.
      destruct (for_each _ _ s2) as [[] s3|e s3|]; [| |done].
      * destruct Hloop as [Hmv3 Hpend3]. split; [by eapply moves_trans|auto].
      * destruct Hloop as (_ & Hint & Hmv3 & Hpend3).
        destruct e; cbn [is_Exception].
        -- split; [by eapply moves_trans|].
           intros u Hu. destruct (Hpend3 u Hu) as [?|[? _]]; [auto|done].
        -- split; [by eapply moves_trans|].
           intros u Hu. destruct (Hpend3 u Hu) as [?|[? _]]; [auto|done].
        -- split; [done|]. split; [done|]. split; [by eapply moves_trans|].
           intros u Hu. destruct (Hpend3 u Hu) as [?|?]; auto.
    + assert (forall u, pending (exec (record_failure url) (requested url depth s)) u
                        -> pending s u) as Hpend.
      { intros u [Hu Hne]%failure_pending.
        by destruct (requested_pending _ _ _ _ Hu). }
      destruct e; cbn [is_Exception]; try (split; [by apply failure_moves|done]).
      split; [done|]. split; [intros _; left; eauto|].
      split; [by apply requested_moves|].
      intros u Hu. destruct (requested_pending _ _ _ _ Hu) as [?| ->]; auto.
Qed.
(** ** Reachable states *)

Lemma enough_fuel_crawl_page depth s :
  enough_fuel (Z.to_nat (max_depth s - depth + 1)) depth s.
Proof. unfold enough_fuel. lia. Qed.

Lemma crawl_page_post env url depth s :
  crawl_post env true s (crawl_page env url depth s).
Proof. apply crawl_page_fuel_post, enough_fuel_crawl_page. Qed.

Lemma crawl_page_moves env url depth s s' :
  outcome_state (crawl_page env url depth s) = Some s' -> moves env s s'.
Proof.
  intros Hout. pose proof (crawl_page_post env url depth s) as Hpost.
  destruct (crawl_page env url depth s) as [[] s1|e s1|]; simplify_eq/=;
    tauto.
Qed.

Lemma init_ledger_ok env base max now s :
  init env base max now = Some s -> ledger_ok s.
Proof.
  unfold init. destruct (Url.urlparse _ _); intros ?; simplify_eq.
  split; cbn; intros u [? Hu]; by rewrite lookup_empty in Hu.
Qed.

Lemma reachable_ledger_ok env s : reachable env s -> ledger_ok s.
Proof.
  induction 1 as [base max now s Hinit|s url depth s' _ IH Hout].
  - by eapply init_ledger_ok.
  - by destruct (crawl_page_moves _ _ _ _ _ Hout) as [_ [? _]].
Qed.

(** a property kept by every write of the crawl is kept by the crawl *)
Lemma steps_preserve env (P : SiteCrawler -> Prop) :
  (forall s s', ledger_ok s -> P s -> ledger_step env s s' -> P s') ->
  forall s s', ledger_ok s -> P s -> rtc (ledger_step env) s s' -> P s'.
Proof.
  intros Hstep s s' Hok HP Hrtc. revert Hok HP.
  induction Hrtc as [|s1 s2 s3 H12 _ IH]; intros Hok HP; [done|].
  apply IH; [by eapply ledger_step_ok|by eapply Hstep].
Qed.

Lemma crawl_page_preserves env (P : SiteCrawler -> Prop) :
  (forall s s', ledger_ok s -> P s -> ledger_step env s s' -> P s') ->
  forall url depth s s', ledger_ok s -> P s ->
    outcome_state (crawl_page env url depth s) = Some s' -> P s'.
Proof.
  intros Hstep url depth s s' Hok HP Hout.
  destruct (crawl_page_moves _ _ _ _ _ Hout) as [_ Hmv].
  destruct (Hmv Hok) as [_ Hrtc]. by eapply steps_preserve.
Qed.

Lemma reachable_invariant env (P : SiteCrawler -> Prop) :
  (forall base max now s, init env base max now = Some s -> P s) ->
  (forall s s', ledger_ok s -> P s -> ledger_step env s s' -> P s') ->
  forall s, reachable env s -> P s.
Proof.
  intros Hinit Hstep s. induction 1 as [base max now s Hi|s url depth s' Hr IH Hout].
  - by eapply Hinit.
  - eapply crawl_page_preserves; eauto. by eapply reachable_ledger_ok.
Qed.

(** ** The depth bound *)

Lemma depth_bounded_step env s s' :
  depth_bounded s -> ledger_step env s s' -> depth_bounded s'.
Proof.
  intros Hb Hstep u d.
  destruct Hstep as [url depth Hnew Hle|url|url c text n Hin Hnone Hget|url Hin Hnone];
    rewrite ?record_response_depth, ?record_response_max_depth; cbn;
    try apply Hb.
  destruct (decide (url = u)) as [->|Hne].
  - rewrite lookup_insert_eq. by intros [= <-].
  - rewrite lookup_insert_ne by done. apply Hb.
Qed.

(** ** Depths and statuses are written once *)

Lemma depth_kept_step env v k s s' :
  ledger_ok s -> url_depth s !! v = Some k -> ledger_step env s s' ->
  url_depth s' !! v = Some k.
Proof.
  intros [_ Hd] Hv Hstep.
  destruct Hstep as [url depth Hnew Hle|url|url c text n Hin Hnone Hget|url Hin Hnone];
    rewrite ?record_response_depth; cbn; auto.
  rewrite lookup_insert_ne; [done|]. intros ->. apply Hnew, Hd. by rewrite Hv.
Qed.


(** ** Statuses and error classes *)

Lemma error_list_insert k c l m s :
  error_list k (with_error_urls (<[c := l]> m) s)
  = if decide (c = k) then l else default [] (m !! k).
Proof.
  unfold error_list; cbn. rewrite lookup_insert. by destruct (decide (c = k)).
Qed.

Lemma error_list_record_response k url c s :
  error_list k (exec (record_response url c) s)
  = if bool_decide (400 <= c /\ c = k) then error_list k s ++ [url]
    else error_list k s.
Proof.
  unfold error_list at 1. rewrite record_response_errors.
  destruct (c >=? 400) eqn:E.
  - rewrite lookup_insert. destruct (decide (c = k)) as [->|Hne].
    + rewrite bool_decide_eq_true_2 by lia. done.
    + rewrite bool_decide_eq_false_2 by tauto. done.
  - rewrite bool_decide_eq_false_2 by lia. done.
Qed.

Lemma error_list_record_failure k url s :
  error_list k (exec (record_failure url) s)
  = if bool_decide (0 = k) then error_list k s ++ [url] else error_list k s.
Proof.
  unfold error_list at 1; cbn. rewrite lookup_insert.
  destruct (decide (0 = k)) as [<-|Hne].
  - by rewrite bool_decide_eq_true_2.
  - by rewrite bool_decide_eq_false_2.
Qed.

Lemma errors_have_status_step env s s' :
  errors_have_status s -> ledger_step env s s' -> errors_have_status s'.
Proof.
  intros He Hstep k u.
  destruct Hstep as [url depth Hnew Hle|url|url c text n Hin Hnone Hget|url Hin Hnone].
  - apply He.
  - apply He.
  - rewrite error_list_record_response, record_response_status.
    case_bool_decide as Hc.
    + destruct Hc as [Hc <-]. intros [Hu| ->%list_elem_of_singleton]%elem_of_app.
      * destruct (He _ _ Hu) as [Hs ?]. rewrite lookup_insert_ne; [done|].
        intros ->. congruence.
      * rewrite lookup_insert_eq. auto.
    + intros Hu. destruct (He _ _ Hu) as [Hs ?]. rewrite lookup_insert_ne; [done|].
      intros ->. congruence.
  - rewrite error_list_record_failure. cbn [url_status exec record_failure].
    change (url_status (exec (record_failure url) s))
      with (<[url := 0]> (url_status s)).
    case_bool_decide as Hc.
    + subst k. intros [Hu| ->%list_elem_of_singleton]%elem_of_app.
      * destruct (He _ _ Hu) as [Hs ?]. rewrite lookup_insert_ne; [done|].
        intros ->. congruence.
      * rewrite lookup_insert_eq. auto.
    + intros Hu. destruct (He _ _ Hu) as [Hs ?]. rewrite lookup_insert_ne; [done|].
      intros ->. congruence.
Qed.

Lemma failures_are_filed_step env s s' :
  http_statuses env ->
  failures_are_filed s -> ledger_step env s s' -> failures_are_filed s'.
Proof.
  intros Hhttp Hf Hstep u c'.
  destruct Hstep as [url depth Hnew Hle|url|url c text n Hin Hnone Hget|url Hin Hnone].
  - apply Hf.
  - apply Hf.
  - rewrite error_list_record_response, record_response_status.
    destruct (decide (url = u)) as [->|Hne].
    + rewrite lookup_insert_eq. intros [= <-] [->|Hc].
      * by destruct (Hhttp _ _ _ _ Hget).
      * rewrite bool_decide_eq_true_2 by done. set_solver.
    + rewrite lookup_insert_ne by done. intros Hs Hc.
      case_bool_decide; [apply elem_of_app; left|]; by apply Hf.
  - rewrite error_list_record_failure.
    change (url_status (exec (record_failure url) s))
      with (<[url := 0]> (url_status s)).
    destruct (decide (url = u)) as [->|Hne].
    + rewrite lookup_insert_eq. intros [= <-] _.
      rewrite bool_decide_eq_true_2 by done. set_solver.
    + rewrite lookup_insert_ne by done. intros Hs Hc.
      case_bool_decide; [apply elem_of_app; left|]; by apply Hf.
Qed.

(** ** Counting requests *)

Lemma completed_requests_insert_nonzero url c (m : gmap string Z) :
  m !! url = None -> c <> 0 ->
  size (filter (fun entry : string * Z => entry.2 <> 0) (<[url := c]> m))
  = S (size (filter (fun entry : string * Z => entry.2 <> 0) m)).
Proof.
  intros Hnone Hc. rewrite map_filter_insert_True by done.
  apply map_size_insert_None. by apply map_lookup_filter_None_2; left.
Qed.

Lemma completed_requests_insert_zero url (m : gmap string Z) :
  m !! url = None ->
  filter (fun entry : string * Z => entry.2 <> 0) (<[url := 0]> m)
  = filter (fun entry : string * Z => entry.2 <> 0) m.
Proof.
  intros Hnone. rewrite map_filter_insert_False by (cbn; lia).
  by rewrite delete_id.
Qed.

Lemma requests_counted_step env s s' :
  http_statuses env ->
  total_requests s = Z.of_nat (completed_requests s) ->
  ledger_step env s s' ->
  total_requests s' = Z.of_nat (completed_requests s').
Proof.
  intros Hhttp Hcount Hstep. unfold completed_requests in *.
  destruct Hstep as [url depth Hnew Hle|url|url c text n Hin Hnone Hget|url Hin Hnone].
  - done.
  - done.
  - rewrite record_response_requests, record_response_status.
    rewrite completed_requests_insert_nonzero; [lia|done|by eapply Hhttp].
  - change (url_status (exec (record_failure url) s))
      with (<[url := 0]> (url_status s)).
    by rewrite completed_requests_insert_zero.
Qed.

(** ** One call of [crawl_page], evaluated *)

Lemma crawl_page_request env url depth s :
  url ∉ visited_urls s -> depth <= max_depth s ->
  crawl_page env url depth s
  = after_request env (Z.to_nat (max_depth s - depth)) url depth
      (session_get env (length (session_calls s)) url) (requested url depth s).
Proof.
  intros Hnew Hle. unfold crawl_page. rewrite crawl_page_fuel_unfold.
  rewrite (bool_decide_eq_false_2 _ Hnew).
  replace (depth >? max_depth s) with false by lia. cbn [orb].
  replace (Z.to_nat (max_depth s - depth + 1))
    with (S (Z.to_nat (max_depth s - depth))) by lia.
  done.
Qed.

Lemma is_valid_url_domain env s s' url :
  domain s = domain s' -> is_valid_url env s url = is_valid_url env s' url.
Proof. intros Hdom. unfold is_valid_url. by rewrite Hdom. Qed.

Lemma extract_links_domain env s s' html current_url :
  domain s = domain s' ->
  extract_links env s html current_url = extract_links env s' html current_url.
Proof.
  intros Hdom. unfold extract_links. generalize (∅ : gset string).
  induction (Url.findall_href html) as [|href matches IH]; intros links; [done|].
  cbn [extract_links_loop]. unfold extract_link.
  destruct (Url.urljoin _ _ _); [|done]. destruct (Url.urlparse _ _); [|done].
  rewrite (is_valid_url_domain env s s' _ Hdom).
  destruct (is_valid_url env s' _) as [[]|]; auto.
Qed.

Lemma after_request_failure env fuel url depth e s :
  is_Exception e = true ->
  after_request env fuel url depth (Fails e) s = Done tt (exec (record_failure url) s).
Proof. intros He. cbn. by rewrite He. Qed.

(** a response that is not followed: an error, or a page at the depth
    limit *)
Lemma after_request_leaf env fuel url depth status_code text s :
  (status_code =? 200) && (depth <? max_depth s) = false ->
  after_request env fuel url depth (Response status_code text) s
  = Done tt (exec (record_response url status_code) s).
Proof.
  intros Hleaf. cbn [after_request]. unfold bind at 1. rewrite record_response_done.
  cbv beta iota. unfold bind, get. cbv beta iota.
  rewrite record_response_max_depth. by rewrite Hleaf.
Qed.

(** a page that is followed and whose links cannot be extracted *)
Lemma after_request_no_links env fuel url depth text s :
  depth < max_depth s ->
  extract_links env s text url = None ->
  after_request env fuel url depth (Response 200 text) s
  = Done tt (exec (record_response url 200) s).
Proof.
  intros Hdepth Hnone. cbn [after_request]. unfold bind at 1.
  rewrite record_response_done. cbv beta iota. unfold bind, get. cbv beta iota.
  rewrite record_response_max_depth.
  replace (depth <? max_depth s) with true by lia. cbn [Z.eqb Pos.eqb andb].
  rewrite (extract_links_domain env (exec (record_response url 200) s) s) by done.
  by rewrite Hnone.
Qed.

(** the ledger after a request that was answered *)
Lemma answered_visited url depth status_code s :
  visited_urls (exec (record_response url status_code) (requested url depth s))
  = visited_urls s ∪ {[url]}.
Proof. by rewrite record_response_visited. Qed.

Lemma answered_depth url depth status_code s :
  url_depth (exec (record_response url status_code) (requested url depth s))
  = <[url := depth]> (url_depth s).
Proof. by rewrite record_response_depth. Qed.

Lemma answered_calls url depth status_code s :
  session_calls (exec (record_response url status_code) (requested url depth s))
  = url :: session_calls s.
Proof. by rewrite record_response_calls. Qed.

Lemma answered_max_depth url depth status_code s :
  max_depth (exec (record_response url status_code) (requested url depth s))
  = max_depth s.
Proof. by rewrite record_response_max_depth. Qed.

(** a page that is followed and has a single link, not visited before *)
Lemma crawl_page_fuel_follow env fuel url depth text link s s' :
  url ∉ visited_urls s -> depth < max_depth s ->
  session_get env (length (session_calls s)) url = Response 200 text ->
  extract_links env s text url = Some {[link]} ->
  set_order env (S (length (session_calls s))) {[link]} = [link] ->
  link ∉ visited_urls s -> link <> url ->
  time_sleep env (S (length (session_calls s))) = None ->
  crawl_page_fuel env fuel link (depth + 1)
    (exec (record_response url 200) (requested url depth s)) = Done tt s' ->
  crawl_page_fuel env (S fuel) url depth s = Done tt s'.
Proof.
  intros Hnew Hdepth Hget Hlinks Horder Hlink Hne Hsleep Hrec.
  rewrite crawl_page_fuel_unfold, (bool_decide_eq_false_2 _ Hnew).
  replace (depth >? max_depth s) with false by lia. cbn [orb].
  rewrite Hget. cbn [after_request]. unfold bind at 1.
  rewrite record_response_done. cbv beta iota. unfold bind at 1, get.
  cbv beta iota. rewrite record_response_max_depth.
  change (max_depth (requested url depth s)) with (max_depth s).
  replace (depth <? max_depth s) with true by lia. cbn [Z.eqb Pos.eqb andb].
  rewrite (extract_links_domain env _ s) by done. rewrite Hlinks.
  rewrite answered_calls. cbn [length]. rewrite Horder.
  cbn [for_each]. unfold bind at 1, visit_link at 1, bind at 1, get.
  cbv beta iota. rewrite record_response_visited.
  rewrite bool_decide_eq_true_2
    by (cbn; intros [?|?%elem_of_singleton]%elem_of_union; done).
  unfold bind at 1, sleep. rewrite answered_calls. cbn [length].
  rewrite Hsleep, Hrec. done.
Qed.

(** a page that is not followed *)
Lemma crawl_page_fuel_leaf env fuel url depth status_code text s :
  url ∉ visited_urls s -> depth <= max_depth s ->
  session_get env (length (session_calls s)) url = Response status_code text ->
  (status_code =? 200) && (depth <? max_depth s) = false ->
  crawl_page_fuel env (S fuel) url depth s
  = Done tt (exec (record_response url status_code) (requested url depth s)).
Proof.
  intros Hnew Hdepth Hget Hleaf.
  rewrite crawl_page_fuel_unfold, (bool_decide_eq_false_2 _ Hnew).
  replace (depth >? max_depth s) with false by lia. cbn [orb].
  rewrite Hget. by apply after_request_leaf.
Qed.


(** ** Link extraction *)

Lemma extract_links_loop_spec env self current_url matches :
  forall acc links,
    extract_links_loop env self current_url matches acc = Some links ->
    forall l, l ∈ links <->
      l ∈ acc \/ exists href, href ∈ matches
                   /\ extract_link env self current_url href = Some (Some l).
Proof.
  induction matches as [|href matches IH]; intros acc links Hloop l.
  - cbn in Hloop. simplify_eq. split; [by left|].
    intros [?|(href & Hin & _)]; [done|]. by apply elem_of_nil in Hin.
  - cbn [extract_links_loop] in Hloop.
    destruct (extract_link env self current_url href) as [[link|]|] eqn:Hlink;
      [| |done]; rewrite (IH _ _ Hloop l); clear IH Hloop.
    + rewrite elem_of_union, elem_of_singleton. split.
      * intros [[?| ->]|(h & Hin & Hh)]; [by left| |].
        -- right. exists href. split; [apply list_elem_of_here|done].
        -- right. exists h. split; [by apply list_elem_of_further|done].
      * intros [?|(h & Hin & Hh)]; [by left; left|].
        apply elem_of_cons in Hin as [->|Hin].
        -- left; right. congruence.
        -- right. by exists h.
    + split.
      * intros [?|(h & Hin & Hh)]; [by left|].
        right. exists h. split; [by apply list_elem_of_further|done].
      * intros [?|(h & Hin & Hh)]; [by left|].
        apply elem_of_cons in Hin as [->|Hin]; [congruence|].
        right. by exists h.
Qed.

Lemma extract_link_spec env self current_url href l :
  extract_link env self current_url href = Some (Some l) <->
  exists absolute_url parsed,
    Url.urljoin (ip_address env) current_url href = Some absolute_url
    /\ Url.urlparse (ip_address env) absolute_url = Some parsed
    /\ l = clean_url parsed
    /\ is_valid_url env self l = Some true.
Proof.
  unfold extract_link. split.
  - destruct (Url.urljoin _ _ _) as [absolute_url|]; [|done].
    destruct (Url.urlparse _ absolute_url) as [parsed|] eqn:Hparse; [|done].
    destruct (is_valid_url env self (clean_url parsed)) as [[]|] eqn:Hvalid;
      intros ?; simplify_eq.
    by exists absolute_url, parsed.
  - intros (absolute_url & parsed & -> & -> & -> & ->). done.
Qed.

(** ** The canonical form has neither query nor fragment *)

Lemma has_char_app c s1 s2 :
  Py.has_char c (s1 +:+ s2) = Py.has_char c s1 || Py.has_char c s2.
Proof.
  induction s1 as [|a s1 IH]; [done|].
  change (String a s1 +:+ s2) with (String a (s1 +:+ s2)). cbn [Py.has_char].
  by rewrite IH, orb_assoc.
Qed.

Lemma has_char_partition_before c s : Py.has_char c (Py.partition c s).1 = false.
Proof.
  induction s as [|a s IH]; [done|]. cbn [Py.partition].
  destruct (Ascii.eqb a c) eqn:E; [done|].
  destruct (Py.partition c s) as [before after]. cbn in *. by rewrite E, IH.
Qed.

Lemma has_char_partition_within c d s :
  Py.has_char d s = false -> Py.has_char d (Py.partition c s).1 = false.
Proof.
  induction s as [|a s IH]; [done|]. cbn [Py.partition Py.has_char].
  intros [Ha Hs]%orb_false_elim. destruct (Ascii.eqb a c); [done|].
  destruct (Py.partition c s) as [before after]. cbn in *. by rewrite Ha, IH.
Qed.

Lemma has_char_span p c s :
  p c = false -> Py.has_char c (Py.span p s).1 = false.
Proof.
  intros Hc. induction s as [|a s IH]; [done|]. cbn [Py.span].
  destruct (p a) eqn:Ha; [|done].
  destruct (Py.span p s) as [run rest]. cbn in *. rewrite IH, orb_false_r.
  apply Ascii.eqb_neq. intros ->. congruence.
Qed.

Lemma has_char_all_chars p c s :
  p c = false -> Py.all_chars p s = true -> Py.has_char c s = false.
Proof.
  intros Hc. induction s as [|a s IH]; [done|]. cbn.
  intros [Ha Hs]%andb_prop. rewrite (IH Hs), orb_false_r.
  apply Ascii.eqb_neq. intros ->. congruence.
Qed.

Lemma has_char_substring c n m s :
  Py.has_char c s = false -> Py.has_char c (String.substring n m s) = false.
Proof.
  revert n m. induction s as [|a s IH]; intros n m.
  - by destruct n, m.
  - cbn [Py.has_char]. intros [Ha Hs]%orb_false_elim.
    destruct n as [|n]; destruct m as [|m]; cbn [String.substring Py.has_char];
      rewrite ?Ha, ?IH; done.
Qed.

Lemma has_char_after_last c d s :
  Py.has_char d s = false -> Py.has_char d (Py.after_last c s) = false.
Proof.
  induction s as [|a s IH]; [done|]. cbn [Py.after_last Py.has_char].
  intros [Ha Hs]%orb_false_elim.
  destruct (Py.has_char c s); [auto|].
  destruct (Ascii.eqb a c); [done|]. cbn. by rewrite Ha, Hs.
Qed.

Lemma partition_none c s before :
  Py.partition c s = (before, None) -> before = s.
Proof.
  revert before. induction s as [|a s IH]; intros before; cbn [Py.partition].
  - by intros [= <-].
  - destruct (Ascii.eqb a c); [done|].
    destruct (Py.partition c s) as [b o]. intros [= <- ->]. by rewrite (IH b).
Qed.

Lemma has_char_split_once c d s :
  d = c \/ Py.has_char d s = false ->
  Py.has_char d (Py.split_once c s).1 = false.
Proof.
  intros Hd. pose proof (has_char_partition_before c s) as Hbefore.
  assert (Py.has_char d (Py.partition c s).1 = false) as Hfst.
  { destruct Hd as [-> | Hd]; [done|]. by apply has_char_partition_within. }
  unfold Py.split_once.
  destruct (Py.partition c s) as [before [after|]] eqn:E; [done|].
  cbn in *. by rewrite <- (partition_none _ _ _ E).
Qed.

Lemma lower_char_ends_path c a :
  ends_path c -> Ascii.eqb (Py.lower_char a) c = Ascii.eqb a c.
Proof.
  intros [-> | ->]; by destruct a as [[] [] [] [] [] [] [] []].
Qed.

Lemma has_char_lower c s :
  ends_path c -> Py.has_char c (Py.lower s) = Py.has_char c s.
Proof.
  intros Hc. induction s as [|a s IH]; [done|]. cbn.
  by rewrite IH, lower_char_ends_path.
Qed.

Lemma has_char_splitparams c url :
  Py.has_char c url = false -> Py.has_char c (Url.splitparams url).1 = false.
Proof.
  intros Hurl. unfold Url.splitparams. destruct (Py.has_char "/" url).
  - pose proof (has_char_partition_within ";" c (Py.after_last "/" url)
                  (has_char_after_last "/" c url Hurl)) as Htail.
    destruct (Py.partition ";" (Py.after_last "/" url)) as [before [after|]];
      [|done].
    cbn in *. rewrite has_char_app, Htail, orb_false_r.
    by apply has_char_substring.
  - apply has_char_split_once. by right.
Qed.

Lemma urlsplit_ends_path ip c url sc nl p q f :
  ends_path c ->
  Url.urlsplit ip url EmptyString = Some (sc, nl, p, q, f) ->
  Py.has_char c sc = false /\ Py.has_char c nl = false /\ Py.has_char c p = false.
Proof.
  intros Hc. unfold Url.urlsplit.
  set (url1 := Py.remove_chars _ (Py.lstrip _ url)).
  change (Py.remove_chars Url.unsafe_url_byte
            (Py.strip Url.c0_control_or_space EmptyString)) with EmptyString.
  set (scheme_url :=
         match Py.partition ":" url1 with
         | (String c0 _ as before, Some after) =>
             if Py.isalpha c0 && Py.all_chars Url.scheme_chars before
             then (Py.lower before, after) else (EmptyString, url1)
         | _ => (EmptyString, url1)
         end).
  assert (Py.has_char c scheme_url.1 = false) as Hscheme.
  { unfold scheme_url. destruct (Py.partition ":" url1) as [[|c0 before] [after|]];
      try done.
    destruct (Py.isalpha c0 && Py.all_chars Url.scheme_chars (String c0 before))
      eqn:E; [|done].
    apply andb_prop in E as [_ E]. cbn [fst]. rewrite has_char_lower by done.
    apply (has_char_all_chars Url.scheme_chars); [|done].
    by destruct Hc as [-> | ->]. }
  destruct scheme_url as [scheme2 url2]. cbn [fst] in Hscheme.
  assert (Url.netloc_delim c = true) as Hdelim by (by destruct Hc as [-> | ->]).
  destruct (Py.startswith url2 "//").
  - pose proof (has_char_span (fun a => negb (Url.netloc_delim a)) c
                  (Py.drop 2 url2)) as Hnetloc.
    destruct (Py.span _ (Py.drop 2 url2)) as [netloc url3].
    destruct (_ || _); [done|]. destruct (_ && _); [done|].
    pose proof (has_char_split_once "#" c url3) as Hfrag.
    destruct (Py.split_once "#" url3) as [url4 fragment].
    pose proof (has_char_split_once "?" c url4) as Hquery.
    destruct (Py.split_once "?" url4) as [url5 query].
    intros [= <- <- <- <- <-]. cbn [fst] in *.
    split; [done|]. split; [by apply Hnetloc; rewrite Hdelim|].
    destruct Hc as [-> | ->].
    + apply Hquery. by left.
    + apply Hquery. right. apply Hfrag. by left.
  - pose proof (has_char_split_once "#" c url2) as Hfrag.
    destruct (Py.split_once "#" url2) as [url4 fragment].
    pose proof (has_char_split_once "?" c url4) as Hquery.
    destruct (Py.split_once "?" url4) as [url5 query].
    intros [= <- <- <- <- <-]. cbn [fst] in *.
    split; [done|]. split; [done|].
    destruct Hc as [-> | ->].
    + apply Hquery. by left.
    + apply Hquery. right. apply Hfrag. by left.
Qed.

Lemma urlparse_ends_path ip c url parsed :
  ends_path c ->
  Url.urlparse ip url = Some parsed ->
  Py.has_char c (clean_url parsed) = false.
Proof.
  intros Hc. unfold Url.urlparse, Url.urlparse_with.
  destruct (Url.urlsplit ip url EmptyString) as [[[[[sc nl] p] q] f]|] eqn:Hsplit;
    [|done].
  destruct (urlsplit_ends_path _ _ _ _ _ _ _ _ Hc Hsplit) as (Hsc & Hnl & Hp).
  assert (Py.has_char c "://" = false) as Hsep by (by destruct Hc as [-> | ->]).
  destruct (Py.mem sc Url.uses_params && Py.has_char ";" p).
  - pose proof (has_char_splitparams c p Hp) as Hpath.
    destruct (Url.splitparams p) as [path params]. intros [= <-].
    unfold clean_url; cbn [Url.scheme Url.netloc Url.path fst] in *.
    by rewrite !has_char_app, Hsc, Hsep, Hnl, Hpath.
  - intros [= <-]. unfold clean_url; cbn [Url.scheme Url.netloc Url.path].
    by rewrite !has_char_app, Hsc, Hsep, Hnl, Hp.
Qed.

(** ** What a call of [crawl_page] changes *)

Lemma grows_refl s : grows s s.
Proof.
  split; try done.
  - intros k. exists []. split; [by rewrite app_nil_r|].
    intros u Hu. by apply elem_of_nil in Hu.
  - exists []. split; [done|]. split; [constructor|]. split; [|cbn; lia].
    intros u Hu. by apply elem_of_nil in Hu.
Qed.

Lemma grows_trans s1 s2 s3 : grows s1 s2 -> grows s2 s3 -> grows s1 s3.
Proof.
  intros G1 G2. split.
  - by rewrite (grows_base_url _ _ G2), (grows_base_url _ _ G1).
  - by rewrite (grows_domain _ _ G2), (grows_domain _ _ G1).
  - by rewrite (grows_max_depth _ _ G2), (grows_max_depth _ _ G1).
  - by rewrite (grows_start_time _ _ G2), (grows_start_time _ _ G1).
  - intros u Hu. by apply (grows_visited _ _ G2), (grows_visited _ _ G1).
  - intros u Hu. rewrite (grows_depth _ _ G2) by (by apply (grows_visited _ _ G1)).
    by apply (grows_depth _ _ G1).
  - intros u Hu. rewrite (grows_status _ _ G2) by (by apply (grows_visited _ _ G1)).
    by apply (grows_status _ _ G1).
  - intros k. destruct (grows_errors _ _ G1 k) as (new1 & E1 & N1).
    destruct (grows_errors _ _ G2 k) as (new2 & E2 & N2).
    exists (new1 ++ new2). split; [by rewrite E2, E1, app_assoc|].
    intros u [Hu|Hu]%elem_of_app.
    + destruct (N1 u Hu). split; [done|]. by apply (grows_visited _ _ G2).
    + destruct (N2 u Hu) as [Hnot ?]. split; [|done].
      intros Hin. by apply Hnot, (grows_visited _ _ G1).
  - destruct (grows_calls _ _ G1) as (new1 & E1 & D1 & N1 & T1).
    destruct (grows_calls _ _ G2) as (new2 & E2 & D2 & N2 & T2).
    exists (new2 ++ new1). split; [by rewrite E2, E1, app_assoc|].
    split; [|split].
    + apply NoDup_app. split; [done|]. split; [|done].
      intros u Hu2 Hu1. destruct (N2 u Hu2) as [Hnot _].
      by destruct (N1 u Hu1) as [_ Hin].
    + intros u [Hu|Hu]%elem_of_app.
      * destruct (N2 u Hu) as [Hnot ?]. split; [|done].
        intros Hin. by apply Hnot, (grows_visited _ _ G1).
      * destruct (N1 u Hu). split; [done|]. by apply (grows_visited _ _ G2).
    + rewrite length_app. lia.
Qed.

Lemma new_visits_refl ok s : new_visits ok s s.
Proof. intros u Hin Hnot. done. Qed.

Lemma new_visits_trans ok s1 s2 s3 :
  new_visits ok s1 s2 -> grows s2 s3 -> new_visits ok s2 s3 ->
  new_visits ok s1 s3.
Proof.
  intros N1 G2 N2 u Hin Hnot.
  destruct (decide (u ∈ visited_urls s2)) as [Hmid|Hmid].
  - destruct (N1 u Hmid Hnot) as (d & Hd & Hok). exists d. split; [|done].
    by rewrite (grows_depth _ _ G2).
  - by apply N2.
Qed.

Lemma new_visits_weaken (ok ok' : string -> Z -> Prop) s s' :
  (forall u d, ok u d -> ok' u d) -> new_visits ok s s' -> new_visits ok' s s'.
Proof.
  intros Himp N u Hin Hnot. destruct (N u Hin Hnot) as (d & ? & ?). eauto.
Qed.

Lemma offered_domain env s s' u :
  domain s = domain s' -> offered env s u -> offered env s' u.
Proof.
  intros Hdom (n & text & page & links & Hlinks & Hu).
  exists n, text, page, links. split; [|done].
  by rewrite <- (extract_links_domain env s s').
Qed.

Lemma not_visited_ne (s : SiteCrawler) url u :
  url ∉ visited_urls s -> u ∈ visited_urls s -> url <> u.
Proof. intros Hnew Hu ->. done. Qed.

Lemma one_new (s s' : SiteCrawler) url :
  url ∉ visited_urls s -> url ∈ visited_urls s' ->
  forall u, u ∈ [url] -> (u ∉ visited_urls s) /\ u ∈ visited_urls s'.
Proof. intros Hnew Hin u ->%list_elem_of_singleton. done. Qed.

(** the request is issued and nothing is recorded yet: an interrupt *)
Lemma grows_requested url depth s :
  url ∉ visited_urls s -> grows s (requested url depth s).
Proof.
  intros Hnew. split; try done.
  - intros u Hu. cbn. apply elem_of_union. by left.
  - intros u Hu. cbn. apply lookup_insert_ne. by eapply not_visited_ne.
  - intros k. exists []. split; [by rewrite app_nil_r|].
    intros u Hu. by apply elem_of_nil in Hu.
  - exists [url]. split; [done|]. split; [apply NoDup_singleton|].
    split; [|cbn; lia]. apply one_new; [done|].
    cbn. apply elem_of_union. right. by apply elem_of_singleton.
Qed.

(** the request is answered *)
Lemma grows_answered url depth status_code s :
  url ∉ visited_urls s ->
  grows s (exec (record_response url status_code) (requested url depth s)).
Proof.
  intros Hnew.
  assert (url ∈ visited_urls
            (exec (record_response url status_code) (requested url depth s)))
    as Hin.
  { rewrite answered_visited. apply elem_of_union. right. by apply elem_of_singleton. }
  split; rewrite ?record_response_max_depth; try done.
  - unfold exec, record_response. cbn. by destruct (status_code >=? 400).
  - unfold exec, record_response. cbn. by destruct (status_code >=? 400).
  - unfold exec, record_response. cbn. by destruct (status_code >=? 400).
  - intros u Hu. rewrite answered_visited. apply elem_of_union. by left.
  - intros u Hu. rewrite answered_depth. apply lookup_insert_ne.
    by eapply not_visited_ne.
  - intros u Hu. rewrite record_response_status. cbn.
    apply lookup_insert_ne. by eapply not_visited_ne.
  - intros k. rewrite error_list_record_response.
    change (error_list k (requested url depth s)) with (error_list k s).
    case_bool_decide.
    + exists [url]. split; [done|]. by apply one_new.
    + exists []. split; [by rewrite app_nil_r|].
      intros u Hu. by apply elem_of_nil in Hu.
  - exists [url]. rewrite answered_calls, record_response_requests.
    split; [done|]. split; [apply NoDup_singleton|].
    split; [by apply one_new|]. cbn. lia.
Qed.

(** the request fails *)
Lemma grows_failed url depth s :
  url ∉ visited_urls s ->
  grows s (exec (record_failure url) (requested url depth s)).
Proof.
  intros Hnew.
  assert (url ∈ visited_urls (exec (record_failure url) (requested url depth s)))
    as Hin.
  { cbn. apply elem_of_union. right. by apply elem_of_singleton. }
  split; try done.
  - intros u Hu. cbn. apply elem_of_union. by left.
  - intros u Hu. cbn. apply lookup_insert_ne. by eapply not_visited_ne.
  - intros u Hu. cbn. apply lookup_insert_ne. by eapply not_visited_ne.
  - intros k. rewrite error_list_record_failure.
    change (error_list k (requested url depth s)) with (error_list k s).
    case_bool_decide.
    + exists [url]. split; [done|]. by apply one_new.
    + exists []. split; [by rewrite app_nil_r|].
      intros u Hu. by apply elem_of_nil in Hu.
  - exists [url]. split; [done|]. split; [apply NoDup_singleton|].
    split; [by apply one_new|]. cbn. lia.
Qed.

(** in all three cases the one URL visited since [s] is [url], at [depth] *)
Lemma new_visits_one env url depth s s' :
  depth <= max_depth s ->
  visited_urls s' = visited_urls s ∪ {[url]} ->
  url_depth s' = <[url := depth]> (url_depth s) ->
  new_visits (call_visit env s url depth) s s'.
Proof.
  intros Hle Hv Hd u Hin Hnot. rewrite Hv in Hin.
  apply elem_of_union in Hin as [?| ->%elem_of_singleton]; [done|].
  exists depth. rewrite Hd, lookup_insert_eq. split; [done|]. by left.
Qed.

Lemma call_visit_link_visit env s0 s link depth u d :
  domain s = domain s0 -> max_depth s = max_depth s0 ->
  offered env s0 link -> depth < max_depth s0 ->
  call_visit env s link (depth + 1) u d -> link_visit env s0 depth u d.
Proof.
  intros Hdom Hmax Hlink Hdepth [(-> & -> & _)|[Hoff Hd]].
  - split; [done|lia].
  - split; [by eapply offered_domain|lia].
Qed.

Lemma for_each_links_grows env fuel depth s0 :
  (forall link s,
     call_post env link (depth + 1) s (crawl_page_fuel env fuel link (depth + 1) s)) ->
  depth < max_depth s0 ->
  forall links s,
    domain s = domain s0 -> max_depth s = max_depth s0 ->
    Forall (offered env s0) links ->
    forall s', outcome_state (for_each links (visit_link env fuel depth) s) = Some s' ->
      grows s s' /\ new_visits (link_visit env s0 depth) s s'.
Proof.
  intros IH Hdepth links.
  induction links as [|link links IHl]; intros s Hdom Hmax Hlinks s' Hout.
  - cbn in Hout. simplify_eq. split; [apply grows_refl|apply new_visits_refl].
  - apply Forall_cons in Hlinks as [Hlink Hlinks]. cbn [for_each] in Hout.
    unfold bind at 1 in Hout.
    assert (forall s1, outcome_state (visit_link env fuel depth link s) = Some s1 ->
              grows s s1 /\ new_visits (link_visit env s0 depth) s s1) as Hfirst.
    { unfold visit_link, bind, get, sleep. case_bool_decide as Hnew.
      - destruct (time_sleep env _) as [e|].
        + cbn. intros s1 [= <-]. split; [apply grows_refl|apply new_visits_refl].
        + intros s1 Hs1. destruct (IH link s s1 Hs1) as (G & N & _).
          split; [done|]. eapply new_visits_weaken; [|exact N].
          intros u d. by apply call_visit_link_visit.
      - cbn. intros s1 [= <-]. split; [apply grows_refl|apply new_visits_refl]. }
    destruct (visit_link env fuel depth link s) as [[] s1|e s1|]; [| |done].
    + destruct (Hfirst s1 eq_refl) as [G1 N1].
      destruct (IHl s1) with (s' := s') as [G2 N2]; auto.
      * by rewrite (grows_domain _ _ G1).
      * by rewrite (grows_max_depth _ _ G1).
      * split; [by eapply grows_trans|by eapply new_visits_trans].
    + cbn in Hout. simplify_eq. by apply Hfirst.
Qed.

Lemma crawl_page_fuel_grows env fuel :
  forall url depth s,
    call_post env url depth s (crawl_page_fuel env fuel url depth s).
Proof.
  induction fuel as [|fuel IH]; intros url depth s s';
    rewrite crawl_page_fuel_unfold;
    destruct (depth >? max_depth s) eqn:Hdepth; cbn [orb].
  - intros [= <-]. split; [apply grows_refl|]. split; [apply new_visits_refl|lia].
  - case_bool_decide as Hnew; [|done]. intros [= <-].
    split; [apply grows_refl|]. split; [apply new_visits_refl|done].
  - intros [= <-]. split; [apply grows_refl|]. split; [apply new_visits_refl|lia].
  - case_bool_decide as Hnew.
    { intros [= <-]. split; [apply grows_refl|]. split; [apply new_visits_refl|done]. }
    assert (depth <= max_depth s) as Hle by lia.
    assert (forall s1,
              visited_urls s1 = visited_urls s ∪ {[url]} ->
              url_depth s1 = <[url := depth]> (url_depth s) ->
              session_calls s1 = url :: session_calls s ->
              url ∈ visited_urls s1 /\ url_depth s1 !! url = Some depth
              /\ url ∈ session_calls s1) as Hself.
    { intros s1 -> -> ->. rewrite lookup_insert_eq. split; [|split; [done|]].
      - apply elem_of_union. right. by apply elem_of_singleton.
      - apply list_elem_of_here. }
    destruct (session_get env _ url) as [status_code text|e]; cbn [after_request].
    + unfold bind at 1. rewrite record_response_done. cbv beta iota.
      unfold bind, get. cbv beta iota.
      pose proof (grows_answered url depth status_code s Hnew) as G.
      pose proof (new_visits_one env url depth s _ Hle
                    (answered_visited url depth status_code s)
                    (answered_depth url depth status_code s)) as N.
      pose proof (Hself _ (answered_visited url depth status_code s)
                    (answered_depth url depth status_code s)
                    (answered_calls url depth status_code s)) as (Hv & Hd & Hc).
      set (s2 := exec (record_response url status_code) (requested url depth s)) in *.
      assert (forall s3, grows s2 s3 -> new_visits (link_visit env s2 depth) s2 s3 ->
                grows s s3
                /\ new_visits (call_visit env s url depth) s s3
                /\ (url ∉ visited_urls s -> depth <= max_depth s ->
                    url ∈ visited_urls s3 /\ url_depth s3 !! url = Some depth
                    /\ url ∈ session_calls s3)) as Hthen.
      { intros s3 G3 N3. split; [by eapply grows_trans|]. split.
        - eapply new_visits_trans; [exact N|exact G3|].
          eapply new_visits_weaken; [|exact N3].
          intros u d [Hoff Hd3]. right. split.
          + apply (offered_domain env s2 s); [|done]. apply (grows_domain _ _ G).
          + by rewrite <- (grows_max_depth _ _ G).
        - intros _ _. split; [by apply (grows_visited _ _ G3)|].
          split; [by rewrite (grows_depth _ _ G3)|].
          destruct (grows_calls _ _ G3) as (new & -> & _).
          apply elem_of_app. by right. }
      destruct (andb _ _) eqn:Hdescend.
      * apply andb_prop in Hdescend as [_ Hlt].
        destruct (extract_links env s2 text url) as [links|] eqn:Hlinks.
        -- pose proof (for_each_links_grows env fuel depth s2
                         (fun link s => IH link (depth + 1) s) ltac:(lia)
                         (set_order env (length (session_calls s2)) links) s2
                         eq_refl eq_refl) as Hloop.
           assert (Forall (offered env s2)
                     (set_order env (length (session_calls s2)) links)) as Hoff.
           { apply Forall_forall. intros u Hu.
             by exists (length (session_calls s2)), text, url, links. }
           specialize (Hloop Hoff).
           destruct (for_each _ _ s2) as [[] s3|e s3|]; [| |done].
           ++ intros [= <-]. destruct (Hloop s3 eq_refl). by apply Hthen.
           ++ destruct (Hloop s3 eq_refl).
              destruct (is_Exception e); intros [= <-]; by apply Hthen.
        -- intros [= <-]. apply Hthen; [apply grows_refl|apply new_visits_refl].
      * intros [= <-]. apply Hthen; [apply grows_refl|apply new_visits_refl].
    + destruct (is_Exception e); cbn; intros [= <-].
      * split; [by apply grows_failed|]. split; [by apply new_visits_one|].
        intros _ _. by apply Hself.
      * split; [by apply grows_requested|]. split; [by apply new_visits_one|].
        intros _ _. by apply Hself.
Qed.

Lemma crawl_page_grows env url depth s :
  call_post env url depth s (crawl_page env url depth s).
Proof. apply crawl_page_fuel_grows. Qed.

(** ** Consequences for reachable states *)

Lemma offered_admissible env s u :
  order_sound env -> offered env s u -> admissible env s u.
Proof.
  intros Hsound (n & text & page & links & Hlinks & Hu).
  apply Hsound in Hu. unfold extract_links in Hlinks.
  apply (extract_links_loop_spec _ _ _ _ _ _ Hlinks u) in Hu
    as [Hin|(href & _ & Hlink)]; [by apply not_elem_of_empty in Hin|].
  by apply extract_link_spec in Hlink as (absolute_url & parsed & _ & _ & _ & ?).
Qed.

Lemma admissible_same_host env s u :
  admissible env s u ->
  exists parsed,
    Url.urlparse (ip_address env) u = Some parsed
    /\ Url.netloc parsed = domain s
    /\ (Url.scheme parsed = "http" \/ Url.scheme parsed = "https").
Proof.
  unfold admissible, is_valid_url.
  destruct (Url.urlparse _ u) as [parsed|]; [|done]. intros Hvalid.
  exists parsed. split; [done|].
  destruct (String.eqb (Url.netloc parsed) (domain s)) eqn:Hhost; [|done].
  apply String.eqb_eq in Hhost. split; [done|]. cbn [negb] in Hvalid.
  unfold Py.mem in Hvalid. cbn [existsb] in Hvalid.
  destruct (String.eqb (Url.scheme parsed) "http") eqn:E1.
  { left. by apply String.eqb_eq. }
  destruct (String.eqb (Url.scheme parsed) "https") eqn:E2.
  { right. by apply String.eqb_eq. }
  done.
Qed.

Lemma init_fresh env base max now s :
  init env base max now = Some s ->
  visited_urls s = ∅ /\ url_status s = ∅ /\ url_depth s = ∅ /\ error_urls s = ∅
  /\ total_requests s = 0 /\ session_calls s = [] /\ max_depth s = max.
Proof. unfold init. destruct (Url.urlparse _ _); intros ?; by simplify_eq. Qed.

Lemma requests_ok_grows s s' : requests_ok s -> grows s s' -> requests_ok s'.
Proof.
  intros (Hdup & Hsub & Hcount) G. unfold requests_ok.
  destruct (grows_calls _ _ G) as (new & -> & Hnew & Hfresh & Htotal).
  split; [|split].
  - apply NoDup_app. split; [done|]. split; [|done].
    intros u Hu Hold. destruct (Hfresh u Hu) as [Hnot _]. by apply Hnot, Hsub.
  - intros u [Hu|Hu]%elem_of_app.
    + by destruct (Hfresh u Hu).
    + by apply (grows_visited _ _ G), Hsub.
  - rewrite length_app. lia.
Qed.

Lemma reachable_requests_ok env s : reachable env s -> requests_ok s.
Proof.
  induction 1 as [base max now s Hinit|s url depth s' _ IH Hout].
  - destruct (init_fresh _ _ _ _ _ Hinit) as (_ & _ & _ & _ & Ht & Hc & _).
    unfold requests_ok. rewrite Hc, Ht. split; [constructor|]. split; [|done].
    intros u Hu. by apply elem_of_nil in Hu.
  - destruct (crawl_page_grows env url depth s s' Hout) as (G & _).
    by eapply requests_ok_grows.
Qed.

Lemma NoDup_length_le_size (l : list string) (X : gset string) :
  NoDup l -> (forall u, u ∈ l -> u ∈ X) -> (length l <= size X)%nat.
Proof.
  intros Hdup Hsub. rewrite <- (size_list_to_set (C := gset string) l) by done.
  apply subseteq_size. intros u Hu. apply Hsub. by apply elem_of_list_to_set in Hu.
Qed.

(** ** Error lists *)

Lemma error_lists_nodup_step env s s' :
  errors_have_status s ->
  (forall k, NoDup (error_list k s)) ->
  ledger_step env s s' ->
  forall k, NoDup (error_list k s').
Proof.
  intros He Hdup Hstep k.
  destruct Hstep as [url depth Hnew Hle|url|url c text n Hin Hnone Hget|url Hin Hnone].
  - apply Hdup.
  - apply Hdup.
  - rewrite error_list_record_response. case_bool_decide; [|apply Hdup].
    apply NoDup_app. split; [apply Hdup|]. split; [|apply NoDup_singleton].
    intros u Hu ->%list_elem_of_singleton. destruct (He _ _ Hu). congruence.
  - rewrite error_list_record_failure. case_bool_decide; [|apply Hdup].
    apply NoDup_app. split; [apply Hdup|]. split; [|apply NoDup_singleton].
    intros u Hu ->%list_elem_of_singleton. destruct (He _ _ Hu). congruence.
Qed.

Lemma init_error_list env base max now s k :
  init env base max now = Some s -> error_list k s = [].
Proof.
  intros Hinit. destruct (init_fresh _ _ _ _ _ Hinit) as (_ & _ & _ & He & _).
  unfold error_list. by rewrite He, lookup_empty.
Qed.

Lemma reachable_errors_have_status env s :
  reachable env s -> errors_have_status s.
Proof.
  revert s. apply reachable_invariant.
  - intros base max now s Hinit k u. rewrite (init_error_list _ _ _ _ _ k Hinit).
    intros Hu. by apply elem_of_nil in Hu.
  - intros s1 s2 _. apply errors_have_status_step.
Qed.

(** ** Depths and visited URLs *)

Lemma depth_of_visited_step env s s' :
  (forall u, u ∈ visited_urls s -> is_Some (url_depth s !! u)) ->
  ledger_step env s s' ->
  forall u, u ∈ visited_urls s' -> is_Some (url_depth s' !! u).
Proof.
  intros Hd Hstep u.
  destruct Hstep as [url depth Hnew Hle|url|url c text n Hin Hnone Hget|url Hin Hnone];
    rewrite ?record_response_visited, ?record_response_depth; cbn; auto.
  intros [Hu| ->%elem_of_singleton]%elem_of_union.
  - destruct (decide (url = u)) as [->|Hne]; [by rewrite lookup_insert_eq|].
    rewrite lookup_insert_ne by done. auto.
  - by rewrite lookup_insert_eq.
Qed.

Lemma reachable_error_lists_nodup env s :
  reachable env s -> forall k, NoDup (error_list k s).
Proof.
  intros Hreach.
  assert (errors_have_status s /\ forall k, NoDup (error_list k s)) as [_ H];
    [|exact H].
  revert s Hreach.
  apply (reachable_invariant env
           (fun s => errors_have_status s /\ forall k, NoDup (error_list k s))).
  - intros base max now s Hinit. split.
    + apply (reachable_errors_have_status env). by eapply reachable_init.
    + intros k. rewrite (init_error_list _ _ _ _ _ k Hinit). constructor.
  - intros s1 s2 _ [He1 Hdup1] Hstep. split.
    + by eapply errors_have_status_step.
    + by eapply error_lists_nodup_step.
Qed.

(** ** The links of a page are all visited *)

Lemma for_each_links_visited env fuel depth :
  (forall n, time_sleep env n = None) ->
  forall links s,
    depth < max_depth s ->
    enough_fuel fuel (depth + 1) s ->
    match for_each links (visit_link env fuel depth) s with
    | Done _ s' => grows s s' /\ forall u, u ∈ links -> u ∈ visited_urls s'
    | Raised e _ => e = KeyboardInterrupt
    | OutOfFuel => False
    end.
Proof.
  intros Hsleep links.
  induction links as [|link links IHl]; intros s Hdepth Hfuel.
  - cbn. split; [apply grows_refl|].
    intros u Hu. by apply elem_of_nil in Hu.
  - cbn [for_each]. unfold bind at 1.
    assert (match visit_link env fuel depth link s with
            | Done _ s1 => grows s s1 /\ link ∈ visited_urls s1
            | Raised e _ => e = KeyboardInterrupt
            | OutOfFuel => False
            end) as Hfirst.
    { unfold visit_link, bind, get, sleep.
      case_bool_decide as Hnew.
      - rewrite Hsleep.
        pose proof (crawl_page_fuel_post env fuel link (depth + 1) s Hfuel) as Hpost.
        pose proof (crawl_page_fuel_grows env fuel link (depth + 1) s) as Hgrows.
        destruct (crawl_page_fuel env fuel link (depth + 1) s) as [[] s1|e s1|];
          [| |done].
        + destruct (Hgrows s1 eq_refl) as (G & _ & Hself).
          split; [done|]. apply Hself; [done|lia].
        + by apply Hpost.
      - cbn. split; [apply grows_refl|].
        exact Hnew. }
    destruct (visit_link env fuel depth link s) as [[] s1|e s1|]; [|done|done].
    destruct Hfirst as [G1 Hlink].
    specialize (IHl s1). unfold enough_fuel in *.
    rewrite (grows_max_depth _ _ G1) in IHl. specialize (IHl Hdepth Hfuel).
    destruct (for_each links _ s1) as [[] s2|e s2|]; [|done|done].
    destruct IHl as [G2 Hrest].
    split; [by eapply grows_trans|].
    intros u [->|Hu]%elem_of_cons; [by apply (grows_visited _ _ G2)|by apply Hrest].
Qed.

Lemma crawl_page_links_visited env url depth s text links s' :
  (forall n, time_sleep env n = None) ->
  url ∉ visited_urls s ->
  depth < max_depth s ->
  session_get env (length (session_calls s)) url = Response 200 text ->
  extract_links env s text url = Some links ->
  crawl_page env url depth s = Done tt s' ->
  forall u, u ∈ set_order env (S (length (session_calls s))) links ->
    u ∈ visited_urls s'.
Proof.
  intros Hsleep Hnew Hdepth Hget Hlinks Hout.
  rewrite crawl_page_request in Hout by (done || lia). rewrite Hget in Hout.
  cbn [after_request] in Hout. unfold bind at 1 in Hout.
  rewrite record_response_done in Hout. cbv beta iota in Hout.
  unfold bind, get in Hout. cbv beta iota in Hout.
  rewrite answered_max_depth in Hout.
  replace (depth <? max_depth s) with true in Hout by lia.
  cbn [Z.eqb Pos.eqb andb] in Hout.
  rewrite (extract_links_domain env _ s) in Hout by done.
  rewrite Hlinks, answered_calls in Hout. cbn [length] in Hout.
  set (s2 := exec (record_response url 200) (requested url depth s)) in *.
  pose proof (for_each_links_visited env (Z.to_nat (max_depth s - depth)) depth Hsleep
                (set_order env (S (length (session_calls s))) links) s2) as Hloop.
  unfold enough_fuel, s2 in Hloop. rewrite answered_max_depth in Hloop.
  specialize (Hloop Hdepth ltac:(lia)). fold s2 in Hloop.
  destruct (for_each _ _ s2) as [[] s3|e s3|]; [| |done].
  - simplify_eq. by apply Hloop.
  - subst e. done.
Qed.

(** ** The report *)

Lemma generate_report_lines env end_time is_partial self :
  generate_report env end_time is_partial self
  = Py.join nl (report_lines env end_time is_partial self).
Proof. reflexivity. Qed.

Lemma prefix_app_l x a b :
  String.prefix x a = true -> String.prefix x (a +:+ b) = true.
Proof.
  revert a. induction x as [|c x IH]; intros a; [by destruct a, b|].
  destruct a as [|c' a]; [done|].
  change (String c' a +:+ b) with (String c' (a +:+ b)). cbn [String.prefix].
  destruct (ascii_dec c c'); [apply IH|done].
Qed.

Lemma prefix_refl x : String.prefix x x = true.
Proof. induction x as [|c x IH]; [done|]. cbn. by destruct (ascii_dec c c). Qed.

Lemma contains_refl x : Py.contains x x = true.
Proof. destruct x; cbn [Py.contains]; by rewrite prefix_refl. Qed.

Lemma contains_app_r x a b :
  Py.contains x b = true -> Py.contains x (a +:+ b) = true.
Proof.
  intros Hb. induction a as [|c a IH]; [done|].
  change (String c a +:+ b) with (String c (a +:+ b)). cbn [Py.contains].
  rewrite IH. apply orb_true_r.
Qed.

Lemma contains_app_l x a b :
  Py.contains x a = true -> Py.contains x (a +:+ b) = true.
Proof.
  induction a as [|c a IH]; intros Ha.
  - cbn in Ha. rewrite orb_false_r in Ha. destruct x; [|done]. by destruct b.
  - cbn [Py.contains] in Ha. apply orb_true_iff in Ha as [Ha|Ha].
    + change (String c a +:+ b) with (String c (a +:+ b)). cbn [Py.contains].
      change (String c (a +:+ b)) with (String c a +:+ b).
      by rewrite (prefix_app_l _ _ _ Ha).
    + change (String c a +:+ b) with (String c (a +:+ b)). cbn [Py.contains].
      rewrite (IH Ha). apply orb_true_r.
Qed.

(** a line of the report is found in its text *)
Lemma contains_join sep x l :
  x ∈ l -> Py.contains x (Py.join sep l) = true.
Proof.
  induction l as [|w ws IH]; [by intros ?%elem_of_nil|].
  intros Hx. cbn [Py.join]. apply elem_of_cons in Hx as [->|Hx].
  - destruct ws; [apply contains_refl|]. apply contains_app_l, contains_refl.
  - destruct ws as [|w' ws']; [by apply elem_of_nil in Hx|].
    apply contains_app_r, contains_app_r, IH, Hx.
Qed.

Lemma fold_left_max_ge (values : list Z) v0 :
  v0 <= fold_left Z.max values v0
  /\ forall v, v ∈ values -> v <= fold_left Z.max values v0.
Proof.
  revert v0. induction values as [|w values IH]; intros v0; cbn.
  - split; [lia|]. by intros v ?%elem_of_nil.
  - destruct (IH (Z.max v0 w)) as [H0 Hall]. split; [lia|].
    intros v [->|Hv]%elem_of_cons; [lia|by apply Hall].
Qed.


Lemma max_or_zero_ge values v : v ∈ values -> v <= max_or_zero values.
Proof.
  destruct values as [|w values]; [by intros ?%elem_of_nil|]. cbn.
  destruct (fold_left_max_ge values w) as [H0 Hall].
  intros [->|Hv]%elem_of_cons; [done|by apply Hall].
Qed.


Lemma depth_values self u d :
  url_depth self !! u = Some d -> d ∈ (map_to_list (url_depth self)).*2.
Proof.
  intros Hd. apply list_elem_of_fmap. exists (u, d). split; [done|].
  by apply elem_of_map_to_list.
Qed.

Lemma max_depth_reached_ge self u d :
  url_depth self !! u = Some d -> d <= max_depth_reached self.
Proof. intros Hd. by eapply max_or_zero_ge, depth_values. Qed.


(** a URL recorded at [d] has its line in the group of depth [d] *)
Lemma depth_group_lists self u d :
  url_depth self !! u = Some d -> page_line self u ∈ depth_group self d.
Proof.
  intros Hd. unfold depth_group.
  set (urls := (List.filter _ _).*1).
  assert (u ∈ urls) as Hu.
  { apply list_elem_of_fmap. exists (u, d). split; [done|].
    apply list_elem_of_In, filter_In. split.
    - by apply list_elem_of_In, elem_of_map_to_list.
    - cbn. lia. }
  destruct urls as [|u0 urls'] eqn:E; [by apply elem_of_nil in Hu|].
  apply list_elem_of_further, elem_of_app. left.
  apply list_elem_of_In, in_map_iff. exists u. split; [done|].
  apply list_elem_of_In. by rewrite merge_sort_Permutation.
Qed.

Lemma depth_section_lists self u d :
  url_depth self !! u = Some d -> 0 <= d -> page_line self u ∈ depth_section self.
Proof.
  intros Hd Hpos. unfold depth_section. apply list_elem_of_In, in_concat.
  exists (depth_group self d). split; [|by apply list_elem_of_In, depth_group_lists].
  apply in_map_iff. exists d. split; [done|]. apply list_elem_of_In, elem_of_seqZ.
  case_bool_decide as Hempty.
  - rewrite Hempty in Hd. by rewrite lookup_empty in Hd.
  - pose proof (max_depth_reached_ge self u d Hd). lia.
Qed.

Lemma depth_section_in_report env end_time is_partial self line :
  line ∈ depth_section self -> line ∈ report_lines env end_time is_partial self.
Proof.
  intros Hline. unfold report_lines. cbv zeta.
  repeat (apply elem_of_app; right). exact Hline.
Qed.

Lemma error_section_in_report env end_time is_partial self line :
  line ∈ error_section self -> line ∈ report_lines env end_time is_partial self.
Proof.
  intros Hline. unfold report_lines. cbv zeta.
  do 8 (apply elem_of_app; right). apply elem_of_app. by left.
Qed.

(** ** The status summary *)

Lemma count_values (c : Z) (l : list (string * Z)) :
  length (List.filter (Z.eqb c) l.*2)
  = length (filter (fun entry : string * Z => entry.2 = c) l).
Proof.
  induction l as [|[u v] l IH]; [done|]. cbn [fmap list_fmap List.filter snd].
  rewrite filter_cons. cbn [snd]. destruct (Z.eqb_spec c v) as [->|Hne].
  - rewrite decide_True by done. cbn [length]. by rewrite <- IH.
  - rewrite decide_False by congruence. exact IH.
Qed.

Lemma count_status (c : Z) (m : gmap string Z) :
  length (List.filter (Z.eqb c) (map_to_list m).*2)
  = size (filter (fun entry : string * Z => entry.2 = c) m).
Proof.
  rewrite count_values, map_filter_alt, map_size_list_to_map; [done|].
  eapply sublist_NoDup; [apply (NoDup_fst_map_to_list m)|].
  apply fmap_sublist, sublist_filter.
Qed.

Lemma count_positive (c : Z) (values : list Z) :
  c ∈ values <-> (0 < length (List.filter (Z.eqb c) values))%nat.
Proof.
  induction values as [|v values IH]; cbn [List.filter length].
  - split; [by intros ?%elem_of_nil|lia].
  - destruct (Z.eqb_spec c v) as [->|Hne]; cbn [length].
    + split; [lia|]. intros _. apply list_elem_of_here.
    + rewrite <- IH. split; [|apply list_elem_of_further].
      by intros [?|?]%elem_of_cons.
Qed.

(** a key that occurs once in [keys] is counted once *)
Lemma sum_indicator (v : Z) (keys : list Z) :
  NoDup keys -> v ∈ keys ->
  sum_list (map (fun c => if c =? v then 1%nat else 0%nat) keys) = 1%nat.
Proof.
  induction 1 as [|k keys Hk Hdup IH]; [by intros ?%elem_of_nil|].
  cbn [map sum_list_with id]. intros [->|Hv]%elem_of_cons.
  - rewrite Z.eqb_refl.
    assert (sum_list (map (fun c => if c =? k then 1%nat else 0%nat) keys) = 0%nat)
      as ->; [|done].
    clear IH Hdup. induction keys as [|k' keys IH]; [done|]. cbn [map sum_list_with id].
    apply not_elem_of_cons in Hk as [Hne Hk].
    destruct (Z.eqb_spec k' k); [congruence|]. by rewrite IH.
  - destruct (Z.eqb_spec k v) as [->|_]; [done|]. by rewrite IH.
Qed.

Lemma sum_list_map_add {A} (f g : A -> nat) (l : list A) :
  sum_list (map (fun x => (f x + g x)%nat) l)
  = (sum_list (map f l) + sum_list (map g l))%nat.
Proof. induction l as [|x l IH]; [done|]. cbn [map sum_list_with id]. rewrite IH. lia. Qed.

(** the counts of the distinct values add up to the number of values *)
Lemma sum_counts (keys values : list Z) :
  NoDup keys -> (forall v, v ∈ values -> v ∈ keys) ->
  sum_list (map (fun c => length (List.filter (Z.eqb c) values)) keys)
  = length values.
Proof.
  intros Hdup. induction values as [|v values IH]; intros Hall.
  - cbn [List.filter length]. induction keys as [|k keys IHk]; [done|].
    cbn [map sum_list_with id]. rewrite IHk; [done|by apply NoDup_cons in Hdup as [_ ?]|].
    by intros v ?%elem_of_nil.
  - rewrite (map_ext _ (fun c => ((if (c =? v)%Z then 1 else 0)
                                  + length (List.filter (Z.eqb c) values))%nat)).
    + rewrite sum_list_map_add, sum_indicator, IH; [done| |done|].
      * intros w Hw. by apply Hall, list_elem_of_further.
      * apply Hall, list_elem_of_here.
    + intros c. cbn [List.filter]. by destruct (c =? v).
Qed.

Lemma strictly_sorted (l : list Z) :
  StronglySorted Z.le l -> NoDup l -> StronglySorted Z.lt l.
Proof.
  induction 1 as [|k l Hsorted IH Hle]; intros Hdup; constructor.
  - apply IH. by apply NoDup_cons in Hdup as [_ ?].
  - apply NoDup_cons in Hdup as [Hk _]. apply Forall_forall. intros x Hx.
    assert (k <= x) by (by eapply (proj1 (Forall_forall _ _) Hle)).
    assert (k <> x) by (by intros ->). lia.
Qed.

Lemma status_codes_of_counts self :
  map fst (status_counts self)
  = merge_sort Z.le (remove_dups (map_to_list (url_status self)).*2).
Proof.
  unfold status_counts. cbv zeta. rewrite map_map. cbn [fst]. apply map_id.
Qed.

Lemma status_codes_sorted self :
  StronglySorted Z.lt (map fst (status_counts self)).
Proof.
  rewrite status_codes_of_counts. apply strictly_sorted.
  - apply StronglySorted_merge_sort; [apply _|]. intros x y. lia.
  - rewrite merge_sort_Permutation. apply NoDup_remove_dups.
Qed.

Lemma status_counts_row self c n :
  (c, n) ∈ status_counts self
  <-> n = urls_with_status c self /\ (0 < n)%nat.
Proof.
  unfold status_counts, urls_with_status. cbv zeta.
  rewrite <- count_status. rewrite list_elem_of_In, in_map_iff. split.
  - intros (c' & [= -> <-] & Hin). split; [done|].
    apply count_positive. apply list_elem_of_In in Hin.
    rewrite merge_sort_Permutation in Hin.
    exact (proj1 (elem_of_remove_dups _ _) Hin).
  - intros [-> Hpos]. exists c. split; [done|]. apply list_elem_of_In.
    rewrite merge_sort_Permutation. apply elem_of_remove_dups.
    by apply count_positive.
Qed.

Lemma status_counts_sum self :
  sum_list (map snd (status_counts self)) = size (url_status self).
Proof.
  unfold status_counts. cbv zeta. rewrite map_map. cbn [snd].
  rewrite sum_counts.
  - by rewrite length_fmap, length_map_to_list.
  - rewrite merge_sort_Permutation. apply NoDup_remove_dups.
  - intros v Hv. rewrite merge_sort_Permutation. by apply elem_of_remove_dups.
Qed.

(** ** A crawl from a new crawler, and what the report shows of it *)

Lemma crawl_from_init_depths env base max now s s' :
  init env base max now = Some s ->
  outcome_state (crawl env s) = Some s' ->
  (forall u, u ∈ visited_urls s' ->
     exists d, url_depth s' !! u = Some d /\ 0 <= d <= max_depth s')
  /\ (0 <= max -> url_depth s' !! base_url s = Some 0)
  /\ (max < 0 -> visited_urls s' = ∅).
Proof.
  intros Hinit Hout. unfold crawl in Hout.
  destruct (init_fresh _ _ _ _ _ Hinit) as (Hvis & _ & _ & _ & _ & _ & Hmax).
  destruct (crawl_page_grows env (base_url s) 0 s s' Hout) as (G & N & Hself).
  assert (forall u, u ∉ visited_urls s) as Hfresh.
  { intros u. rewrite Hvis. apply not_elem_of_empty. }
  split; [|split].
  - intros u Hu. destruct (N u Hu (Hfresh u)) as (d & Hd & Hok).
    exists d. split; [done|]. rewrite (grows_max_depth _ _ G).
    destruct Hok as [(_ & -> & ?)|[_ ?]]; lia.
  - intros Hpos. apply Hself; [apply Hfresh|lia].
  - intros Hneg. apply set_eq. intros u. split; [|by intros ?%not_elem_of_empty].
    intros Hu. destruct (N u Hu (Hfresh u)) as (d & _ & [(_ & _ & ?)|[_ ?]]); lia.
Qed.

(** the URLs without a status after a crawl from a new crawler *)
Lemma crawl_from_init_pending env base max now s :
  init env base max now = Some s ->
  match crawl env s with
  | Done _ s' => ledger_ok s' /\ forall u, ~ pending s' u
  | Raised e s' =>
      ledger_ok s' /\ forall u, pending s' u -> head (session_calls s') = Some u
  | OutOfFuel => False
  end.
Proof.
  intros Hinit.
  assert (forall u, ~ pending s u) as Hnone.
  { destruct (init_fresh _ _ _ _ _ Hinit) as (Hvis & _).
    intros u [Hu _]. rewrite Hvis in Hu. by apply not_elem_of_empty in Hu. }
  pose proof (init_ledger_ok _ _ _ _ _ Hinit) as Hok.
  unfold crawl. pose proof (crawl_page_post env (base_url s) 0 s) as Hpost.
  destruct (crawl_page env (base_url s) 0 s) as [[] s'|e s'|]; [| |done].
  - destruct Hpost as [[_ Hmv] Hpend]. split; [by apply Hmv|].
    intros u Hu. by apply (Hnone u), Hpend.
  - destruct Hpost as (_ & _ & [_ Hmv] & Hpend). split; [by apply Hmv|].
    intros u Hu. destruct (Hpend u Hu) as [Hp|[_ Hhead]]; [|done].
    by destruct (Hnone u).
Qed.

(** when every visited URL has a status, there are as many statuses as
    visited URLs *)
Lemma statuses_of_all_visited s :
  ledger_ok s -> (forall u, ~ pending s u) ->
  size (url_status s) = size (visited_urls s).
Proof.
  intros Hok Hnone. rewrite <- (size_dom (D := gset string)). f_equal.
  apply set_eq. intros u. rewrite elem_of_dom. split.
  - apply (status_visited _ Hok).
  - intros Hu. destruct (url_status s !! u) eqn:E; [done|]. by destruct (Hnone u).
Qed.

(** when one visited URL at most lacks a status *)
Lemma statuses_of_all_but_one s :
  ledger_ok s ->
  (forall u, pending s u -> head (session_calls s) = Some u) ->
  (size (url_status s) <= size (visited_urls s) <= size (url_status s) + 1)%nat.
Proof.
  intros Hok Hpend. rewrite <- (size_dom (D := gset string)). split.
  - apply subseteq_size. intros u Hu. apply (status_visited _ Hok).
    by apply elem_of_dom.
  - destruct (head (session_calls s)) as [v|] eqn:Hhead.
    + transitivity (size (dom (url_status s) ∪ ({[v]} : gset string))).
      * apply subseteq_size. intros u Hu. apply elem_of_union.
        destruct (url_status s !! u) eqn:E.
        -- left. by apply elem_of_dom.
        -- right. apply elem_of_singleton.
           assert (Some v = Some u) as [= ->] by (by apply Hpend). done.
      * rewrite size_union_alt.
        assert (size (({[v]} : gset string) ∖ dom (url_status s)) <= 1)%nat; [|lia].
        rewrite <- (size_singleton (C := gset string) v).
        apply subseteq_size. intros u Hu. by apply elem_of_difference in Hu as [? _].
    + transitivity (size (dom (url_status s))); [|lia].
      apply subseteq_size. intros u Hu. apply elem_of_dom.
      destruct (url_status s !! u) eqn:E; [done|].
      assert (None = Some u) by (by apply Hpend). done.
Qed.

(** ** The error section *)

Lemma reachable_failures_are_filed env s :
  http_statuses env -> reachable env s -> failures_are_filed s.
Proof.
  intros Hhttp. revert s.
  apply (reachable_invariant env failures_are_filed).
  - intros base max now s Hinit u c.
    destruct (init_fresh _ _ _ _ _ Hinit) as (_ & -> & _). by rewrite lookup_empty.
  - intros s1 s2 _. by apply failures_are_filed_step.
Qed.

(** a key of [error_urls] has a list that is not empty: the key is made
    by the [append] *)
Lemma reachable_error_keys env s :
  reachable env s -> forall k, error_urls s !! k <> Some [].
Proof.
  revert s. apply (reachable_invariant env (fun s => forall k, error_urls s !! k <> Some [])).
  - intros base max now s Hinit k.
    destruct (init_fresh _ _ _ _ _ Hinit) as (_ & _ & _ & -> & _).
    by rewrite lookup_empty.
  - intros s1 s2 _ Hkeys Hstep k.
    destruct Hstep as [url depth Hnew Hle|url|url c text n Hin Hnone Hget|url Hin Hnone].
    + apply Hkeys.
    + apply Hkeys.
    + rewrite record_response_errors. destruct (c >=? 400); [|apply Hkeys].
      destruct (decide (c = k)) as [->|Hne].
      * rewrite lookup_insert_eq. intros [= Hnil]. by apply app_nil in Hnil as [_ ?].
      * rewrite lookup_insert_ne by done. apply Hkeys.
    + change (error_urls (exec (record_failure url) s1))
        with (<[0 := error_list 0 s1 ++ [url]]> (error_urls s1)).
      destruct (decide (0 = k)) as [<-|Hne].
      * rewrite lookup_insert_eq. intros [= Hnil]. by apply app_nil in Hnil as [_ ?].
      * rewrite lookup_insert_ne by done. apply Hkeys.
Qed.

Lemma error_group_lists s k u :
  u ∈ error_list k s -> ("- " +:+ u) ∈ error_group s k.
Proof.
  intros Hu. unfold error_group. apply list_elem_of_further, elem_of_app. left.
  apply list_elem_of_In, in_map_iff. exists u. split; [done|].
  by apply list_elem_of_In.
Qed.

(** the group of a class that holds a URL is part of the error section *)
Lemma error_section_group s k u line :
  u ∈ error_list k s -> line ∈ error_group s k -> line ∈ error_section s.
Proof.
  intros Hu Hline. unfold error_section. unfold error_list in Hu.
  destruct (error_urls s !! k) as [l|] eqn:Hk; [|by apply elem_of_nil in Hu].
  case_bool_decide as Hempty; [by rewrite Hempty, lookup_empty in Hk|].
  apply list_elem_of_further, list_elem_of_In, in_concat.
  exists (error_group s k). split; [|by apply list_elem_of_In].
  apply in_map_iff. exists k. split; [done|]. apply list_elem_of_In.
  rewrite merge_sort_Permutation. apply list_elem_of_fmap. exists (k, l).
  split; [done|]. by apply elem_of_map_to_list.
Qed.

Lemma error_section_empty env s :
  reachable env s ->
  error_section s = [] <-> forall k, error_list k s = [].
Proof.
  intros Hreach. unfold error_section. case_bool_decide as Hempty.
  - split; [|done]. intros _ k. unfold error_list. by rewrite Hempty, lookup_empty.
  - split; [done|]. intros Hnone. destruct Hempty. apply map_empty. intros k.
    destruct (error_urls s !! k) as [l|] eqn:Hk; [|done].
    specialize (Hnone k). unfold error_list in Hnone. rewrite Hk in Hnone.
    cbn in Hnone. subst l. by destruct (reachable_error_keys env s Hreach k).
Qed.

(** ** [urlparse] on a URL written plainly *)

Lemma remove_chars_none p s :
  Py.all_chars (fun a => negb (p a)) s = true -> Py.remove_chars p s = s.
Proof.
  induction s as [|a s IH]; [done|]. cbn [Py.all_chars Py.remove_chars].
  intros [Ha Hs]%andb_prop. apply negb_true_iff in Ha. by rewrite Ha, IH.
Qed.

Lemma all_chars_app p s1 s2 :
  Py.all_chars p (s1 +:+ s2) = Py.all_chars p s1 && Py.all_chars p s2.
Proof.
  induction s1 as [|a s1 IH]; [done|].
  change (String a s1 +:+ s2) with (String a (s1 +:+ s2)). cbn [Py.all_chars].
  by rewrite IH, andb_assoc.
Qed.

Lemma all_chars_impl (p q : ascii -> bool) s :
  (forall a, p a = true -> q a = true) ->
  Py.all_chars p s = true -> Py.all_chars q s = true.
Proof.
  intros Hpq. induction s as [|a s IH]; [done|]. cbn [Py.all_chars].
  intros [Ha Hs]%andb_prop. by rewrite (Hpq a Ha), IH.
Qed.

(** the run of [q] at the head of [h +:+ rest] is [h] when [rest] does
    not go on with [q] *)
Lemma span_app q h rest :
  Py.all_chars q h = true ->
  match rest with EmptyString => true | String c _ => negb (q c) end = true ->
  Py.span q (h +:+ rest) = (h, rest).
Proof.
  intros Hh Hrest. induction h as [|a h IH].
  - change (EmptyString +:+ rest) with rest.
    destruct rest as [|c rest]; [done|]. cbn [Py.span].
    apply negb_true_iff in Hrest. by rewrite Hrest.
  - change (String a h +:+ rest) with (String a (h +:+ rest)). cbn [Py.span].
    cbn [Py.all_chars] in Hh. apply andb_prop in Hh as [Ha Hh].
    by rewrite Ha, (IH Hh).
Qed.

Lemma partition_no_char c s :
  Py.has_char c s = false -> (Py.partition c s).2 = None.
Proof.
  induction s as [|a s IH]; [done|]. cbn [Py.partition Py.has_char].
  intros [Ha Hs]%orb_false_elim. rewrite Ha.
  specialize (IH Hs). by destruct (Py.partition c s) as [b o].
Qed.

Lemma split_once_none c s :
  Py.has_char c s = false -> Py.split_once c s = (s, EmptyString).
Proof.
  intros Hc. unfold Py.split_once. pose proof (partition_no_char c s Hc) as Hnone.
  destruct (Py.partition c s) as [before [after|]]; [done|done].
Qed.

Lemma plain_host_chars c host :
  plain_host host = true -> host_char c = false -> Py.has_char c host = false.
Proof. intros Hh Hc. by eapply has_char_all_chars. Qed.

Lemma plain_path_chars c path :
  plain_path path = true -> path_char c = false -> Py.has_char c path = false.
Proof.
  intros [_ Hp]%andb_prop Hc. by eapply has_char_all_chars.
Qed.

Lemma urlsplit_plain ip scheme host path :
  scheme = "http" \/ scheme = "https" ->
  plain_host host = true ->
  plain_path path = true ->
  Url.urlsplit ip (scheme +:+ "://" +:+ host +:+ path) EmptyString
  = Some (scheme, host, path, EmptyString, EmptyString).
Proof.
  intros Hscheme Hhost Hpath.
  assert (Py.all_chars (fun a => negb (Url.unsafe_url_byte a)) (host +:+ path) = true)
    as Hsafe.
  { rewrite all_chars_app. apply andb_true_intro. split.
    - eapply all_chars_impl; [|exact Hhost]. unfold host_char.
      by intros a [_ ?]%andb_prop.
    - apply andb_prop in Hpath as [_ Hpath].
      eapply all_chars_impl; [|exact Hpath]. unfold path_char.
      by intros a [_ ?]%andb_prop. }
  assert (Py.span (fun a => negb (Url.netloc_delim a)) (host +:+ path) = (host, path))
    as Hspan.
  { apply span_app.
    - eapply all_chars_impl; [|exact Hhost]. unfold host_char.
      by intros a [[? _]%andb_prop _]%andb_prop.
    - apply andb_prop in Hpath as [Hslash _]. destruct path as [|c path]; [done|].
      apply Ascii.eqb_eq in Hslash as ->. done. }
  assert (Py.has_char "[" host = false) as Hopen by (by apply plain_host_chars).
  assert (Py.has_char "]" host = false) as Hclose by (by apply plain_host_chars).
  assert (Py.split_once "#" path = (path, EmptyString)) as Hfragment.
  { apply split_once_none. by apply plain_path_chars. }
  assert (Py.split_once "?" path = (path, EmptyString)) as Hquery.
  { apply split_once_none. by apply plain_path_chars. }
  assert (forall prefix,
            Py.all_chars (fun a => negb (Url.unsafe_url_byte a)) prefix = true ->
            Py.remove_chars Url.unsafe_url_byte (prefix +:+ host +:+ path)
            = prefix +:+ host +:+ path) as Hprefix.
  { intros prefix Hp. apply remove_chars_none. by rewrite all_chars_app, Hp. }
  assert (forall url, Py.startswith ("//" +:+ url) "//" = true) as Hslashes.
  { intros url. by apply (prefix_app_l "//" "//" url). }
  assert (forall url, Py.drop 2 ("//" +:+ url) = url) as Hdrop by done.
  unfold Url.urlsplit. cbv zeta.
  destruct Hscheme as [-> | ->].
  - assert (Py.lstrip Url.c0_control_or_space ("http" +:+ "://" +:+ host +:+ path)
            = "http://" +:+ host +:+ path) as -> by reflexivity.
    rewrite (Hprefix "http://" eq_refl).
    assert (Py.partition ":" ("http://" +:+ host +:+ path)
            = ("http", Some ("//" +:+ host +:+ path))) as -> by reflexivity.
    assert (Py.isalpha "h" && Py.all_chars Url.scheme_chars "http" = true) as ->
      by reflexivity.
    cbv beta iota. rewrite Hslashes, Hdrop, Hspan. cbv beta iota.
    rewrite Hopen, Hclose. cbn [andb orb negb]. cbv beta iota.
    by rewrite Hfragment, Hquery.
  - assert (Py.lstrip Url.c0_control_or_space ("https" +:+ "://" +:+ host +:+ path)
            = "https://" +:+ host +:+ path) as -> by reflexivity.
    rewrite (Hprefix "https://" eq_refl).
    assert (Py.partition ":" ("https://" +:+ host +:+ path)
            = ("https", Some ("//" +:+ host +:+ path))) as -> by reflexivity.
    assert (Py.isalpha "h" && Py.all_chars Url.scheme_chars "https" = true) as ->
      by reflexivity.
    cbv beta iota. rewrite Hslashes, Hdrop, Hspan. cbv beta iota.
    rewrite Hopen, Hclose. cbn [andb orb negb]. cbv beta iota.
    by rewrite Hfragment, Hquery.
Qed.

Lemma urlparse_plain ip scheme host path :
  scheme = "http" \/ scheme = "https" ->
  plain_host host = true ->
  plain_path path = true ->
  Url.urlparse ip (scheme +:+ "://" +:+ host +:+ path)
  = Some (Url.mkParseResult scheme host path EmptyString EmptyString EmptyString).
Proof.
  intros Hscheme Hhost Hpath. unfold Url.urlparse, Url.urlparse_with.
  rewrite (urlsplit_plain ip scheme host path Hscheme Hhost Hpath).
  rewrite (plain_path_chars ";" path Hpath eq_refl). by rewrite andb_false_r.
Qed.

(** on the URLs of its own site the crawler decides by the path *)
Lemma is_valid_url_plain env self scheme host path :
  scheme = "http" \/ scheme = "https" ->
  plain_host host = true ->
  plain_path path = true ->
  is_valid_url env self (scheme +:+ "://" +:+ host +:+ path)
  = Some (String.eqb host (domain self) && accepted_path path).
Proof.
  intros Hscheme Hhost Hpath. unfold is_valid_url.
  rewrite (urlparse_plain _ scheme host path Hscheme Hhost Hpath).
  cbn [Url.netloc Url.scheme Url.path]. unfold accepted_path.
  destruct (String.eqb host (domain self)); [|done]. cbn [negb andb].
  assert (Py.mem scheme ["http"; "https"] = true) as ->
    by (by destruct Hscheme as [-> | ->]).
  cbn [negb]. destruct (existsb _ skip_extensions); [done|].
  by destruct (existsb _ skip_paths).
Qed.

(** ** [rstrip] *)

Lemma append_assoc s1 s2 s3 : (s1 +:+ s2) +:+ s3 = s1 +:+ (s2 +:+ s3).
Proof.
  induction s1 as [|a s1 IH]; [done|].
  change ((String a s1 +:+ s2) +:+ s3) with (String a ((s1 +:+ s2) +:+ s3)).
  by rewrite IH.
Qed.

Lemma rev_app_append s1 s2 : String.rev_app s1 s2 = String.rev s1 +:+ s2.
Proof.
  unfold String.rev. revert s2. induction s1 as [|a s1 IH]; intros s2; [done|].
  cbn [String.rev_app]. rewrite (IH (String a s2)), (IH (String a EmptyString)).
  by rewrite append_assoc.
Qed.

Lemma rev_cons a s : String.rev (String a s) = String.rev s +:+ String a EmptyString.
Proof. unfold String.rev at 1. cbn [String.rev_app]. apply rev_app_append. Qed.

Lemma append_empty_r s : s +:+ EmptyString = s.
Proof.
  induction s as [|a s IH]; [done|].
  change (String a s +:+ EmptyString) with (String a (s +:+ EmptyString)).
  by rewrite IH.
Qed.

Lemma rev_append s1 s2 : String.rev (s1 +:+ s2) = String.rev s2 +:+ String.rev s1.
Proof.
  induction s1 as [|a s1 IH].
  - change (EmptyString +:+ s2) with s2.
    change (String.rev EmptyString) with EmptyString. by rewrite append_empty_r.
  - change (String a s1 +:+ s2) with (String a (s1 +:+ s2)).
    by rewrite !rev_cons, IH, append_assoc.
Qed.

Lemma rev_involutive s : String.rev (String.rev s) = s.
Proof.
  induction s as [|a s IH]; [done|]. by rewrite rev_cons, rev_append, IH.
Qed.

Lemma all_chars_rev p s : Py.all_chars p (String.rev s) = Py.all_chars p s.
Proof.
  induction s as [|a s IH]; [done|]. rewrite rev_cons, all_chars_app, IH.
  cbn [Py.all_chars]. rewrite andb_true_r. apply andb_comm.
Qed.

(** what [lstrip] takes off, and where it stops *)
Lemma lstrip_spec p s :
  exists k, s = k +:+ Py.lstrip p s
    /\ Py.all_chars p k = true
    /\ match Py.lstrip p s with
       | EmptyString => True
       | String c _ => p c = false
       end.
Proof.
  induction s as [|a s (k & Hs & Hk & Hstop)]; [by exists EmptyString|].
  cbn [Py.lstrip]. destruct (p a) eqn:Ha.
  - exists (String a k). split; [|split; [|done]].
    + change (String a k +:+ Py.lstrip p s) with (String a (k +:+ Py.lstrip p s)).
      by rewrite <- Hs.
    + cbn [Py.all_chars]. by rewrite Ha, Hk.
  - by exists EmptyString.
Qed.

(** [s.rstrip(chars)] gives [s] without the characters of [chars] at its
    end, and ends with none of them *)
Lemma rstrip_spec p s :
  exists k, s = Py.rstrip p s +:+ k
    /\ Py.all_chars p k = true
    /\ forall c, p c = true ->
         Py.endswith (Py.rstrip p s) (String c EmptyString) = false.
Proof.
  unfold Py.rstrip, Py.endswith.
  destruct (lstrip_spec p (String.rev s)) as (k & Hs & Hk & Hstop).
  exists (String.rev k). split; [|split].
  - rewrite <- rev_append, <- Hs. by rewrite rev_involutive.
  - by rewrite all_chars_rev.
  - intros c Hc. rewrite rev_involutive.
    destruct (Py.lstrip p (String.rev s)) as [|c' rest]; [done|].
    change (String.rev (String c EmptyString)) with (String c EmptyString).
    cbn [String.prefix]. destruct (ascii_dec c c') as [->|_]; [congruence|done].
Qed.

(** nothing is taken off a string whose last character stays *)
Lemma rstrip_none p s c :
  p c = false -> Py.rstrip p (s +:+ String c EmptyString) = s +:+ String c EmptyString.
Proof.
  intros Hc. unfold Py.rstrip. rewrite rev_append.
  change (String.rev (String c EmptyString) +:+ String.rev s)
    with (String c (String.rev s)).
  cbn [Py.lstrip]. rewrite Hc.
  change (String c (String.rev s))
    with (String.rev (String c EmptyString) +:+ String.rev s).
  by rewrite <- rev_append, rev_involutive.
Qed.

Lemma string_last s :
  s <> EmptyString -> exists s' c, s = s' +:+ String c EmptyString.
Proof.
  induction s as [|a s IH]; [done|]. intros _. destruct s as [|b s].
  - by exists EmptyString, a.
  - destruct IH as (s' & c & Hs); [done|]. exists (String a s'), c.
    change (String a s' +:+ String c EmptyString)
      with (String a (s' +:+ String c EmptyString)).
    by rewrite <- Hs.
Qed.

(** ** A crawler for a URL written plainly *)

Lemma init_plain env scheme host path max now :
  scheme = "http" \/ scheme = "https" ->
  plain_host host = true ->
  plain_path path = true ->
  exists s,
    init env (scheme +:+ "://" +:+ host +:+ path) max now = Some s
    /\ domain s = host
    /\ base_url s = Py.rstrip (Ascii.eqb "/") (scheme +:+ "://" +:+ host +:+ path).
Proof.
  intros Hscheme Hhost Hpath. unfold init.
  rewrite (urlparse_plain _ scheme host path Hscheme Hhost Hpath). eauto.
Qed.

Lemma plain_path_empty : plain_path EmptyString = true.
Proof. reflexivity. Qed.



Lemma rstrip_bare_host host :
  plain_host host = true -> host <> EmptyString ->
  Py.rstrip (Ascii.eqb "/") ("https://" +:+ host) = "https://" +:+ host.
Proof.
  intros Hhost Hne. destruct (string_last host Hne) as (h & c & ->).
  rewrite <- append_assoc. apply rstrip_none.
  unfold plain_host in Hhost. rewrite all_chars_app in Hhost.
  apply andb_prop in Hhost as [_ Hc]. cbn [Py.all_chars] in Hc.
  rewrite andb_true_r in Hc. unfold host_char in Hc.
  apply andb_prop in Hc as [[Hdelim _]%andb_prop _].
  apply negb_true_iff in Hdelim. destruct (Ascii.eqb_spec "/" c) as [<-|]; [|done].
  done.
Qed.

(** ** Every visited URL is requested *)

Lemma for_each_links_requested env fuel depth :
  (forall link s s',
     visits_requested s ->
     outcome_state (crawl_page_fuel env fuel link (depth + 1) s) = Some s' ->
     visits_requested s') ->
  forall links s s',
    visits_requested s ->
    outcome_state (for_each links (visit_link env fuel depth) s) = Some s' ->
    visits_requested s'.
Proof.
  intros IH links. induction links as [|link links IHl]; intros s s' Hs Hout.
  - cbn in Hout. by simplify_eq.
  - cbn [for_each] in Hout. unfold bind at 1 in Hout.
    assert (forall s1, outcome_state (visit_link env fuel depth link s) = Some s1 ->
              visits_requested s1) as Hfirst.
    { unfold visit_link, bind, get, sleep. case_bool_decide as Hnew.
      - destruct (time_sleep env _) as [e|].
        + cbn. by intros s1 [= <-].
        + intros s1 Hs1. by eapply IH.
      - cbn. by intros s1 [= <-]. }
    destruct (visit_link env fuel depth link s) as [[] s1|e s1|]; [| |done].
    + eapply IHl; [|exact Hout]. by apply Hfirst.
    + cbn in Hout. simplify_eq. by apply Hfirst.
Qed.

Lemma requested_visits_requested url depth s :
  visits_requested s -> visits_requested (requested url depth s).
Proof.
  intros Hs u Hu.
  change (u ∈ visited_urls s ∪ {[url]}) in Hu.
  change (u ∈ url :: session_calls s).
  apply elem_of_union in Hu as [Hu|Hu].
  - apply list_elem_of_further. by apply Hs.
  - apply elem_of_singleton in Hu as ->. apply list_elem_of_here.
Qed.

Lemma crawl_page_fuel_requested env fuel :
  forall url depth s s',
    visits_requested s ->
    outcome_state (crawl_page_fuel env fuel url depth s) = Some s' ->
    visits_requested s'.
Proof.
  induction fuel as [|fuel IH]; intros url depth s s' Hs;
    rewrite crawl_page_fuel_unfold;
    destruct ((depth >? max_depth s) || bool_decide (url ∈ visited_urls s));
    try (by intros [= <-]).
  pose proof (requested_visits_requested url depth s Hs) as Hreq.
  destruct (session_get env _ url) as [status_code text|e]; cbn [after_request].
  - unfold bind at 1. rewrite record_response_done. cbv beta iota.
    unfold bind, get. cbv beta iota.
    set (s2 := exec (record_response url status_code) (requested url depth s)).
    assert (visits_requested s2) as Hs2.
    { intros u. unfold s2. rewrite record_response_visited, record_response_calls.
      apply Hreq. }
    destruct (andb _ _); [|by intros [= <-]].
    destruct (extract_links env s2 text url) as [links|]; [|by intros [= <-]].
    pose proof (for_each_links_requested env fuel depth
                  (fun link s s' => IH link (depth + 1) s s')
                  (set_order env (length (session_calls s2)) links) s2) as Hloop.
    destruct (for_each _ _ s2) as [[] s3|e s3|]; [| |done].
    + intros [= <-]. by apply Hloop.
    + destruct (is_Exception e); intros [= <-]; by apply Hloop.
  - destruct (is_Exception e); cbn; intros [= <-]; exact Hreq.
Qed.

Lemma reachable_visits_requested env s : reachable env s -> visits_requested s.
Proof.
  induction 1 as [base max now s Hinit|s url depth s' _ IH Hout].
  - destruct (init_fresh _ _ _ _ _ Hinit) as (Hvis & _).
    intros u Hu. rewrite Hvis in Hu. by apply not_elem_of_empty in Hu.
  - by eapply crawl_page_fuel_requested.
Qed.

(** ** A link to the home page *)

Lemma rstrip_strip p s c :
  p c = true -> Py.rstrip p (s +:+ String c EmptyString) = Py.rstrip p s.
Proof.
  intros Hc. unfold Py.rstrip. rewrite rev_append.
  change (String.rev (String c EmptyString) +:+ String.rev s)
    with (String c (String.rev s)).
  cbn [Py.lstrip]. by rewrite Hc.
Qed.

Lemma urljoin_root ip host :
  plain_host host = true ->
  Url.urljoin ip ("https://" +:+ host) "/" = Some ("https://" +:+ host +:+ "/").
Proof.
  intros Hhost. unfold Url.urljoin.
  change (Py.nonempty ("https://" +:+ host)) with true.
  change (Py.nonempty "/") with true. cbn [negb].
  pose proof (urlparse_plain ip "https" host EmptyString (or_intror eq_refl) Hhost
                plain_path_empty) as Hbase.
  change ("https" +:+ "://" +:+ host +:+ EmptyString)
    with ("https://" +:+ (host +:+ EmptyString)) in Hbase.
  rewrite append_empty_r in Hbase. unfold Url.urlparse in Hbase. rewrite Hbase.
  cbn [Url.scheme Url.netloc Url.path Url.params Url.query Url.fragment].
  assert (Url.urlparse_with ip "/" "https"
          = Some (Url.mkParseResult "https" EmptyString "/" EmptyString EmptyString
                    EmptyString)) as -> by reflexivity.
  cbn [Url.scheme Url.netloc Url.path Url.params Url.query Url.fragment].
  change (negb ("https" =? "https")%string || negb (Py.mem "https" Url.uses_relative))
    with false.
  change (Py.mem "https" Url.uses_netloc) with true.
  change (Py.nonempty EmptyString) with false.
  change (Py.nonempty "/") with true.
  cbn [andb negb].
  change (Py.startswith "/" "/") with true.
  cbv zeta.
  change (Py.split "/" "/") with [EmptyString; EmptyString].
  change (Url.resolve [EmptyString; EmptyString] []) with [EmptyString; EmptyString].
  cbn [last String.eqb orb]. 
  change (Py.join "/" [EmptyString; EmptyString]) with "/".
  change (Py.nonempty "/") with true. cbv iota.
  unfold Url.urlunparse, Url.urlunsplit.
  change (Py.nonempty EmptyString) with false. cbv iota zeta.
  change (Py.nonempty "https" && Py.mem "https" Url.uses_netloc
          && negb (Py.startswith "/" "//")) with true.
  rewrite orb_true_r.
  change (Py.nonempty "/" && negb (Py.startswith "/" "/")) with false.
  change (Py.nonempty "https") with true. cbv iota.
  change (Py.nonempty EmptyString) with false. cbv iota. done.
Qed.

Lemma extract_link_root env s host :
  plain_host host = true ->
  domain s = host ->
  extract_link env s ("https://" +:+ host) "/"
  = Some (Some ("https://" +:+ host +:+ "/")).
Proof.
  intros Hhost Hdomain. unfold extract_link. rewrite (urljoin_root _ host Hhost).
  pose proof (urlparse_plain (ip_address env) "https" host "/" (or_intror eq_refl)
                Hhost eq_refl) as Hparse.
  change ("https" +:+ "://" +:+ host +:+ "/") with ("https://" +:+ host +:+ "/")
    in Hparse.
  rewrite Hparse. unfold clean_url. cbn [Url.scheme Url.netloc Url.path].
  rewrite (is_valid_url_plain env s "https" host "/" (or_intror eq_refl) Hhost eq_refl).
  rewrite Hdomain, String.eqb_refl. done.
Qed.

Lemma init_with_slash env host max now :
  plain_host host = true -> host <> EmptyString ->
  exists s,
    init env ("https://" +:+ host +:+ "/") max now = Some s
    /\ base_url s = "https://" +:+ host
    /\ domain s = host.
Proof.
  intros Hhost Hne.
  destruct (init_plain env "https" host "/" max now) as (s & Hinit & Hdom & Hbase);
    [by right|done|done|].
  change ("https" +:+ "://" +:+ host +:+ "/") with ("https://" +:+ host +:+ "/")
    in Hinit, Hbase.
  exists s. split; [done|]. split; [|done]. rewrite Hbase.
  rewrite <- append_assoc. rewrite rstrip_strip by done.
  by apply rstrip_bare_host.
Qed.

Lemma append_slash_differs s : s <> s +:+ "/".
Proof.
  induction s as [|a s IH]; [done|].
  change (String a s +:+ "/") with (String a (s +:+ "/")). by intros [= ?].
Qed.

(** ** The matches of the pattern *)

Lemma prefix_drop p s :
  String.prefix p s = true -> s = p +:+ Py.drop (String.length p) s.
Proof.
  revert s. induction p as [|c p IH]; intros s; [done|].
  destruct s as [|c' s]; [done|]. cbn [String.prefix String.length Py.drop].
  destruct (ascii_dec c c') as [->|]; [|done]. intros Hp.
  change (String c' p +:+ Py.drop (String.length p) s)
    with (String c' (p +:+ Py.drop (String.length p) s)).
  by rewrite <- (IH s Hp).
Qed.

Lemma span_spec p s :
  s = (Py.span p s).1 +:+ (Py.span p s).2
  /\ Py.all_chars p (Py.span p s).1 = true.
Proof.
  induction s as [|a s [Hs Hrun]]; [done|]. cbn [Py.span].
  destruct (p a) eqn:Ha; [|done].
  destruct (Py.span p s) as [run rest]. cbn [fst snd] in *.
  change (String a run +:+ rest) with (String a (run +:+ rest)).
  rewrite <- Hs. split; [done|]. cbn [Py.all_chars]. by rewrite Ha, Hrun.
Qed.

(** the rest after a run starts with a character that ends the run *)
Lemma span_stops p s c rest :
  (Py.span p s).2 = String c rest -> p c = false.
Proof.
  induction s as [|a s IH]; [done|]. cbn [Py.span].
  destruct (p a) eqn:Ha.
  - destruct (Py.span p s) as [run r]. cbn [snd] in *. exact IH.
  - cbn [snd]. by intros [= <- _].
Qed.

Lemma match_href_spec s group len :
  Url.match_href s = Some (group, len) ->
  group <> EmptyString
  /\ Py.all_chars (fun a => negb (Url.is_quote a)) group = true
  /\ exists q q' after,
       Url.is_quote q = true /\ Url.is_quote q' = true
       /\ s = "href=" +:+ String q group +:+ String q' after.
Proof.
  unfold Url.match_href. destruct (Py.startswith s "href=") eqn:Hstart; [|done].
  apply prefix_drop in Hstart. change (String.length "href=") with 5%nat in Hstart.
  destruct (Py.drop 5 s) as [|q s1]; [done|].
  destruct (Url.is_quote q) eqn:Hq; [|done].
  pose proof (span_spec (fun a => negb (Url.is_quote a)) s1) as [Hs1 Hrun].
  pose proof (span_stops (fun a => negb (Url.is_quote a)) s1) as Hstop.
  destruct (Py.span _ s1) as [run rest]. cbn [fst snd] in *.
  destruct run as [|c run]; [done|]. destruct rest as [|q' after]; [done|].
  intros [= <- _]. split; [done|]. split; [done|].
  exists q, q', after. split; [done|]. split.
  - specialize (Hstop q' after eq_refl). by apply negb_false_iff in Hstop.
  - by rewrite Hstart, Hs1.
Qed.

Lemma findall_from_spec s :
  forall skip href,
    href ∈ Url.findall_from skip s ->
    href <> EmptyString
    /\ Py.all_chars (fun a => negb (Url.is_quote a)) href = true
    /\ exists before q q' after,
         Url.is_quote q = true /\ Url.is_quote q' = true
         /\ s = before +:+ "href=" +:+ String q href +:+ String q' after.
Proof.
  induction s as [|a s IH]; intros skip href; [by intros ?%elem_of_nil|].
  assert (forall k, href ∈ Url.findall_from k s ->
            href <> EmptyString
            /\ Py.all_chars (fun a => negb (Url.is_quote a)) href = true
            /\ exists before q q' after,
                 Url.is_quote q = true /\ Url.is_quote q' = true
                 /\ String a s = before +:+ "href=" +:+ String q href
                                 +:+ String q' after) as Htail.
  { intros k Hin.
    destruct (IH k href Hin) as (Hne & Hchars & before & q & q' & after & Hq & Hq' & ->).
    split; [done|]. split; [done|]. by exists (String a before), q, q', after. }
  cbn [Url.findall_from]. destruct skip as [|skip]; [|apply Htail].
  destruct (Url.match_href (String a s)) as [[group len]|] eqn:Hmatch; [|apply Htail].
  intros [->|Hin]%elem_of_cons; [|by eapply Htail].
  destruct (match_href_spec _ _ _ Hmatch)
    as (Hne & Hchars & q & q' & after & Hq & Hq' & Hs).
  split; [done|]. split; [done|]. by exists EmptyString, q, q', after.
Qed.

Lemma findall_href_none text :
  Py.contains "href=" text = false -> Url.findall_href text = [].
Proof.
  intros Hnone. destruct (Url.findall_href text) as [|href matches] eqn:E; [done|].
  destruct (findall_from_spec text 0 href) as (_ & _ & before & q & q' & after & _ & _ & Ht).
  { unfold Url.findall_href in E. rewrite E. apply list_elem_of_here. }
  rewrite Ht in Hnone. rewrite contains_app_r in Hnone; [done|].
  by apply (contains_app_l "href=" "href=").
Qed.

(** ** The listing by depth *)

Lemma depth_group_urls self depth :
  depth_group self depth
  = match urls_at_depth self depth with
    | [] => []
    | _ :: _ =>
        ("### Depth " +:+ Py.str depth +:+ " ("
         +:+ Py.str (Z.of_nat (length (urls_at_depth self depth))) +:+ " pages)" +:+ nl)
        :: map (page_line self) (merge_sort String.le (urls_at_depth self depth))
        ++ [EmptyString]
    end.
Proof. reflexivity. Qed.

Lemma depth_section_groups self :
  depth_section self = concat (map (depth_group self) (listed_depths self)).
Proof. reflexivity. Qed.

Lemma urls_at_depth_spec self depth u :
  u ∈ urls_at_depth self depth <-> url_depth self !! u = Some depth.
Proof.
  unfold urls_at_depth. rewrite list_elem_of_fmap. split.
  - intros ([u' d] & -> & Hin). apply list_elem_of_In, filter_In in Hin as [Hin Hd].
    apply list_elem_of_In, elem_of_map_to_list in Hin. cbn in *.
    by replace depth with d by lia.
  - intros Hd. exists (u, depth). split; [done|].
    apply list_elem_of_In, filter_In. split.
    + by apply list_elem_of_In, elem_of_map_to_list.
    + cbn. lia.
Qed.

Lemma filter_sublist {A} (f : A -> bool) (l : list A) : List.filter f l `sublist_of` l.
Proof.
  induction l as [|x l IH]; [constructor|]. cbn [List.filter].
  destruct (f x); by constructor.
Qed.

Lemma urls_at_depth_nodup self depth : NoDup (urls_at_depth self depth).
Proof.
  unfold urls_at_depth.
  eapply sublist_NoDup; [apply (NoDup_fst_map_to_list (url_depth self))|].
  apply fmap_sublist, filter_sublist.
Qed.

Lemma urls_at_depth_length self depth :
  length (urls_at_depth self depth)
  = length (List.filter (Z.eqb depth) (map_to_list (url_depth self)).*2).
Proof.
  unfold urls_at_depth. rewrite length_fmap.
  induction (map_to_list (url_depth self)) as [|[u d] l IH]; [done|].
  cbn [fmap list_fmap List.filter snd]. rewrite (Z.eqb_sym depth d).
  destruct (d =? depth); cbn [length]; by rewrite IH.
Qed.

(** when every recorded depth is 0 or more, the groups hold as many URLs
    as there are recorded depths *)
Lemma urls_at_depth_sum self :
  (forall u d, url_depth self !! u = Some d -> 0 <= d) ->
  sum_list (map (fun d => length (urls_at_depth self d)) (listed_depths self))
  = size (url_depth self).
Proof.
  intros Hpos.
  rewrite (map_ext _ (fun d => length (List.filter (Z.eqb d)
                                         (map_to_list (url_depth self)).*2)))
    by apply urls_at_depth_length.
  rewrite sum_counts.
  - by rewrite length_fmap, length_map_to_list.
  - apply NoDup_seqZ.
  - intros d ([u d'] & -> & Hin)%list_elem_of_fmap.
    apply elem_of_map_to_list in Hin. cbn [snd].
    apply elem_of_seqZ. case_bool_decide as Hempty.
    + by rewrite Hempty, lookup_empty in Hin.
    + pose proof (max_depth_reached_ge self u d' Hin).
      pose proof (Hpos u d' Hin). lia.
Qed.

Lemma reachable_depth_keys env s :
  reachable env s -> dom (url_depth s) = visited_urls s.
Proof.
  intros Hreach. apply set_eq. intros u. rewrite elem_of_dom. split.
  - apply (depth_visited _ (reachable_ledger_ok env s Hreach)).
  - revert u. revert s Hreach.
    apply (reachable_invariant env
             (fun s => forall u, u ∈ visited_urls s -> is_Some (url_depth s !! u))).
    + intros base max now s Hinit u.
      destruct (init_fresh _ _ _ _ _ Hinit) as (-> & _). by intros ?%not_elem_of_empty.
    + intros s1 s2 _. apply depth_of_visited_step.
Qed.

(** ** Cleaning a clean URL

    What [urlsplit] guarantees of the parts it returns, and what it does
    with a URL put together from such parts. *)

Lemma remove_chars_absent p c s :
  p c = true -> Py.has_char c (Py.remove_chars p s) = false.
Proof.
  intros Hc. induction s as [|a s IH]; [done|]. cbn [Py.remove_chars].
  destruct (p a) eqn:Ha; [done|]. cbn [Py.has_char]. rewrite IH, orb_false_r.
  apply Ascii.eqb_neq. intros ->. congruence.
Qed.

Lemma remove_chars_safe s :
  (forall c, Url.unsafe_url_byte c = true -> Py.has_char c s = false) ->
  Py.remove_chars Url.unsafe_url_byte s = s.
Proof.
  intros Hsafe. apply remove_chars_none.
  induction s as [|a s IH]; [done|]. cbn [Py.all_chars].
  rewrite IH.
  - rewrite andb_true_r. destruct (Url.unsafe_url_byte a) eqn:Ha; [|done].
    specialize (Hsafe a Ha). cbn [Py.has_char] in Hsafe.
    by rewrite Ascii.eqb_refl in Hsafe.
  - intros c Hc. specialize (Hsafe c Hc). cbn [Py.has_char] in Hsafe.
    by apply orb_false_elim in Hsafe as [_ ?].
Qed.

Lemma has_char_partition_after c d s after :
  Py.has_char d s = false -> (Py.partition c s).2 = Some after ->
  Py.has_char d after = false.
Proof.
  revert after. induction s as [|a s IH]; intros after; [done|].
  cbn [Py.partition Py.has_char]. intros [Ha Hs]%orb_false_elim.
  destruct (Ascii.eqb a c); [by intros [= <-]|].
  destruct (Py.partition c s) as [b o]. cbn [snd] in *. by apply IH.
Qed.

Lemma has_char_span_within q d s :
  Py.has_char d s = false ->
  Py.has_char d (Py.span q s).1 = false /\ Py.has_char d (Py.span q s).2 = false.
Proof.
  induction s as [|a s IH]; [done|]. cbn [Py.span Py.has_char].
  intros [Ha Hs]%orb_false_elim. destruct (q a).
  - destruct (IH Hs) as [H1 H2]. destruct (Py.span q s) as [run rest].
    cbn [fst snd Py.has_char] in *. by rewrite Ha, H1.
  - cbn [fst snd Py.has_char]. by rewrite Ha, Hs.
Qed.

Lemma has_char_drop d n s :
  Py.has_char d s = false -> Py.has_char d (Py.drop n s) = false.
Proof.
  revert s. induction n as [|n IH]; intros s; [done|].
  destruct s as [|a s]; [done|]. cbn [Py.drop Py.has_char].
  intros [_ Hs]%orb_false_elim. by apply IH.
Qed.

Lemma has_char_lower_same c s :
  (forall a, Ascii.eqb (Py.lower_char a) c = Ascii.eqb a c) ->
  Py.has_char c (Py.lower s) = Py.has_char c s.
Proof.
  intros Hc. induction s as [|a s IH]; [done|]. cbn [Py.lower Py.has_char].
  by rewrite IH, Hc.
Qed.

Lemma unsafe_url_bytes c :
  Url.unsafe_url_byte c = true -> c = "009"%char \/ c = "013"%char \/ c = "010"%char.
Proof. destruct c as [[] [] [] [] [] [] [] []]; cbn; intros; try done; auto. Qed.

Lemma lower_char_unsafe c a :
  Url.unsafe_url_byte c = true ->
  Ascii.eqb (Py.lower_char a) c = Ascii.eqb a c.
Proof.
  intros [-> | [-> | ->]]%unsafe_url_bytes;
    by destruct a as [[] [] [] [] [] [] [] []].
Qed.

Lemma lower_char_idempotent a : Py.lower_char (Py.lower_char a) = Py.lower_char a.
Proof. by destruct a as [[] [] [] [] [] [] [] []]. Qed.

Lemma lower_char_alpha a : Py.isalpha (Py.lower_char a) = Py.isalpha a.
Proof. by destruct a as [[] [] [] [] [] [] [] []]. Qed.

Lemma lower_char_scheme a : Url.scheme_chars (Py.lower_char a) = Url.scheme_chars a.
Proof. by destruct a as [[] [] [] [] [] [] [] []]. Qed.

Lemma lower_idempotent s : Py.lower (Py.lower s) = Py.lower s.
Proof.
  induction s as [|a s IH]; [done|]. cbn [Py.lower].
  by rewrite lower_char_idempotent, IH.
Qed.

Lemma lower_scheme_chars s :
  Py.all_chars Url.scheme_chars (Py.lower s) = Py.all_chars Url.scheme_chars s.
Proof.
  induction s as [|a s IH]; [done|]. cbn [Py.lower Py.all_chars].
  by rewrite lower_char_scheme, IH.
Qed.

Lemma urlsplit_shape ip url sc nl p q f :
  Url.urlsplit ip url EmptyString = Some (sc, nl, p, q, f) ->
  split_scheme sc
  /\ (forall c, Url.unsafe_url_byte c = true ->
        Py.has_char c sc = false /\ Py.has_char c nl = false
        /\ Py.has_char c p = false)
  /\ Py.all_chars (fun a => negb (Url.netloc_delim a)) nl = true.
Proof.
  unfold Url.urlsplit.
  set (url1 := Py.remove_chars _ (Py.lstrip _ url)).
  change (Py.remove_chars Url.unsafe_url_byte
            (Py.strip Url.c0_control_or_space EmptyString)) with EmptyString.
  assert (forall c, Url.unsafe_url_byte c = true -> Py.has_char c url1 = false)
    as Hsafe1 by (intros c Hc; by apply remove_chars_absent).
  set (scheme_url :=
         match Py.partition ":" url1 with
         | (String c0 _ as before, Some after) =>
             if Py.isalpha c0 && Py.all_chars Url.scheme_chars before
             then (Py.lower before, after) else (EmptyString, url1)
         | _ => (EmptyString, url1)
         end).
  assert (split_scheme scheme_url.1
          /\ forall c, Url.unsafe_url_byte c = true ->
               Py.has_char c scheme_url.1 = false
               /\ Py.has_char c scheme_url.2 = false) as [Hscheme Hsafe2].
  { unfold scheme_url.
    pose proof (fun c => has_char_partition_within ":" c url1) as Hbefore.
    pose proof (fun c => has_char_partition_after ":" c url1) as Hafter.
    destruct (Py.partition ":" url1) as [[|c0 before] [after|]];
      try (split; [by left|intros c Hc; split; [done|by apply Hsafe1]]).
    destruct (Py.isalpha c0 && Py.all_chars Url.scheme_chars (String c0 before))
      eqn:E; [|split; [by left|intros c Hc; split; [done|by apply Hsafe1]]].
    apply andb_prop in E as [Halpha Hchars]. cbn [fst snd] in *. split.
    - right. split; [|split].
      + cbn [Py.lower]. by rewrite lower_char_alpha.
      + by rewrite lower_scheme_chars.
      + apply lower_idempotent.
    - intros c Hc. split.
      + rewrite has_char_lower_same by (intros a; by apply lower_char_unsafe).
        apply Hbefore. by apply Hsafe1.
      + apply (Hafter c after); [by apply Hsafe1|done]. }
  destruct scheme_url as [scheme2 url2]. cbn [fst snd] in Hscheme, Hsafe2.
  destruct (Py.startswith url2 "//").
  - pose proof (fun c => has_char_span_within (fun a => negb (Url.netloc_delim a)) c
                           (Py.drop 2 url2)) as Hspan.
    pose proof (span_spec (fun a => negb (Url.netloc_delim a)) (Py.drop 2 url2))
      as [_ Hrun].
    destruct (Py.span _ (Py.drop 2 url2)) as [netloc url3]. cbn [fst snd] in *.
    destruct (_ || _); [done|]. destruct (_ && _); [done|].
    pose proof (fun c => has_char_split_once "#" c url3) as Hfrag.
    destruct (Py.split_once "#" url3) as [url4 fragment].
    pose proof (fun c => has_char_split_once "?" c url4) as Hquery.
    destruct (Py.split_once "?" url4) as [url5 query].
    intros [= <- <- <- <- <-]. cbn [fst] in *.
    split; [done|]. split; [|done]. intros c Hc.
    destruct (Hsafe2 c Hc) as [Hsc Hurl2].
    destruct (Hspan c (has_char_drop c 2 url2 Hurl2)) as [Hnl Hurl3].
    split; [done|]. split; [done|]. apply Hquery. right. apply Hfrag. by right.
  - pose proof (fun c => has_char_split_once "#" c url2) as Hfrag.
    destruct (Py.split_once "#" url2) as [url4 fragment].
    pose proof (fun c => has_char_split_once "?" c url4) as Hquery.
    destruct (Py.split_once "?" url4) as [url5 query].
    intros [= <- <- <- <- <-]. cbn [fst] in *.
    split; [done|]. split; [|done]. intros c Hc.
    destruct (Hsafe2 c Hc) as [Hsc Hurl2].
    split; [done|]. split; [done|]. apply Hquery. right. apply Hfrag. by right.
Qed.

Lemma length_append s1 s2 :
  String.length (s1 +:+ s2) = (String.length s1 + String.length s2)%nat.
Proof.
  induction s1 as [|a s1 IH]; [done|].
  change (String a s1 +:+ s2) with (String a (s1 +:+ s2)). cbn [String.length].
  by rewrite IH.
Qed.

Lemma substring_prefix s1 s2 :
  String.substring 0 (String.length s1) (s1 +:+ s2) = s1.
Proof.
  induction s1 as [|a s1 IH]; [by destruct s2|].
  change (String a s1 +:+ s2) with (String a (s1 +:+ s2)).
  cbn [String.length String.substring]. by rewrite IH.
Qed.

Lemma after_last_no_char c s : Py.has_char c (Py.after_last c s) = false.
Proof.
  induction s as [|a s IH]; [done|]. cbn [Py.after_last].
  destruct (Py.has_char c s) eqn:Hs; [done|].
  destruct (Ascii.eqb a c) eqn:Ha; [done|]. cbn [Py.has_char]. by rewrite Ha, Hs.
Qed.

(** a string that holds [c] ends with [c] and what comes after the last [c] *)
Lemma after_last_decompose c s :
  Py.has_char c s = true -> exists h, s = h +:+ String c (Py.after_last c s).
Proof.
  induction s as [|a s IH]; [done|]. cbn [Py.has_char Py.after_last].
  destruct (Py.has_char c s) eqn:Hs.
  - intros _. destruct (IH eq_refl) as (h & Heq). exists (String a h).
    change (String a h +:+ String c (Py.after_last c s))
      with (String a (h +:+ String c (Py.after_last c s))).
    by rewrite <- Heq.
  - rewrite orb_false_r. intros Ha. rewrite Ha. apply Ascii.eqb_eq in Ha as ->.
    by exists EmptyString.
Qed.

Lemma after_last_app c s1 s2 :
  Py.has_char c s2 = true -> Py.after_last c (s1 +:+ s2) = Py.after_last c s2.
Proof.
  intros Hs2. induction s1 as [|a s1 IH]; [done|].
  change (String a s1 +:+ s2) with (String a (s1 +:+ s2)). cbn [Py.after_last].
  by rewrite has_char_app, Hs2, orb_true_r.
Qed.

Lemma after_last_end c h b :
  Py.has_char c b = false -> Py.after_last c (h +:+ String c b) = b.
Proof.
  intros Hb. rewrite after_last_app.
  - cbn [Py.after_last]. by rewrite Hb, Ascii.eqb_refl.
  - cbn [Py.has_char]. by rewrite Ascii.eqb_refl.
Qed.

Lemma partition_absent c s :
  (Py.partition c s).2 = None -> Py.has_char c s = false.
Proof.
  induction s as [|a s IH]; [done|]. cbn [Py.partition Py.has_char].
  destruct (Ascii.eqb a c); [done|].
  destruct (Py.partition c s) as [b o]. cbn [snd] in *. exact IH.
Qed.

Lemma substring_head h c t :
  String.substring 0 (String.length (h +:+ String c t) - String.length t)
    (h +:+ String c t)
  = h +:+ String c EmptyString.
Proof.
  change (h +:+ String c t) with (h +:+ (String c EmptyString +:+ t)).
  rewrite <- append_assoc.
  replace (String.length ((h +:+ String c EmptyString) +:+ t) - String.length t)%nat
    with (String.length (h +:+ String c EmptyString)); [apply substring_prefix|].
  rewrite (length_append (h +:+ String c EmptyString) t). lia.
Qed.

(** after [_splitparams] the last segment of the path holds no [;] *)
Lemma splitparams_tail url :
  Py.has_char ";" (Py.after_last "/" (Url.splitparams url).1) = false.
Proof.
  unfold Url.splitparams. destruct (Py.has_char "/" url) eqn:Hslash.
  - destruct (after_last_decompose "/" url Hslash) as (h & Hurl).
    pose proof (after_last_no_char "/" url) as Hno_slash.
    remember (Py.after_last "/" url) as tail eqn:Htail. clear Htail Hslash.
    subst url. rewrite substring_head.
    pose proof (has_char_partition_before ";" tail) as Hbefore.
    pose proof (has_char_partition_within ";" "/" tail Hno_slash) as Hwithin.
    pose proof (partition_absent ";" tail) as Hnone.
    destruct (Py.partition ";" tail) as [before [after|]]; cbn [fst snd] in *.
    + rewrite append_assoc. change ("/" +:+ before) with (String "/" before).
      by rewrite after_last_end.
    + rewrite after_last_end by done. by apply Hnone.
  - apply has_char_after_last. apply has_char_split_once. by left.
Qed.

Lemma partition_app c s1 s2 :
  Py.has_char c s1 = false ->
  Py.partition c (s1 +:+ String c s2) = (s1, Some s2).
Proof.
  induction s1 as [|a s1 IH].
  - intros _. change (EmptyString +:+ String c s2) with (String c s2).
    cbn [Py.partition]. by rewrite Ascii.eqb_refl.
  - change (String a s1 +:+ String c s2) with (String a (s1 +:+ String c s2)).
    cbn [Py.has_char Py.partition]. intros [Ha Hs]%orb_false_elim.
    by rewrite Ha, (IH Hs).
Qed.

Lemma span_app_all q h s :
  Py.all_chars q h = true ->
  Py.span q (h +:+ s) = (h +:+ (Py.span q s).1, (Py.span q s).2).
Proof.
  intros Hh. induction h as [|a h IH].
  - change (EmptyString +:+ s) with s. by destruct (Py.span q s).
  - change (String a h +:+ s) with (String a (h +:+ s)). cbn [Py.span].
    cbn [Py.all_chars] in Hh. apply andb_prop in Hh as [Ha Hh].
    rewrite Ha, (IH Hh). done.
Qed.

Lemma isalpha_not_space a : Py.isalpha a = true -> Url.c0_control_or_space a = false.
Proof. by destruct a as [[] [] [] [] [] [] [] []]. Qed.

Lemma has_char_separator c :
  Url.unsafe_url_byte c = true -> Py.has_char c "://" = false.
Proof. by intros [-> | [-> | ->]]%unsafe_url_bytes. Qed.

(** [urlsplit] on a URL put together from a scheme, a host and a path
    that [urlsplit] returned *)
Lemma urlsplit_of_clean ip sc nl p r :
  split_scheme sc ->
  sc <> EmptyString ->
  (forall c, Url.unsafe_url_byte c = true ->
     Py.has_char c sc = false /\ Py.has_char c nl = false
     /\ Py.has_char c p = false) ->
  Py.all_chars (fun a => negb (Url.netloc_delim a)) nl = true ->
  Py.has_char "?" p = false ->
  Py.has_char "#" p = false ->
  Url.urlsplit ip (sc +:+ "://" +:+ nl +:+ p) EmptyString = Some r ->
  r = (sc, nl +:+ (Py.span (fun a => negb (Url.netloc_delim a)) p).1,
       (Py.span (fun a => negb (Url.netloc_delim a)) p).2,
       EmptyString, EmptyString).
Proof.
  intros [->|(Halpha & Hchars & Hlower)] Hne Hsafe Hnl Hquery Hfragment; [done|].
  destruct sc as [|c0 sc']; [done|]. clear Hne.
  set (l := String c0 sc' +:+ "://" +:+ nl +:+ p).
  assert (Py.lstrip Url.c0_control_or_space l = l) as Hl1.
  { unfold l.
    change (String c0 sc' +:+ "://" +:+ nl +:+ p)
      with (String c0 (sc' +:+ "://" +:+ nl +:+ p)).
    cbn [Py.lstrip]. by rewrite (isalpha_not_space c0 Halpha). }
  assert (Py.remove_chars Url.unsafe_url_byte l = l) as Hl2.
  { apply remove_chars_safe. intros c Hc. destruct (Hsafe c Hc) as (Hsc & Hn & Hp).
    unfold l. by rewrite !has_char_app, Hsc, (has_char_separator c Hc), Hn, Hp. }
  assert (Py.partition ":" l = (String c0 sc', Some ("//" +:+ nl +:+ p))) as Hl3.
  { unfold l. change ("://" +:+ nl +:+ p) with (String ":" ("//" +:+ nl +:+ p)).
    apply partition_app. by eapply has_char_all_chars; [|exact Hchars]. }
  assert (forall url, Py.startswith ("//" +:+ url) "//" = true) as Hslashes.
  { intros url. by apply (prefix_app_l "//" "//" url). }
  assert (forall url, Py.drop 2 ("//" +:+ url) = url) as Hdrop by done.
  unfold Url.urlsplit. cbv zeta. rewrite Hl1, Hl2, Hl3, Halpha, Hchars.
  cbn [andb]. cbv beta iota. rewrite Hlower, Hslashes, Hdrop.
  rewrite (span_app_all _ nl p Hnl).
  destruct (has_char_span_within (fun a => negb (Url.netloc_delim a)) "#" p Hfragment)
    as [_ Hrest_fragment].
  destruct (has_char_span_within (fun a => negb (Url.netloc_delim a)) "?" p Hquery)
    as [_ Hrest_query].
  destruct (Py.span (fun a => negb (Url.netloc_delim a)) p) as [p1 rest].
  cbn [fst snd] in *. cbv beta iota.
  destruct (_ || _); [done|]. destruct (_ && _); [done|].
  rewrite (split_once_none "#" rest Hrest_fragment).
  rewrite (split_once_none "?" rest Hrest_query). by intros [= <-].
Qed.

(** a URL that starts with a colon has no scheme *)
Lemma urlsplit_no_scheme ip rest sc nl p q f :
  Url.urlsplit ip (String ":" rest) EmptyString = Some (sc, nl, p, q, f) ->
  sc = EmptyString.
Proof.
  unfold Url.urlsplit. cbv zeta.
  change (Py.lstrip Url.c0_control_or_space (String ":" rest)) with (String ":" rest).
  change (Py.remove_chars Url.unsafe_url_byte (String ":" rest))
    with (String ":" (Py.remove_chars Url.unsafe_url_byte rest)).
  change (Py.partition ":" (String ":" (Py.remove_chars Url.unsafe_url_byte rest)))
    with (EmptyString, Some (Py.remove_chars Url.unsafe_url_byte rest)).
  cbv beta iota.
  change (Py.remove_chars Url.unsafe_url_byte
            (Py.strip Url.c0_control_or_space EmptyString)) with EmptyString.
  destruct (Py.startswith _ "//").
  - destruct (Py.span _ _) as [netloc url3].
    destruct (_ || _); [done|]. destruct (_ && _); [done|].
    destruct (Py.split_once "#" url3) as [url4 fragment].
    destruct (Py.split_once "?" url4) as [url5 query]. by intros [= <- _ _ _ _].
  - destruct (Py.split_once "#" _) as [url4 fragment].
    destruct (Py.split_once "?" url4) as [url5 query]. by intros [= <- _ _ _ _].
Qed.

Lemma splitparams_none url :
  Py.has_char "/" url = true ->
  Py.has_char ";" (Py.after_last "/" url) = false ->
  Url.splitparams url = (url, EmptyString).
Proof.
  intros Hslash Htail. unfold Url.splitparams. rewrite Hslash.
  pose proof (partition_no_char ";" _ Htail) as Hnone.
  destruct (Py.partition ";" (Py.after_last "/" url)) as [before [after|]]; done.
Qed.

Lemma netloc_delims c :
  Url.netloc_delim c = true -> c = "/"%char \/ c = "?"%char \/ c = "#"%char.
Proof. destruct c as [[] [] [] [] [] [] [] []]; cbn; intros; try done; auto. Qed.

(** what is left after the host starts with a slash when it holds no
    query and no fragment *)
Lemma span_rest_slash p :
  Py.has_char "?" p = false -> Py.has_char "#" p = false ->
  match (Py.span (fun a => negb (Url.netloc_delim a)) p).2 with
  | EmptyString => True
  | String c _ => c = "/"%char
  end.
Proof.
  intros Hquery Hfragment.
  pose proof (span_stops (fun a => negb (Url.netloc_delim a)) p) as Hstop.
  destruct (has_char_span_within (fun a => negb (Url.netloc_delim a)) "?" p Hquery)
    as [_ Hq].
  destruct (has_char_span_within (fun a => negb (Url.netloc_delim a)) "#" p Hfragment)
    as [_ Hf].
  destruct (Py.span _ p).2 as [|c rest]; [done|].
  specialize (Hstop c rest eq_refl). apply negb_false_iff in Hstop.
  cbn [Py.has_char] in Hq, Hf.
  apply orb_false_elim in Hq as [Hq _]. apply orb_false_elim in Hf as [Hf _].
  destruct (netloc_delims c Hstop) as [->|[->| ->]]; done.
Qed.

(** Parsing the clean form of a parsed URL, when it parses with a scheme,
    gives the same scheme, host and path: the clean form of a clean URL
    is the URL itself. *)
Lemma clean_url_fixed ip url parsed parsed' :
  Url.urlparse ip url = Some parsed ->
  Url.urlparse ip (clean_url parsed) = Some parsed' ->
  Url.scheme parsed' <> EmptyString ->
  clean_url parsed' = clean_url parsed
  /\ Url.scheme parsed' = Url.scheme parsed
  /\ Url.params parsed' = EmptyString
  /\ Url.query parsed' = EmptyString
  /\ Url.fragment parsed' = EmptyString.
Proof.
  unfold Url.urlparse at 1, Url.urlparse_with.
  destruct (Url.urlsplit ip url EmptyString) as [[[[[sc nl] p0] q] f]|] eqn:Hsplit;
    [|done].
  destruct (urlsplit_shape _ _ _ _ _ _ _ Hsplit) as (Hscheme & Hsafe & Hnl).
  destruct (urlsplit_ends_path _ "?" _ _ _ _ _ _ (or_introl eq_refl) Hsplit)
    as (_ & _ & Hquery).
  destruct (urlsplit_ends_path _ "#" _ _ _ _ _ _ (or_intror eq_refl) Hsplit)
    as (_ & _ & Hfragment).
  set (p := (if Py.mem sc Url.uses_params && Py.has_char ";" p0
             then Url.splitparams p0 else (p0, EmptyString)).1).
  assert (forall c, Py.has_char c p0 = false -> Py.has_char c p = false) as Hwithin.
  { intros c Hc. unfold p. destruct (_ && _); [|done]. by apply has_char_splitparams. }
  assert (Py.mem sc Url.uses_params = true ->
          Py.has_char ";" (Py.after_last "/" p) = false) as Htail.
  { intros Hmem. unfold p. rewrite Hmem. cbn [andb].
    destruct (Py.has_char ";" p0) eqn:Hsemi; [apply splitparams_tail|].
    by apply has_char_after_last. }
  assert (parsed = Url.mkParseResult sc nl p
                     (Url.params parsed) (Url.query parsed) (Url.fragment parsed)
          -> True) as _ by done.
  intros Hparsed.
  assert (clean_url parsed = sc +:+ "://" +:+ nl +:+ p /\ Url.scheme parsed = sc)
    as [Hclean Hsc].
  { unfold p. destruct (_ && _).
    - destruct (Url.splitparams p0) as [path params]. by injection Hparsed as <-.
    - by injection Hparsed as <-. }
  rewrite Hclean, Hsc. clear Hparsed Hclean Hsc parsed.
  unfold Url.urlparse, Url.urlparse_with.
  destruct (Url.urlsplit ip (sc +:+ "://" +:+ nl +:+ p) EmptyString)
    as [[[[[sc' nl'] p'] q'] f']|] eqn:Hsplit'; [|done].
  destruct (decide (sc = EmptyString)) as [->|Hne].
  { apply urlsplit_no_scheme in Hsplit' as ->.
    intros Heq Hs. destruct Hs.
    destruct (if Py.mem EmptyString Url.uses_params && Py.has_char ";" p'
              then Url.splitparams p' else (p', EmptyString)) as [path' params'].
    by injection Heq as <-. }
  apply (urlsplit_of_clean ip sc nl p) in Hsplit'; try done.
  - pose proof (span_spec (fun a => negb (Url.netloc_delim a)) p) as [Hp _].
    pose proof (span_rest_slash p (Hwithin _ Hquery) (Hwithin _ Hfragment)) as Hslash.
    destruct (Py.span (fun a => negb (Url.netloc_delim a)) p) as [p1 rest].
    cbn [fst snd] in *. injection Hsplit' as -> -> -> -> ->.
    assert ((if Py.mem sc Url.uses_params && Py.has_char ";" rest
             then Url.splitparams rest else (rest, EmptyString))
            = (rest, EmptyString)) as ->.
    { destruct (Py.mem sc Url.uses_params) eqn:Hmem; [|done]. cbn [andb].
      destruct (Py.has_char ";" rest) eqn:Hsemi; [|done].
      destruct rest as [|c rest']; [done|]. subst c.
      apply splitparams_none; [done|].
      rewrite <- (after_last_app "/" p1 (String "/" rest')) by done.
      rewrite <- Hp. by apply Htail. }
    intros [= <-] _. unfold clean_url. cbn [Url.scheme Url.netloc Url.path
      Url.params Url.query Url.fragment].
    split; [|done]. by rewrite Hp, !append_assoc.
  - intros c Hc. destruct (Hsafe c Hc) as (? & ? & ?). auto.
  - by apply Hwithin.
  - by apply Hwithin.
Qed.

(** ** Rounding the elapsed time *)

Lemma round_half_even_near n d k :
  0 < d -> (2 * k - 1) * d < 2 * n < (2 * k + 1) * d ->
  round_half_even n d = k.
Proof.
  intros Hd Hn. unfold round_half_even. cbv zeta.
  pose proof (Z.div_mod n d ltac:(lia)) as Hdiv.
  pose proof (Z.mod_pos_bound n d Hd) as Hmod.
  set (q := n / d) in *. set (r := n mod d) in *.
  assert (forall a b, a * d < b * d -> a < b) as Hcancel.
  { intros a b Hab. by apply (Z.mul_lt_mono_pos_r d). }
  destruct (Z.ltb_spec (2 * r) d).
  - assert (2 * k - 1 < 2 * q + 1) by (apply Hcancel; lia).
    assert (2 * q < 2 * k + 1) by (apply Hcancel; lia). lia.
  - destruct (Z.ltb_spec d (2 * r)).
    + assert (2 * k - 1 < 2 * q + 2) by (apply Hcancel; lia).
      assert (2 * q + 1 < 2 * k + 1) by (apply Hcancel; lia). lia.
    + assert (2 * r = d) as Htie by lia.
      assert (2 * k - 1 < 2 * q + 1) by (apply Hcancel; lia).
      assert (2 * q + 1 < 2 * k + 1) by (apply Hcancel; lia). lia.
Qed.

Lemma format_2f_prints_as k d :
  prints_as k d ->
  format_2f d
  = Py.str (k / 100) +:+ "."
    +:+ (if k mod 100 <? 10 then "0" else EmptyString) +:+ Py.str (k mod 100).
Proof.
  intros [Hpos Hnear]. unfold format_2f, hundredths. cbv zeta.
  rewrite (round_half_even_near (100 * Z.abs d) ticks_per_second k).
  - by replace (d <? 0) with false by lia.
  - reflexivity.
  - rewrite Z.abs_eq by done. lia.
Qed.

(** ** Where [urlparse] raises *)

Lemma has_char_lstrip p c s :
  Py.has_char c s = false -> Py.has_char c (Py.lstrip p s) = false.
Proof.
  induction s as [|a s IH]; [done|]. cbn [Py.lstrip]. destruct (p a); [|done].
  cbn [Py.has_char]. intros [_ Hs]%orb_false_elim. by apply IH.
Qed.

Lemma has_char_remove_chars p c s :
  Py.has_char c s = false -> Py.has_char c (Py.remove_chars p s) = false.
Proof.
  induction s as [|a s IH]; [done|]. cbn [Py.remove_chars Py.has_char].
  intros [Ha Hs]%orb_false_elim. destruct (p a); [by apply IH|].
  cbn [Py.has_char]. by rewrite Ha, IH.
Qed.

(** [urlsplit] raises for the brackets of the host only *)
Lemma urlsplit_without_brackets ip url :
  Py.has_char "[" url = false -> Py.has_char "]" url = false ->
  is_Some (Url.urlsplit ip url EmptyString).
Proof.
  intros Hopen Hclose. unfold Url.urlsplit.
  set (url1 := Py.remove_chars _ (Py.lstrip _ url)).
  change (Py.remove_chars Url.unsafe_url_byte
            (Py.strip Url.c0_control_or_space EmptyString)) with EmptyString.
  assert (forall c, Py.has_char c url = false -> Py.has_char c url1 = false)
    as Hurl1 by (intros c Hc; by apply has_char_remove_chars, has_char_lstrip).
  set (scheme_url :=
         match Py.partition ":" url1 with
         | (String c0 _ as before, Some after) =>
             if Py.isalpha c0 && Py.all_chars Url.scheme_chars before
             then (Py.lower before, after) else (EmptyString, url1)
         | _ => (EmptyString, url1)
         end).
  assert (forall c, Py.has_char c url = false -> Py.has_char c scheme_url.2 = false)
    as Hurl2.
  { intros c Hc. unfold scheme_url.
    pose proof (has_char_partition_after ":" c url1) as Hafter.
    destruct (Py.partition ":" url1) as [[|c0 before] [after|]];
      try (by apply Hurl1).
    destruct (Py.isalpha c0 && Py.all_chars Url.scheme_chars (String c0 before));
      [|by apply Hurl1].
    cbn [snd] in *. apply (Hafter after); [by apply Hurl1|done]. }
  destruct scheme_url as [scheme2 url2]. cbn [snd] in Hurl2.
  destruct (Py.startswith url2 "//").
  - pose proof (fun c Hc => proj1 (has_char_span_within
                  (fun a => negb (Url.netloc_delim a)) c (Py.drop 2 url2)
                  (has_char_drop c 2 url2 (Hurl2 c Hc)))) as Hnetloc.
    destruct (Py.span _ (Py.drop 2 url2)) as [netloc url3]. cbn [fst] in Hnetloc.
    rewrite (Hnetloc "["%char Hopen), (Hnetloc "]"%char Hclose). cbn [andb orb].
    destruct (Py.split_once "#" url3) as [url4 fragment].
    by destruct (Py.split_once "?" url4) as [url5 query].
  - destruct (Py.split_once "#" url2) as [url4 fragment].
    by destruct (Py.split_once "?" url4) as [url5 query].
Qed.

Lemma is_valid_url_without_brackets env self url :
  Py.has_char "[" url = false -> Py.has_char "]" url = false ->
  exists b, is_valid_url env self url = Some b.
Proof.
  intros Hopen Hclose. unfold is_valid_url, Url.urlparse, Url.urlparse_with.
  destruct (urlsplit_without_brackets (ip_address env) url Hopen Hclose)
    as [[[[[sc nl] p] q] f] ->].
  destruct (if Py.mem sc Url.uses_params && Py.has_char ";" p
            then Url.splitparams p else (p, EmptyString)) as [path params].
  eauto.
Qed.

(** a host with one bracket and not the other *)
Lemma urlsplit_unbalanced ip scheme host path :
  scheme = "http" \/ scheme = "https" ->
  Py.all_chars netloc_char host = true ->
  plain_path path = true ->
  unbalanced_brackets host = true ->
  Url.urlsplit ip (scheme +:+ "://" +:+ host +:+ path) EmptyString = None.
Proof.
  intros Hscheme Hhost Hpath Hbrackets.
  assert (Py.all_chars (fun a => negb (Url.unsafe_url_byte a)) (host +:+ path) = true)
    as Hsafe.
  { rewrite all_chars_app. apply andb_true_intro. split.
    - eapply all_chars_impl; [|exact Hhost]. unfold netloc_char.
      by intros a [_ ?]%andb_prop.
    - apply andb_prop in Hpath as [_ Hpath].
      eapply all_chars_impl; [|exact Hpath]. unfold path_char.
      by intros a [_ ?]%andb_prop. }
  assert (Py.span (fun a => negb (Url.netloc_delim a)) (host +:+ path) = (host, path))
    as Hspan.
  { apply span_app.
    - eapply all_chars_impl; [|exact Hhost]. unfold netloc_char.
      by intros a [? _]%andb_prop.
    - apply andb_prop in Hpath as [Hslash _]. destruct path as [|c path]; [done|].
      apply Ascii.eqb_eq in Hslash as ->. done. }
  assert (forall prefix,
            Py.all_chars (fun a => negb (Url.unsafe_url_byte a)) prefix = true ->
            Py.remove_chars Url.unsafe_url_byte (prefix +:+ host +:+ path)
            = prefix +:+ host +:+ path) as Hprefix.
  { intros prefix Hp. apply remove_chars_none. by rewrite all_chars_app, Hp. }
  assert (forall url, Py.startswith ("//" +:+ url) "//" = true) as Hslashes.
  { intros url. by apply (prefix_app_l "//" "//" url). }
  assert (forall url, Py.drop 2 ("//" +:+ url) = url) as Hdrop by done.
  assert (Py.has_char "[" host && negb (Py.has_char "]" host)
          || Py.has_char "]" host && negb (Py.has_char "[" host) = true) as Hbad.
  { unfold unbalanced_brackets in Hbrackets.
    by destruct (Py.has_char "[" host), (Py.has_char "]" host). }
  unfold Url.urlsplit. cbv zeta.
  destruct Hscheme as [-> | ->].
  - assert (Py.lstrip Url.c0_control_or_space ("http" +:+ "://" +:+ host +:+ path)
            = "http://" +:+ host +:+ path) as -> by reflexivity.
    rewrite (Hprefix "http://" eq_refl).
    assert (Py.partition ":" ("http://" +:+ host +:+ path)
            = ("http", Some ("//" +:+ host +:+ path))) as -> by reflexivity.
    assert (Py.isalpha "h" && Py.all_chars Url.scheme_chars "http" = true) as ->
      by reflexivity.
    cbv beta iota. rewrite Hslashes, Hdrop, Hspan. cbv beta iota.
    by rewrite Hbad.
  - assert (Py.lstrip Url.c0_control_or_space ("https" +:+ "://" +:+ host +:+ path)
            = "https://" +:+ host +:+ path) as -> by reflexivity.
    rewrite (Hprefix "https://" eq_refl).
    assert (Py.partition ":" ("https://" +:+ host +:+ path)
            = ("https", Some ("//" +:+ host +:+ path))) as -> by reflexivity.
    assert (Py.isalpha "h" && Py.all_chars Url.scheme_chars "https" = true) as ->
      by reflexivity.
    cbv beta iota. rewrite Hslashes, Hdrop, Hspan. cbv beta iota.
    by rewrite Hbad.
Qed.

Lemma is_valid_url_unbalanced env self scheme host path :
  scheme = "http" \/ scheme = "https" ->
  Py.all_chars netloc_char host = true ->
  plain_path path = true ->
  unbalanced_brackets host = true ->
  is_valid_url env self (scheme +:+ "://" +:+ host +:+ path) = None.
Proof.
  intros Hscheme Hhost Hpath Hbrackets.
  unfold is_valid_url, Url.urlparse, Url.urlparse_with.
  by rewrite (urlsplit_unbalanced _ scheme host path Hscheme Hhost Hpath Hbrackets).
Qed.

(** ** A link on which the extraction raises *)

Lemma extract_links_loop_raises env self current_url matches :
  (exists href, href ∈ matches /\ extract_link env self current_url href = None) ->
  forall links, extract_links_loop env self current_url matches links = None.
Proof.
  induction matches as [|h matches IH]; intros (href & Hin & Hraise) links.
  - by apply elem_of_nil in Hin.
  - cbn [extract_links_loop].
    destruct (extract_link env self current_url h) as [[link|]|] eqn:Hh; [| |done].
    + apply IH. exists href. split; [|done].
      apply elem_of_cons in Hin as [->|?]; [congruence|done].
    + apply IH. exists href. split; [|done].
      apply elem_of_cons in Hin as [->|?]; [congruence|done].
Qed.

Lemma extract_link_raises env self current_url href absolute_url parsed :
  Url.urljoin (ip_address env) current_url href = Some absolute_url ->
  Url.urlparse (ip_address env) absolute_url = Some parsed ->
  is_valid_url env self (clean_url parsed) = None ->
  extract_link env self current_url href = None.
Proof. intros Hjoin Hparse Hvalid. unfold extract_link. by rewrite Hjoin, Hparse, Hvalid. Qed.

(** the page is recorded and none of its links is followed *)
Lemma crawl_page_extraction_raises env url depth s text :
  url ∉ visited_urls s -> depth < max_depth s ->
  session_get env (length (session_calls s)) url = Response 200 text ->
  extract_links env s text url = None ->
  exists s', crawl_page env url depth s = Done tt s'
    /\ url_status s' !! url = Some 200
    /\ visited_urls s' = visited_urls s ∪ {[url]}
    /\ session_calls s' = url :: session_calls s.
Proof.
  intros Hnew Hdepth Hget Hnone.
  rewrite crawl_page_request, Hget by (done || lia).
  rewrite after_request_no_links.
  - eexists. split; [done|].
    by rewrite record_response_status, record_response_calls,
      record_response_visited, lookup_insert_eq.
  - done.
  - by rewrite <- Hnone; apply extract_links_domain.
Qed.

(** ** The unit tests of the repository, replayed on the model *)

Example test_init_with_trailing_slash :
  init chain_env "https://example.com/" 2 0 = Some example_com.
Proof. vm_compute; reflexivity. Qed.

Example test_is_valid_url_same_domain :
  map (is_valid_url chain_env example_com)
    ["https://example.com/page1"; "https://example.com/page2/";
     "https://example.com/subdir/page.html"; "http://example.com/page"]
  = [Some true; Some true; Some true; Some true].
Proof. vm_compute; reflexivity. Qed.

Example test_is_valid_url_different_domain :
  map (is_valid_url chain_env example_com)
    ["https://other.com/page"; "https://sub.other.com/page";
     "http://external-site.com/page"]
  = [Some false; Some false; Some false].
Proof. vm_compute; reflexivity. Qed.

Example test_is_valid_url_file_extensions :
  map (is_valid_url chain_env example_com)
    ["https://example.com/file.pdf"; "https://example.com/image.jpg";
     "https://example.com/script.js"; "https://example.com/style.css";
     "https://example.com/archive.zip"; "https://example.com/icon.ico"]
  = [Some false; Some false; Some false; Some false; Some false; Some false].
Proof. vm_compute; reflexivity. Qed.

Example test_is_valid_url_skip_paths :
  map (is_valid_url chain_env example_com)
    ["https://example.com/api/users"; "https://example.com/admin/dashboard";
     "https://example.com/wp-admin/"; "https://example.com/cgi-bin/script";
     "https://example.com/mail/inbox"]
  = [Some false; Some false; Some false; Some false; Some false].
Proof. vm_compute; reflexivity. Qed.

Example test_is_valid_url_protocols :
  map (is_valid_url chain_env example_com)
    ["https://example.com/page"; "http://example.com/page";
     "ftp://example.com/file"; "mailto:user@example.com"; "tel:+1234567890"]
  = [Some true; Some true; Some false; Some false; Some false].
Proof. vm_compute; reflexivity. Qed.

Example test_extract_links :
  extract_links chain_env example_com
    (anchor "/page1" +:+ anchor "https://example.com/page2"
     +:+ anchor "https://other.com/external" +:+ anchor "/page3.pdf"
     +:+ anchor "/api/data" +:+ anchor "https://example.com/subdir/page")
    "https://example.com/"
  = Some {[ "https://example.com/page1"; "https://example.com/page2";
            "https://example.com/subdir/page" ]}.
Proof. vm_compute; reflexivity. Qed.

Example test_extract_links_with_relative_urls :
  extract_links chain_env example_com
    (anchor "relative/page" +:+ anchor "./current/page" +:+ anchor "../parent/page")
    "https://example.com/base/"
  = Some {[ "https://example.com/base/relative/page";
            "https://example.com/base/current/page";
            "https://example.com/parent/page" ]}.
Proof. vm_compute; reflexivity. Qed.

Example test_extract_links_empty_content :
  extract_links chain_env example_com EmptyString "https://example.com/" = Some ∅.
Proof. vm_compute; reflexivity. Qed.

Example test_crawl_page_depth_limit :
  crawl_page chain_env "https://example.com/deep" 3 example_com = Done tt example_com.
Proof. vm_compute; reflexivity. Qed.

Example test_crawl_recursive_behavior :
  let s := exec (crawl_page (quiet_env recursive_site) "https://example.com/" 0)
             example_com in
  visited_urls s
  = {[ "https://example.com/"; "https://example.com/page1";
       "https://example.com/page2" ]}
  /\ url_depth s !! "https://example.com/" = Some 0
  /\ url_depth s !! "https://example.com/page1" = Some 1
  /\ url_depth s !! "https://example.com/page2" = Some 2.
Proof. vm_compute. repeat split; reflexivity. Qed.

Example test_generate_report_empty_crawl :
  Py.contains "Site Crawler Report: https://example.com"
    (generate_report chain_env 0 false example_com) = true
  /\ Py.contains "Total Pages Visited | 0"
       (generate_report chain_env 0 false example_com) = true
  /\ Py.contains "DETAILED ERROR REPORT"
       (generate_report chain_env 0 false example_com) = false.
Proof. vm_compute. repeat split; reflexivity. Qed.

Example test_generate_report_partial :
  Py.contains "PARTIAL REPORT" (generate_report chain_env 0 true example_com) = true.
Proof. vm_compute; reflexivity. Qed.

(** ** The claims *)

(** C1. Every URL that has a depth in the ledger, at the end of a crawl
    started by [crawl()] on a new crawler or at the moment an interrupt
    stops it, has a depth of at most [max_depth], and the crawl does end;
    the same bound holds in every state a program can reach by calls of
    [crawl_page]. *)
Theorem crawl_depth_within_max_depth env :
  (forall base max now s,
     init env base max now = Some s ->
     match crawl env s with
     | Done _ s' | Raised _ s' =>
         forall u d, url_depth s' !! u = Some d -> d <= max_depth s'
     | OutOfFuel => False
     end)
  /\ (forall s, reachable env s ->
        forall u d, url_depth s !! u = Some d -> d <= max_depth s).
Proof.
  assert (forall base max now s, init env base max now = Some s -> depth_bounded s)
    as Hnew.
  { intros base max now s Hinit. unfold init in Hinit.
    destruct (Url.urlparse _ _); simplify_eq. intros u d. cbn.
    by rewrite lookup_empty. }
  split.
  - intros base max now s Hinit.
    pose proof (init_ledger_ok _ _ _ _ _ Hinit) as Hok.
    pose proof (Hnew _ _ _ _ Hinit) as Hb. unfold crawl.
    pose proof (crawl_page_post env (base_url s) 0 s) as Hpost.
    pose proof (crawl_page_preserves env depth_bounded
                  (fun s1 s2 _ => depth_bounded_step env s1 s2) (base_url s) 0 s)
      as Hkeep.
    destruct (crawl_page env (base_url s) 0 s) as [[] s'|e s'|]; [| |done].
    + by apply (Hkeep s').
    + by apply (Hkeep s').
  - apply (reachable_invariant env depth_bounded Hnew).
    intros s1 s2 _. apply depth_bounded_step.
Qed.

Lemma crawl_depth_within_max_depth_witness :
  init chain_env "https://same.com/" 2 0 = Some same_com
  /\ match crawl chain_env same_com with
     | Done _ s' | Raised _ s' =>
         forall u d, url_depth s' !! u = Some d -> d <= max_depth s'
     | OutOfFuel => False
     end.
Proof.
  split; [vm_compute; reflexivity|].
  apply (proj1 (crawl_depth_within_max_depth chain_env) "https://same.com/" 2 0).
  vm_compute; reflexivity.
Defined.

(** C2. In every state a program can reach, a URL with status 0 is filed
    under the error class 0, a URL with a status of 400 or more is filed
    under the class of that status, and a URL with status 200 is filed
    under no class.  The network is assumed to answer with HTTP statuses,
    which are never 0. *)
Theorem status_matches_error_class env s :
  http_statuses env ->
  reachable env s ->
  forall u c, url_status s !! u = Some c ->
    (c = 0 -> u ∈ error_list 0 s)
    /\ (400 <= c -> u ∈ error_list c s)
    /\ (c = 200 -> forall k, u ∉ error_list k s).
Proof.
  intros Hhttp Hreach.
  assert (errors_have_status s) as He.
  { revert s Hreach. apply reachable_invariant.
    - intros base max now s Hinit k u. unfold init in Hinit.
      destruct (Url.urlparse _ _); simplify_eq. unfold error_list; cbn.
      rewrite lookup_empty. cbn. set_solver.
    - intros s1 s2 _. apply errors_have_status_step. }
  assert (failures_are_filed s) as Hf.
  { revert s Hreach He. intros s Hreach _. revert s Hreach.
    apply reachable_invariant.
    - intros base max now s Hinit u c. unfold init in Hinit.
      destruct (Url.urlparse _ _); simplify_eq. cbn. by rewrite lookup_empty.
    - intros s1 s2 _. by apply failures_are_filed_step. }
  intros u c Hu. split; [|split].
  - intros ->. apply Hf; auto.
  - intros Hc. apply Hf; auto.
  - intros -> k Hk. destruct (He _ _ Hk) as [Hs Hclass].
    assert (k = 200) by congruence. lia.
Qed.

Lemma mixed_env_http_statuses : http_statuses mixed_env.
Proof.
  intros n u c text. cbn. unfold mixed_site.
  repeat case_match; intros [= <- _]; lia.
Qed.

Lemma mixed_env_reachable : reachable mixed_env (exec (crawl mixed_env) same_com).
Proof.
  eapply (reachable_crawl_page mixed_env same_com "https://same.com" 0).
  - apply (reachable_init mixed_env "https://same.com/" 2 0). vm_compute; reflexivity.
  - vm_compute; reflexivity.
Qed.

Lemma status_matches_error_class_witness :
  http_statuses mixed_env
  /\ reachable mixed_env (exec (crawl mixed_env) same_com)
  /\ url_status (exec (crawl mixed_env) same_com) !! "https://same.com/missing" = Some 404
  /\ ((404 = 0 -> "https://same.com/missing" ∈ error_list 0 (exec (crawl mixed_env) same_com))
      /\ (400 <= 404 ->
          "https://same.com/missing" ∈ error_list 404 (exec (crawl mixed_env) same_com))
      /\ (404 = 200 ->
          forall k, "https://same.com/missing" ∉ error_list k (exec (crawl mixed_env) same_com))).
Proof.
  split; [exact mixed_env_http_statuses|].
  split; [exact mixed_env_reachable|].
  split; [vm_compute; reflexivity|].
  apply (status_matches_error_class mixed_env (exec (crawl mixed_env) same_com)
           mixed_env_http_statuses mixed_env_reachable
           "https://same.com/missing" 404).
  vm_compute; reflexivity.
Defined.

(** C3. A call of [crawl_page] on a URL that is already visited returns
    at once and leaves the crawler as it was, the history of requests
    included; and across any call of [crawl_page] a depth that is recorded
    stays what it is. *)
Theorem revisit_changes_nothing env :
  (forall u d s, u ∈ visited_urls s -> crawl_page env u d s = Done tt s)
  /\ (forall s url depth s' v k,
        reachable env s ->
        url_depth s !! v = Some k ->
        outcome_state (crawl_page env url depth s) = Some s' ->
        url_depth s' !! v = Some k).
Proof.
  split.
  - intros u d s Hin. unfold crawl_page. rewrite crawl_page_fuel_unfold.
    rewrite (bool_decide_eq_true_2 _ Hin). by rewrite orb_true_r.
  - intros s url depth s' v k Hreach Hv Hout.
    apply (crawl_page_preserves env (fun s => url_depth s !! v = Some k))
      with (url := url) (depth := depth) (s := s); auto.
    + intros s1 s2 Hok H1 Hstep. by eapply depth_kept_step.
    + by eapply reachable_ledger_ok.
Qed.

Lemma chain_env_reachable : reachable chain_env (exec (crawl chain_env) same_com).
Proof.
  eapply (reachable_crawl_page chain_env same_com "https://same.com" 0).
  - apply (reachable_init chain_env "https://same.com/" 2 0). vm_compute; reflexivity.
  - vm_compute; reflexivity.
Qed.

Lemma revisit_changes_nothing_witness :
  "https://same.com/a" ∈ visited_urls (exec (crawl chain_env) same_com)
  /\ crawl_page chain_env "https://same.com/a" 0 (exec (crawl chain_env) same_com)
     = Done tt (exec (crawl chain_env) same_com).
Proof.
  assert ("https://same.com/a" ∈ visited_urls (exec (crawl chain_env) same_com)) as Hin.
  { apply (bool_decide_unpack _). vm_compute. exact I. }
  split; [exact Hin|].
  exact (proj1 (revisit_changes_nothing chain_env) "https://same.com/a" 0
           (exec (crawl chain_env) same_com) Hin).
Defined.




(** C10. In every state a program can reach, [total_requests] is the
    number of URLs recorded with a status other than 0: a request that
    fails or is interrupted is not counted.  The network is assumed to
    answer with HTTP statuses, which are never 0. *)
Theorem total_requests_counts_completed env s :
  http_statuses env ->
  reachable env s ->
  total_requests s = Z.of_nat (completed_requests s).
Proof.
  intros Hhttp Hreach. revert s Hreach. apply reachable_invariant.
  - intros base max now s Hinit. unfold init in Hinit.
    destruct (Url.urlparse _ _); simplify_eq. done.
  - intros s1 s2 _. by apply requests_counted_step.
Qed.

Lemma total_requests_counts_completed_witness :
  http_statuses mixed_env
  /\ reachable mixed_env (exec (crawl mixed_env) same_com)
  /\ total_requests (exec (crawl mixed_env) same_com)
     = Z.of_nat (completed_requests (exec (crawl mixed_env) same_com)).
Proof.
  split; [exact mixed_env_http_statuses|].
  split; [exact mixed_env_reachable|].
  exact (total_requests_counts_completed mixed_env (exec (crawl mixed_env) same_com)
           mixed_env_http_statuses mixed_env_reachable).
Defined.

(** C7. When the environment does not interrupt, no call of [crawl_page]
    raises.  Whatever the environment, a request that fails with an
    exception other than an interrupt is entered in the ledger with
    status 0 under the error class 0; an HTTP error is entered with its
    status under its class; a page whose links cannot be extracted is
    entered with its status and none of its links is followed.  In all
    three cases the call returns normally and makes no further request. *)
Theorem crawl_page_contains_failures env url depth s :
  (~ interrupting env -> exists s', crawl_page env url depth s = Done tt s')
  /\ (url ∉ visited_urls s -> depth <= max_depth s ->
      forall e, e <> KeyboardInterrupt ->
        session_get env (length (session_calls s)) url = Fails e ->
        exists s', crawl_page env url depth s = Done tt s'
          /\ url_status s' !! url = Some 0
          /\ url ∈ error_list 0 s'
          /\ session_calls s' = url :: session_calls s)
  /\ (url ∉ visited_urls s -> depth <= max_depth s ->
      forall status_code text,
        400 <= status_code ->
        session_get env (length (session_calls s)) url = Response status_code text ->
        exists s', crawl_page env url depth s = Done tt s'
          /\ url_status s' !! url = Some status_code
          /\ url ∈ error_list status_code s'
          /\ session_calls s' = url :: session_calls s)
  /\ (url ∉ visited_urls s -> depth < max_depth s ->
      forall text,
        session_get env (length (session_calls s)) url = Response 200 text ->
        extract_links env s text url = None ->
        exists s', crawl_page env url depth s = Done tt s'
          /\ url_status s' !! url = Some 200
          /\ visited_urls s' = visited_urls s ∪ {[url]}
          /\ session_calls s' = url :: session_calls s).
Proof.
  split; [|split; [|split]].
  - intros Hquiet. pose proof (crawl_page_post env url depth s) as Hpost.
    destruct (crawl_page env url depth s) as [[] s'|e s'|]; [by eexists| |done].
    destruct Hpost as (He & Hint & _). destruct Hquiet. by apply Hint, He.
  - intros Hnew Hle e He Hget. rewrite crawl_page_request, Hget by done.
    rewrite after_request_failure by (by destruct e).
    eexists. split; [done|]. cbn. rewrite lookup_insert_eq.
    split; [done|]. split; [|done].
    unfold error_list; cbn. rewrite lookup_insert_eq. cbn.
    apply elem_of_app. right. apply list_elem_of_here.
  - intros Hnew Hle status_code text Hc Hget.
    rewrite crawl_page_request, Hget by done.
    rewrite after_request_leaf.
    + eexists. split; [done|].
      rewrite record_response_status, record_response_calls, lookup_insert_eq.
      split; [done|]. split; [|done].
      rewrite error_list_record_response, bool_decide_eq_true_2 by done.
      apply elem_of_app. right. apply list_elem_of_here.
    + replace (status_code =? 200) with false by lia. done.
  - intros Hnew Hdepth text Hget Hnone.
    rewrite crawl_page_request, Hget by (done || lia).
    rewrite after_request_no_links.
    + eexists. split; [done|].
      by rewrite record_response_status, record_response_calls,
        record_response_visited, lookup_insert_eq.
    + done.
    + by rewrite <- Hnone; apply extract_links_domain.
Qed.

Lemma mixed_env_quiet : ~ interrupting mixed_env.
Proof.
  intros [(n & u & Hget)|(n & Hsleep)]; [|discriminate].
  cbn in Hget. unfold mixed_site in Hget. repeat case_match; discriminate.
Qed.

Lemma crawl_page_contains_failures_witness :
  ~ interrupting mixed_env
  /\ exists s', crawl_page mixed_env "https://same.com" 0 same_com = Done tt s'.
Proof.
  split; [exact mixed_env_quiet|].
  exact (proj1 (crawl_page_contains_failures mixed_env "https://same.com" 0 same_com)
           mixed_env_quiet).
Defined.

(** C4. A new crawler with [max_depth = 2] on a site where the root page
    links to A, A to B and B to C, every request answered with status
    200: the crawl ends normally, the root is recorded at depth 0, A at
    depth 1, B at depth 2, these three are all that is visited, and C is
    neither visited nor requested. *)
Theorem chain_crawl_stops_at_max_depth env base now s a b c body_root body_a body_b :
  init env base 2 now = Some s ->
  (forall n, time_sleep env n = None) ->
  (forall n x, set_order env n {[x]} = [x]) ->
  (forall n, session_get env n (base_url s) = Response 200 body_root) ->
  (forall n, session_get env n a = Response 200 body_a) ->
  (forall n, session_get env n b = Response 200 body_b) ->
  extract_links env s body_root (base_url s) = Some {[a]} ->
  extract_links env s body_a a = Some {[b]} ->
  extract_links env s body_b b = Some {[c]} ->
  a <> base_url s -> b <> base_url s -> b <> a ->
  c <> base_url s -> c <> a -> c <> b ->
  exists s', crawl env s = Done tt s'
    /\ url_depth s' !! base_url s = Some 0
    /\ url_depth s' !! a = Some 1
    /\ url_depth s' !! b = Some 2
    /\ visited_urls s' = {[ (base_url s); a; b ]}
    /\ (c ∉ visited_urls s')
    /\ (c ∉ session_calls s').
Proof.
  intros Hinit Hsleep Horder Hroot Ha Hb Lroot La Lb Nar Nbr Nba Ncr Nca Ncb.
  assert (max_depth s = 2 /\ visited_urls s = ∅ /\ url_depth s = ∅
          /\ session_calls s = []) as (Hmax & Hvis & Hdep & Hcalls).
  { unfold init in Hinit. destruct (Url.urlparse _ _); by simplify_eq. }
  set (root := base_url s) in *.
  set (s1 := exec (record_response root 200) (requested root 0 s)).
  set (s2 := exec (record_response a 200) (requested a 1 s1)).
  set (s3 := exec (record_response b 200) (requested b 2 s2)).
  assert (visited_urls s1 = {[root]}) as Hv1.
  { unfold s1. rewrite answered_visited, Hvis. apply (left_id_L ∅ (∪)). }
  assert (visited_urls s2 = {[root; a]}) as Hv2.
  { unfold s2. by rewrite answered_visited, Hv1. }
  assert (visited_urls s3 = {[root; a; b]}) as Hv3.
  { unfold s3. by rewrite answered_visited, Hv2. }
  assert (forall x y : string, x <> y -> x ∉ ({[y]} : gset string)) as Hsingle.
  { intros x y Hxy ?%elem_of_singleton. done. }
  assert (forall x y z : string, x <> y -> x <> z -> x ∉ ({[y; z]} : gset string))
    as Hpair.
  { intros x y z Hxy Hxz [?%elem_of_singleton|?%elem_of_singleton]%elem_of_union; done. }
  assert (max_depth s1 = 2) as Hm1 by (unfold s1; by rewrite answered_max_depth).
  assert (max_depth s2 = 2) as Hm2 by (unfold s2; by rewrite answered_max_depth).
  exists s3. split.
  - unfold crawl, crawl_page. rewrite Hmax. change (Z.to_nat (2 - 0 + 1)) with 3%nat.
    apply crawl_page_fuel_follow with (text := body_root) (link := a);
      rewrite ?Hvis, ?Hmax; try done; try lia; try apply not_elem_of_empty.
    fold root. fold s1. change (0 + 1) with 1.
    apply crawl_page_fuel_follow with (text := body_a) (link := b);
      rewrite ?Hv1, ?Hm1; try done; try lia; try (by apply Hsingle).
    { by rewrite (extract_links_domain env s1 s). }
    fold s2. change (1 + 1) with 2.
    apply crawl_page_fuel_leaf with (text := body_b);
      rewrite ?Hv2, ?Hm2; try done; try lia; try (by apply Hpair).
  - assert (url_depth s3 = <[b := 2]> (<[a := 1]> (<[root := 0]> ∅))) as Hd3.
    { unfold s3, s2, s1. by rewrite !answered_depth, Hdep. }
    assert (session_calls s3 = [b; a; root]) as Hc3.
    { unfold s3, s2, s1. by rewrite !answered_calls, Hcalls. }
    rewrite Hd3, Hv3, Hc3.
    split; [by rewrite !lookup_insert_ne, lookup_insert_eq by done|].
    split; [by rewrite lookup_insert_ne, lookup_insert_eq by done|].
    split; [by rewrite lookup_insert_eq|].
    split; [done|]. split.
    { intros [[?%elem_of_singleton|?%elem_of_singleton]%elem_of_union
             |?%elem_of_singleton]%elem_of_union; done. }
    rewrite !elem_of_cons. intros [?|[?|[?|?%elem_of_nil]]]; done.
Qed.

Lemma chain_crawl_stops_at_max_depth_witness :
  init chain_env "https://same.com/" 2 0 = Some same_com
  /\ exists s', crawl chain_env same_com = Done tt s'
       /\ url_depth s' !! "https://same.com" = Some 0
       /\ url_depth s' !! "https://same.com/a" = Some 1
       /\ url_depth s' !! "https://same.com/b" = Some 2
       /\ visited_urls s'
          = {[ "https://same.com"; "https://same.com/a"; "https://same.com/b" ]}
       /\ ("https://same.com/c" ∉ visited_urls s')
       /\ ("https://same.com/c" ∉ session_calls s').
Proof.
  split; [vm_compute; reflexivity|].
  apply (chain_crawl_stops_at_max_depth chain_env "https://same.com/" 0 same_com
           "https://same.com/a" "https://same.com/b" "https://same.com/c"
           (anchor "/a") (anchor "/b") (anchor "/c")).
  - vm_compute; reflexivity.
  - intros n; reflexivity.
  - intros n x; apply elements_singleton.
  - intros n; reflexivity.
  - intros n; reflexivity.
  - intros n; reflexivity.
  - vm_compute; reflexivity.
  - vm_compute; reflexivity.
  - vm_compute; reflexivity.
  - discriminate.
  - discriminate.
  - discriminate.
  - discriminate.
  - discriminate.
  - discriminate.
Defined.

(** C5. The set [extract_links] returns holds exactly the URLs obtained
    from an [href] match by resolving it against the page URL with
    [urljoin], parsing the result, keeping scheme, host and path, and
    passing [is_valid_url]; no URL in it has a query or a fragment left:
    it holds no [?] and no [#].  For a crawler of domain [same.com], a page at
    [https://same.com/] whose matches are [/p1], [https://same.com/p2],
    [https://other.com/x] and [/p3.pdf] yields the two URLs
    [https://same.com/p1] and [https://same.com/p2]. *)
Theorem extract_links_resolves_cleans_and_filters env self html current_url :
  (forall links,
     extract_links env self html current_url = Some links ->
     forall l, l ∈ links <->
       exists href absolute_url parsed,
         href ∈ Url.findall_href html
         /\ Url.urljoin (ip_address env) current_url href = Some absolute_url
         /\ Url.urlparse (ip_address env) absolute_url = Some parsed
         /\ l = Url.scheme parsed +:+ "://" +:+ Url.netloc parsed +:+ Url.path parsed
         /\ is_valid_url env self l = Some true)
  /\ (forall links,
        extract_links env self html current_url = Some links ->
        forall l, l ∈ links ->
          Py.has_char "?" l = false /\ Py.has_char "#" l = false)
  /\ (domain self = "same.com" ->
      current_url = "https://same.com/" ->
      Url.findall_href html
      = ["/p1"; "https://same.com/p2"; "https://other.com/x"; "/p3.pdf"] ->
      extract_links env self html current_url
      = Some {[ "https://same.com/p1"; "https://same.com/p2" ]}).
Proof.
  split; [|split].
  - intros links Hlinks l. unfold extract_links in Hlinks.
    rewrite (extract_links_loop_spec _ _ _ _ _ _ Hlinks l). split.
    + intros [Hin|(href & Hin & Hlink)]; [by apply not_elem_of_empty in Hin|].
      apply extract_link_spec in Hlink as (absolute_url & parsed & ? & ? & ? & ?).
      by exists href, absolute_url, parsed.
    + intros (href & absolute_url & parsed & Hin & ? & ? & ? & ?). right.
      exists href. split; [done|]. apply extract_link_spec.
      by exists absolute_url, parsed.
  - intros links Hlinks l Hl. unfold extract_links in Hlinks.
    apply (extract_links_loop_spec _ _ _ _ _ _ Hlinks l) in Hl
      as [Hin|(href & Hin & Hlink)]; [by apply not_elem_of_empty in Hin|].
    apply extract_link_spec in Hlink as (absolute_url & parsed & _ & Hparse & -> & _).
    split; eapply urlparse_ends_path; eauto; [by left|by right].
  - intros Hdomain -> Hmatches. unfold extract_links. rewrite Hmatches.
    unfold extract_links_loop, extract_link, is_valid_url. rewrite Hdomain.
    vm_compute. reflexivity.
Qed.

Lemma extract_links_resolves_cleans_and_filters_witness :
  domain same_com = "same.com"
  /\ Url.findall_href links_page
     = ["/p1"; "https://same.com/p2"; "https://other.com/x"; "/p3.pdf"]
  /\ extract_links chain_env same_com links_page "https://same.com/"
     = Some {[ "https://same.com/p1"; "https://same.com/p2" ]}.
Proof.
  split; [reflexivity|]. split; [vm_compute; reflexivity|].
  apply (proj2 (proj2 (extract_links_resolves_cleans_and_filters
                         chain_env same_com links_page "https://same.com/"))).
  - reflexivity.
  - reflexivity.
  - vm_compute; reflexivity.
Defined.

(** C6 as stated fails: on a URL whose host has an opening bracket and no
    closing one, [urlparse] raises [ValueError] and [is_valid_url] with
    it; no boolean is returned. *)
Lemma is_valid_url_raises_on_unbalanced_bracket :
  is_valid_url chain_env same_com "http://[" = None
  /\ ~ (forall env self url, exists b, is_valid_url env self url = Some b).
Proof.
  assert (is_valid_url chain_env same_com "http://[" = None) as Hraise
    by (vm_compute; reflexivity).
  split; [done|]. intros Htotal.
  destruct (Htotal chain_env same_com "http://[") as [b Hb]. congruence.
Qed.

(** C6, amended. [is_valid_url] raises exactly where [urlparse] raises.
    It returns a boolean on every URL that holds no square bracket (the
    model is exact on ASCII URLs).  On a URL [http://host/path] or
    [https://host/path] whose host holds one of the two square brackets
    and not the other it raises: no boolean is returned.  Inside a crawl
    that is not interrupted the exception is caught by the handler
    around link extraction: when [is_valid_url] raises on the clean form
    of a link of a page answered with status 200 below the depth limit,
    [crawl_page] returns normally, the page has its status 200, and none
    of its links is followed. *)
Theorem is_valid_url_raises_where_urlparse_does env self :
  (forall url,
     is_valid_url env self url = None <-> Url.urlparse (ip_address env) url = None)
  /\ (forall url,
        isascii url = true ->
        Py.has_char "[" url = false -> Py.has_char "]" url = false ->
        exists b, is_valid_url env self url = Some b)
  /\ (forall scheme host path,
        scheme = "http" \/ scheme = "https" ->
        Py.all_chars netloc_char host = true ->
        plain_path path = true ->
        unbalanced_brackets host = true ->
        is_valid_url env self (scheme +:+ "://" +:+ host +:+ path) = None)
  /\ (forall url depth s text href absolute_url parsed,
        ~ interrupting env ->
        isascii url = true -> isascii text = true ->
        url ∉ visited_urls s -> depth < max_depth s ->
        session_get env (length (session_calls s)) url = Response 200 text ->
        href ∈ Url.findall_href text ->
        Url.urljoin (ip_address env) url href = Some absolute_url ->
        Url.urlparse (ip_address env) absolute_url = Some parsed ->
        is_valid_url env s (clean_url parsed) = None ->
        exists s', crawl_page env url depth s = Done tt s'
          /\ url_status s' !! url = Some 200
          /\ visited_urls s' = visited_urls s ∪ {[url]}
          /\ session_calls s' = url :: session_calls s).
Proof.
  split; [|split; [|split]].
  - intros url. unfold is_valid_url. by destruct (Url.urlparse _ url).
  - intros url _. apply is_valid_url_without_brackets.
  - apply is_valid_url_unbalanced.
  - intros url depth s text href absolute_url parsed _ _ _ Hnew Hdepth Hget Hhref
      Hjoin Hparse Hvalid.
    apply (crawl_page_extraction_raises env url depth s text); try done.
    unfold extract_links. apply extract_links_loop_raises. exists href.
    split; [done|]. by eapply extract_link_raises.
Qed.

Lemma bracket_env_quiet : ~ interrupting bracket_env.
Proof. intros [(n & u & Hget)|(n & Hsleep)]; discriminate. Qed.

Lemma is_valid_url_raises_where_urlparse_does_witness :
  exists s', crawl_page bracket_env "https://same.com" 0 same_com = Done tt s'
    /\ url_status s' !! "https://same.com" = Some 200
    /\ visited_urls s' = visited_urls same_com ∪ {[ "https://same.com" ]}
    /\ session_calls s' = "https://same.com" :: session_calls same_com.
Proof.
  apply (proj2 (proj2 (proj2 (is_valid_url_raises_where_urlparse_does
                                bracket_env same_com)))
           "https://same.com" 0 same_com (anchor "http:[x") "http:[x" "http:[x"
           (Url.mkParseResult "http" EmptyString "[x" EmptyString EmptyString
              EmptyString)).
  - exact bracket_env_quiet.
  - reflexivity.
  - reflexivity.
  - apply not_elem_of_empty.
  - reflexivity.
  - reflexivity.
  - vm_compute. apply list_elem_of_here.
  - vm_compute; reflexivity.
  - vm_compute; reflexivity.
  - vm_compute; reflexivity.
Defined.

(** ** The report and the clock *)

(** C9 as stated fails: the report shows the time elapsed since the
    crawler was made, so two calls on the same ledger, one second apart,
    differ in the Duration row. *)
Lemma report_changes_with_the_clock :
  generate_report chain_env 0 false same_com
  <> generate_report chain_env ticks_per_second false same_com
  /\ ~ (forall env end_time end_time' is_partial self,
          generate_report env end_time is_partial self
          = generate_report env end_time' is_partial self).
Proof.
  assert (generate_report chain_env 0 false same_com
          <> generate_report chain_env ticks_per_second false same_com) as Hdiff.
  { vm_compute. discriminate. }
  split; [exact Hdiff|]. intros Hsame. apply Hdiff, Hsame.
Qed.

(** C9, amended. For a fixed crawler and the same [is_partial] flag, two
    calls of [generate_report] return the same text whenever the elapsed
    time they read prints the same with two decimals: the clock enters
    the report through the Duration row only.  Two readings print the
    same when both are 0 or more and lie less than half a hundredth of a
    second from the same hundredth. *)
Theorem generate_report_same_for_same_duration env end_time end_time' is_partial self :
  (format_2f (end_time - start_time self) = format_2f (end_time' - start_time self) ->
   generate_report env end_time is_partial self
   = generate_report env end_time' is_partial self)
  /\ (forall k,
        prints_as k (end_time - start_time self) ->
        prints_as k (end_time' - start_time self) ->
        generate_report env end_time is_partial self
        = generate_report env end_time' is_partial self).
Proof.
  assert (format_2f (end_time - start_time self)
          = format_2f (end_time' - start_time self) ->
          generate_report env end_time is_partial self
          = generate_report env end_time' is_partial self) as Hsame.
  { intros Hduration. unfold generate_report, metrics. cbv zeta.
    by rewrite Hduration. }
  split; [exact Hsame|]. intros k Hk Hk'. apply Hsame.
  by rewrite (format_2f_prints_as k _ Hk), (format_2f_prints_as k _ Hk').
Qed.

Lemma generate_report_same_for_same_duration_witness :
  prints_as 150 (6291456 - start_time same_com)
  /\ prints_as 150 (6300000 - start_time same_com)
  /\ generate_report mixed_env 6291456 true same_com
     = generate_report mixed_env 6300000 true same_com.
Proof.
  assert (prints_as 150 (6291456 - start_time same_com)) as Hk
    by (vm_compute; repeat split; discriminate || reflexivity).
  assert (prints_as 150 (6300000 - start_time same_com)) as Hk'
    by (vm_compute; repeat split; discriminate || reflexivity).
  split; [exact Hk|]. split; [exact Hk'|].
  exact (proj2 (generate_report_same_for_same_duration mixed_env 6291456 6300000 true
                  same_com) 150 Hk Hk').
Defined.

(** ** Further properties of the crawl *)

Lemma quiet_env_order_sound site : order_sound (quiet_env site).
Proof. intros n links u Hu. by apply elem_of_elements in Hu. Qed.

Lemma mixed_crawl_outcome :
  outcome_state (crawl_page mixed_env "https://same.com" 0 same_com)
  = Some (exec (crawl mixed_env) same_com).
Proof. vm_compute; reflexivity. Qed.

(** X1. Whatever its outcome, a call of [crawl_page] keeps the
    configuration and leaves every URL that was visited before as it was:
    still visited, with the same depth and the same status (or still
    without one).  The error lists and the history of requests are only
    extended: error lists at the end, in the order of discovery. *)
Theorem crawl_page_keeps_earlier_entries env url depth s s' :
  outcome_state (crawl_page env url depth s) = Some s' ->
  (base_url s' = base_url s /\ domain s' = domain s
   /\ max_depth s' = max_depth s /\ start_time s' = start_time s)
  /\ (forall u, u ∈ visited_urls s ->
        u ∈ visited_urls s'
        /\ url_depth s' !! u = url_depth s !! u
        /\ url_status s' !! u = url_status s !! u)
  /\ (forall k, error_list k s `prefix_of` error_list k s')
  /\ session_calls s `suffix_of` session_calls s'
  /\ total_requests s <= total_requests s'.
Proof.
  intros Hout. destruct (crawl_page_grows env url depth s s' Hout) as (G & _).
  split; [|split; [|split; [|split]]].
  - by destruct G.
  - intros u Hu. split; [by apply (grows_visited _ _ G)|].
    split; [by apply (grows_depth _ _ G)|by apply (grows_status _ _ G)].
  - intros k. destruct (grows_errors _ _ G k) as (new & -> & _). by exists new.
  - destruct (grows_calls _ _ G) as (new & -> & _). by exists new.
  - destruct (grows_calls _ _ G) as (new & _ & _ & _ & ?). lia.
Qed.

Lemma crawl_page_keeps_earlier_entries_witness :
  outcome_state (crawl_page mixed_env "https://same.com/missing" 1
                   (exec (crawl chain_env) same_com))
  = Some (exec (crawl_page mixed_env "https://same.com/missing" 1)
            (exec (crawl chain_env) same_com))
  /\ forall u, u ∈ visited_urls (exec (crawl chain_env) same_com) ->
       url_depth (exec (crawl_page mixed_env "https://same.com/missing" 1)
                    (exec (crawl chain_env) same_com)) !! u
       = url_depth (exec (crawl chain_env) same_com) !! u.
Proof.
  assert (outcome_state (crawl_page mixed_env "https://same.com/missing" 1
                           (exec (crawl chain_env) same_com))
          = Some (exec (crawl_page mixed_env "https://same.com/missing" 1)
                    (exec (crawl chain_env) same_com))) as Hout
    by (vm_compute; reflexivity).
  split; [exact Hout|]. intros u Hu.
  exact (proj1 (proj2 (proj1 (proj2
           (crawl_page_keeps_earlier_entries mixed_env "https://same.com/missing" 1
              _ _ Hout)) u Hu))).
Defined.

(** X2. In every state a program can reach, no URL was requested twice,
    and every URL that was requested is in [visited_urls]. *)
Theorem no_url_is_requested_twice env s :
  reachable env s ->
  NoDup (session_calls s)
  /\ forall u, u ∈ session_calls s -> u ∈ visited_urls s.
Proof.
  intros Hreach. destruct (reachable_requests_ok env s Hreach) as (? & ? & _).
  done.
Qed.

Lemma no_url_is_requested_twice_witness :
  reachable mixed_env (exec (crawl mixed_env) same_com)
  /\ NoDup (session_calls (exec (crawl mixed_env) same_com)).
Proof.
  split; [exact mixed_env_reachable|].
  exact (proj1 (no_url_is_requested_twice mixed_env _ mixed_env_reachable)).
Defined.

(** X3. When a loop over a set visits elements of the set only, every
    URL a call of [crawl_page] passes to [session.get] is the URL the
    call was given or a URL that [is_valid_url] accepts: one that parses,
    whose host is the domain of the crawler and whose scheme is [http] or
    [https].  What [session.get] does with the URL, redirects included,
    is the environment's. *)
Theorem crawl_requests_stay_on_domain env url depth s s' :
  order_sound env ->
  outcome_state (crawl_page env url depth s) = Some s' ->
  forall u, u ∈ session_calls s' ->
    u ∈ session_calls s \/ u = url
    \/ (is_valid_url env s u = Some true
        /\ exists parsed,
             Url.urlparse (ip_address env) u = Some parsed
             /\ Url.netloc parsed = domain s
             /\ (Url.scheme parsed = "http" \/ Url.scheme parsed = "https")).
Proof.
  intros Hsound Hout u Hu.
  destruct (crawl_page_grows env url depth s s' Hout) as (G & N & _).
  destruct (grows_calls _ _ G) as (new & Hcalls & _ & Hfresh & _).
  rewrite Hcalls in Hu. apply elem_of_app in Hu as [Hu|Hu]; [|by left].
  destruct (Hfresh u Hu) as [Hnot Hin].
  destruct (N u Hin Hnot) as (d & _ & [(-> & _)|[Hoff _]]); [by right; left|].
  right; right. pose proof (offered_admissible env s u Hsound Hoff) as Hadm.
  split; [done|]. by apply admissible_same_host.
Qed.

Lemma crawl_requests_stay_on_domain_witness :
  order_sound mixed_env
  /\ outcome_state (crawl_page mixed_env "https://same.com" 0 same_com)
     = Some (exec (crawl mixed_env) same_com)
  /\ forall u, u ∈ session_calls (exec (crawl mixed_env) same_com) ->
       u ∈ session_calls same_com \/ u = "https://same.com"
       \/ (is_valid_url mixed_env same_com u = Some true
           /\ exists parsed,
                Url.urlparse (ip_address mixed_env) u = Some parsed
                /\ Url.netloc parsed = domain same_com
                /\ (Url.scheme parsed = "http" \/ Url.scheme parsed = "https")).
Proof.
  split; [apply quiet_env_order_sound|]. split; [exact mixed_crawl_outcome|].
  apply (crawl_requests_stay_on_domain mixed_env "https://same.com" 0 same_com).
  - apply quiet_env_order_sound.
  - exact mixed_crawl_outcome.
Defined.

(** X4. After [crawl()] on a new crawler, ended or interrupted, every
    visited URL has a depth, and that depth lies between 0 and
    [max_depth]; when any URL is visited the base URL is recorded at
    depth 0, as it is after a crawl that returned when [max_depth] is 0
    or more; with a negative [max_depth] nothing is visited. *)
Theorem crawl_depths_between_zero_and_max_depth env base max now s s' :
  init env base max now = Some s ->
  outcome_state (crawl env s) = Some s' ->
  (forall u, u ∈ visited_urls s' ->
     exists d, url_depth s' !! u = Some d /\ 0 <= d <= max_depth s')
  /\ (visited_urls s' <> ∅ -> url_depth s' !! base_url s = Some 0)
  /\ (0 <= max -> crawl env s = Done tt s' ->
      url_depth s' !! base_url s = Some 0)
  /\ (max < 0 -> visited_urls s' = ∅).
Proof.
  intros Hinit Hout.
  destruct (crawl_from_init_depths _ _ _ _ _ _ Hinit Hout) as (Hdepths & Hbase & Hnone).
  split; [done|]. split; [|split; [|done]].
  - intros Hvisited. destruct (Z.lt_ge_cases max 0) as [Hneg|Hpos]; [|by apply Hbase].
    by destruct Hvisited; apply Hnone.
  - intros Hpos _. by apply Hbase.
Qed.

Lemma crawl_depths_between_zero_and_max_depth_witness :
  init mixed_env "https://same.com/" 2 0 = Some same_com
  /\ outcome_state (crawl mixed_env same_com) = Some (exec (crawl mixed_env) same_com)
  /\ forall u, u ∈ visited_urls (exec (crawl mixed_env) same_com) ->
       exists d, url_depth (exec (crawl mixed_env) same_com) !! u = Some d
                 /\ 0 <= d <= max_depth (exec (crawl mixed_env) same_com).
Proof.
  split; [vm_compute; reflexivity|]. split; [vm_compute; reflexivity|].
  apply (crawl_depths_between_zero_and_max_depth mixed_env "https://same.com/" 2 0
           same_com (exec (crawl mixed_env) same_com)).
  - vm_compute; reflexivity.
  - vm_compute; reflexivity.
Defined.

(** X5. A call [crawl_page(url, depth)] on a URL that is not visited and
    within the depth limit always enters the URL in [visited_urls] and
    records it at exactly [depth], whatever happens after, an interrupt
    included; when the call returns, the URL has a status.  Beyond the
    depth limit the call changes nothing. *)
Theorem crawl_page_records_its_url env url depth s :
  url ∉ visited_urls s ->
  (depth <= max_depth s ->
   (forall s', outcome_state (crawl_page env url depth s) = Some s' ->
      url ∈ visited_urls s' /\ url_depth s' !! url = Some depth)
   /\ (forall s', crawl_page env url depth s = Done tt s' ->
         is_Some (url_status s' !! url)))
  /\ (max_depth s < depth -> crawl_page env url depth s = Done tt s).
Proof.
  intros Hnew. split.
  - intros Hle. split.
    + intros s' Hout.
      destruct (crawl_page_grows env url depth s s' Hout) as (_ & _ & Hself).
      destruct Hself as (? & ? & _); auto.
    + intros s' Hout.
      destruct (crawl_page_grows env url depth s s') as (_ & _ & Hself);
        [by rewrite Hout|].
      destruct (Hself Hnew Hle) as (Hvisited & _ & _).
      pose proof (crawl_page_post env url depth s) as Hpost. rewrite Hout in Hpost.
      destruct Hpost as [_ Hpend].
      destruct (url_status s' !! url) eqn:E; [done|].
      destruct (Hpend url) as [Hin _]; [by split|]. by destruct Hnew.
  - intros Hgt. unfold crawl_page. rewrite crawl_page_fuel_unfold.
    by replace (depth >? max_depth s) with true by lia.
Qed.

Lemma crawl_page_records_its_url_witness :
  ("https://same.com/x" ∉ visited_urls same_com)
  /\ 1 <= max_depth same_com
  /\ outcome_state (crawl_page interrupted_env "https://same.com/x" 1 same_com)
     = Some (exec (crawl_page interrupted_env "https://same.com/x" 1) same_com)
  /\ url_depth (exec (crawl_page interrupted_env "https://same.com/x" 1) same_com)
       !! "https://same.com/x" = Some 1.
Proof.
  assert ("https://same.com/x" ∉ visited_urls same_com) as Hnew
    by apply not_elem_of_empty.
  assert (1 <= max_depth same_com) as Hle by (cbn; lia).
  assert (outcome_state (crawl_page interrupted_env "https://same.com/x" 1 same_com)
          = Some (exec (crawl_page interrupted_env "https://same.com/x" 1) same_com))
    as Hout by (vm_compute; reflexivity).
  split; [exact Hnew|]. split; [exact Hle|]. split; [exact Hout|].
  exact (proj2 (proj1 (proj1 (crawl_page_records_its_url interrupted_env
                                "https://same.com/x" 1 same_com Hnew) Hle)
                  _ Hout)).
Defined.

(** X6. In every state a program can reach, [total_requests] is at least
    0 and at most the number of requests issued, which is at most the
    number of visited URLs: the report never shows more requests than
    pages. *)
Theorem total_requests_at_most_pages env s :
  reachable env s ->
  0 <= total_requests s <= Z.of_nat (length (session_calls s))
  /\ (length (session_calls s) <= size (visited_urls s))%nat.
Proof.
  intros Hreach. destruct (reachable_requests_ok env s Hreach) as (Hdup & Hsub & ?).
  split; [done|]. by apply NoDup_length_le_size.
Qed.

Lemma total_requests_at_most_pages_witness :
  reachable mixed_env (exec (crawl mixed_env) same_com)
  /\ (length (session_calls (exec (crawl mixed_env) same_com))
      <= size (visited_urls (exec (crawl mixed_env) same_com)))%nat.
Proof.
  split; [exact mixed_env_reachable|].
  exact (proj2 (total_requests_at_most_pages mixed_env _ mixed_env_reachable)).
Defined.

(** X7. In every state a program can reach, a URL is filed under at most
    one error class and at most once there, and every URL filed is a
    visited URL: the detailed error report names no URL twice. *)
Theorem error_lists_name_each_url_once env s :
  reachable env s ->
  forall k, NoDup (error_list k s)
    /\ forall u, u ∈ error_list k s ->
         u ∈ visited_urls s
         /\ forall k', u ∈ error_list k' s -> k' = k.
Proof.
  intros Hreach k.
  pose proof (reachable_errors_have_status env s Hreach) as He.
  pose proof (reachable_ledger_ok env s Hreach) as Hok. split.
  - by apply (reachable_error_lists_nodup env).
  - intros u Hu. destruct (He _ _ Hu) as [Hs _]. split.
    + apply (status_visited _ Hok). by rewrite Hs.
    + intros k' Hu'. destruct (He _ _ Hu') as [Hs' _]. congruence.
Qed.

Lemma error_lists_name_each_url_once_witness :
  reachable mixed_env (exec (crawl mixed_env) same_com)
  /\ NoDup (error_list 404 (exec (crawl mixed_env) same_com)).
Proof.
  split; [exact mixed_env_reachable|].
  exact (proj1 (error_lists_name_each_url_once mixed_env _ mixed_env_reachable 404)).
Defined.

(** X8. In every state a program can reach, the URLs with a recorded
    depth are exactly the visited URLs: the listing by depth in the
    report shows URLs that are counted as visited, and only those. *)
Theorem recorded_depths_are_the_visited_urls env s :
  reachable env s ->
  forall u, u ∈ visited_urls s <-> is_Some (url_depth s !! u).
Proof.
  intros Hreach u. split.
  - revert u. revert s Hreach.
    apply (reachable_invariant env
             (fun s => forall u, u ∈ visited_urls s -> is_Some (url_depth s !! u))).
    + intros base max now s Hinit u.
      destruct (init_fresh _ _ _ _ _ Hinit) as (-> & _). by intros ?%not_elem_of_empty.
    + intros s1 s2 _. apply depth_of_visited_step.
  - apply (depth_visited _ (reachable_ledger_ok env s Hreach)).
Qed.

Lemma recorded_depths_are_the_visited_urls_witness :
  reachable mixed_env (exec (crawl mixed_env) same_com)
  /\ ("https://same.com/down" ∈ visited_urls (exec (crawl mixed_env) same_com)
      <-> is_Some (url_depth (exec (crawl mixed_env) same_com) !! "https://same.com/down")).
Proof.
  split; [exact mixed_env_reachable|].
  exact (recorded_depths_are_the_visited_urls mixed_env _ mixed_env_reachable
           "https://same.com/down").
Defined.

(** X9. When [time.sleep] does not raise, a call of [crawl_page] that
    returns after fetching a page with status 200 below the depth limit
    has visited every link of that page that the loop came to: no link
    that [extract_links] returned is left out. *)
Theorem links_of_a_fetched_page_are_visited env url depth s text links s' :
  (forall n, time_sleep env n = None) ->
  url ∉ visited_urls s ->
  depth < max_depth s ->
  session_get env (length (session_calls s)) url = Response 200 text ->
  extract_links env s text url = Some links ->
  crawl_page env url depth s = Done tt s' ->
  forall u, u ∈ set_order env (S (length (session_calls s))) links ->
    u ∈ visited_urls s'.
Proof. apply crawl_page_links_visited. Qed.

Lemma links_of_a_fetched_page_are_visited_witness :
  "https://same.com/down" ∈ visited_urls (exec (crawl mixed_env) same_com).
Proof.
  apply (links_of_a_fetched_page_are_visited mixed_env "https://same.com" 0 same_com
           (anchor "/ok" +:+ anchor "/missing" +:+ anchor "/down")
           {[ "https://same.com/ok"; "https://same.com/missing";
              "https://same.com/down" ]}).
  - reflexivity.
  - apply not_elem_of_empty.
  - reflexivity.
  - reflexivity.
  - vm_compute; reflexivity.
  - vm_compute; reflexivity.
  - apply elem_of_elements, elem_of_union. right. by apply elem_of_singleton.
Defined.

(** ** Further properties of the report *)

Lemma crawl_from_init_reachable env base max now s s' :
  init env base max now = Some s ->
  outcome_state (crawl env s) = Some s' ->
  reachable env s'.
Proof.
  intros Hinit Hout. eapply reachable_crawl_page; [by eapply reachable_init|].
  exact Hout.
Qed.

Lemma mixed_init : init mixed_env "https://same.com/" 2 0 = Some same_com.
Proof. vm_compute; reflexivity. Qed.

Lemma mixed_crawl_state :
  outcome_state (crawl mixed_env same_com) = Some (exec (crawl mixed_env) same_com).
Proof. vm_compute; reflexivity. Qed.

(** X10. The status summary of the report has one row for each status
    code that some URL has, in strictly ascending order of the code; the
    count of a row is the number of URLs with that status and is never 0;
    the counts add up to the number of URLs that have a status. *)
Theorem status_summary_counts_every_status self :
  StronglySorted Z.lt (map fst (status_counts self))
  /\ (forall c n, (c, n) ∈ status_counts self
        <-> n = urls_with_status c self /\ (0 < n)%nat)
  /\ sum_list (map snd (status_counts self)) = size (url_status self).
Proof.
  split; [apply status_codes_sorted|]. split; [apply status_counts_row|].
  apply status_counts_sum.
Qed.

(** X11. After a crawl on a new crawler that ended normally, the counts
    of the status summary add up to the number of visited URLs, the
    [Total Pages Visited] of the report; after a crawl that was cut short
    they add up to that number or to one less. *)
Theorem status_counts_add_up_to_pages env base max now s :
  init env base max now = Some s ->
  match crawl env s with
  | Done _ s' =>
      sum_list (map snd (status_counts s')) = size (visited_urls s')
  | Raised _ s' =>
      (sum_list (map snd (status_counts s')) <= size (visited_urls s')
       <= sum_list (map snd (status_counts s')) + 1)%nat
  | OutOfFuel => False
  end.
Proof.
  intros Hinit. pose proof (crawl_from_init_pending _ _ _ _ _ Hinit) as Hpend.
  destruct (crawl env s) as [[] s'|e s'|]; [| |done].
  - destruct Hpend as [Hok Hnone]. rewrite status_counts_sum.
    by apply statuses_of_all_visited.
  - destruct Hpend as [Hok Hone]. rewrite status_counts_sum.
    by apply statuses_of_all_but_one.
Qed.

Lemma status_counts_add_up_to_pages_witness :
  init mixed_env "https://same.com/" 2 0 = Some same_com
  /\ match crawl mixed_env same_com with
     | Done _ s' =>
         sum_list (map snd (status_counts s')) = size (visited_urls s')
     | Raised _ s' =>
         (sum_list (map snd (status_counts s')) <= size (visited_urls s')
          <= sum_list (map snd (status_counts s')) + 1)%nat
     | OutOfFuel => False
     end.
Proof.
  split; [exact mixed_init|].
  exact (status_counts_add_up_to_pages mixed_env "https://same.com/" 2 0 same_com
           mixed_init).
Defined.

(** X12. The report of a crawl on a new crawler, ended or cut short,
    lists every visited URL: the line [- [status] url], with [Unknown]
    for a URL without a status, is one of the lines of the listing by
    depth, and so is found in the text of the report. *)
Theorem report_lists_every_visited_url env base max now s s' end_time is_partial :
  init env base max now = Some s ->
  outcome_state (crawl env s) = Some s' ->
  forall u, u ∈ visited_urls s' ->
    page_line s' u ∈ depth_section s'
    /\ page_line s' u ∈ report_lines env end_time is_partial s'
    /\ Py.contains (page_line s' u) (generate_report env end_time is_partial s')
       = true.
Proof.
  intros Hinit Hout u Hu.
  destruct (crawl_from_init_depths _ _ _ _ _ _ Hinit Hout) as (Hdepths & _).
  destruct (Hdepths u Hu) as (d & Hd & Hpos & _).
  pose proof (depth_section_lists s' u d Hd Hpos) as Hline.
  split; [done|].
  pose proof (depth_section_in_report env end_time is_partial s' _ Hline) as Hrep.
  split; [done|]. rewrite generate_report_lines. by apply contains_join.
Qed.

Lemma report_lists_every_visited_url_witness :
  Py.contains (page_line (exec (crawl mixed_env) same_com) "https://same.com/down")
    (generate_report mixed_env 100 false (exec (crawl mixed_env) same_com))
  = true.
Proof.
  apply (report_lists_every_visited_url mixed_env "https://same.com/" 2 0 same_com
           (exec (crawl mixed_env) same_com) 100 false mixed_init mixed_crawl_state
           "https://same.com/down").
  apply (bool_decide_unpack _). vm_compute. exact I.
Defined.



(** X14. In every state a program can reach, the detailed error report
    names every URL whose status is 0 or an HTTP error status: the line
    [- url] is in the group of that status, and the lines of the group
    are lines of the report.  The section is left out exactly when no URL
    has such a status.  The network is assumed to answer with HTTP
    statuses, which are never 0. *)
Theorem error_report_names_every_failure env s :
  http_statuses env ->
  reachable env s ->
  (forall u c, url_status s !! u = Some c -> c = 0 \/ 400 <= c ->
     ("- " +:+ u) ∈ error_group s c
     /\ forall line end_time is_partial,
          line ∈ error_group s c ->
          line ∈ report_lines env end_time is_partial s
          /\ Py.contains line (generate_report env end_time is_partial s) = true)
  /\ (error_section s = []
      <-> forall u c, url_status s !! u = Some c -> c <> 0 /\ c < 400).
Proof.
  intros Hhttp Hreach.
  pose proof (reachable_failures_are_filed env s Hhttp Hreach) as Hfiled.
  pose proof (reachable_errors_have_status env s Hreach) as Hstatus.
  split.
  - intros u c Hu Hc. pose proof (Hfiled u c Hu Hc) as Hin.
    split; [by apply error_group_lists|].
    intros line end_time is_partial Hline.
    assert (line ∈ report_lines env end_time is_partial s) as Hrep.
    { apply error_section_in_report. by eapply error_section_group. }
    split; [done|]. rewrite generate_report_lines. by apply contains_join.
  - rewrite (error_section_empty env s Hreach). split.
    + intros Hnone u c Hu.
      destruct (decide (c = 0 \/ 400 <= c)) as [Hc|Hc]; [|lia].
      pose proof (Hfiled u c Hu Hc) as Hin. rewrite Hnone in Hin.
      by apply elem_of_nil in Hin.
    + intros Hgood k. destruct (error_list k s) as [|u l] eqn:Hk; [done|].
      destruct (Hstatus k u) as [Hu Hclass]; [rewrite Hk; apply list_elem_of_here|].
      destruct (Hgood u k Hu). lia.
Qed.

Lemma error_report_names_every_failure_witness :
  ("- " +:+ "https://same.com/missing")
    ∈ error_group (exec (crawl mixed_env) same_com) 404.
Proof.
  assert (url_status (exec (crawl mixed_env) same_com) !! "https://same.com/missing"
          = Some 404) as Hstatus by (vm_compute; reflexivity).
  assert (404 = 0 \/ 400 <= 404) as Hclass by (right; lia).
  exact (proj1 (proj1 (error_report_names_every_failure mixed_env _
                         mixed_env_http_statuses mixed_env_reachable)
                  "https://same.com/missing" 404 Hstatus Hclass)).
Defined.

(** ** [main] *)

(** X15. When the constructor accepts the URL, [main] puts out the report
    of the state the crawl left, through the one [try] block that writes
    or prints it.  The report is marked partial exactly when the crawl
    was cut short, and a crawl is cut short by [KeyboardInterrupt] only:
    the handler for a fatal error never runs.  A report that is not
    marked partial is the report of a crawl that returned, in which every
    visited URL has a status. *)
Theorem main_reports_what_the_crawl_left env host args crawler :
  init env (validate_url (arg_url args)) (arg_max_depth args) (time_at_init host)
  = Some crawler ->
  exists crawler' is_partial notice,
    outcome_state (crawl env crawler) = Some crawler'
    /\ main env host args
       = (notice
          ++ fst (output_report host (arg_output args)
                    (generate_report env (time_at_report host) is_partial crawler')),
          snd (output_report host (arg_output args)
                 (generate_report env (time_at_report host) is_partial crawler')))
    /\ (is_partial = false ->
        notice = []
        /\ crawl env crawler = Done tt crawler'
        /\ every_visited_url_has_status crawler')
    /\ (is_partial = true ->
        notice = [Printed (nl +:+ "Crawling interrupted by user");
                  Printed "Generating partial report..."]
        /\ crawl env crawler = Raised KeyboardInterrupt crawler'
        /\ interrupting env).
Proof.
  intros Hinit. unfold main. rewrite Hinit.
  pose proof (crawl_from_init_pending _ _ _ _ _ Hinit) as Hpend.
  pose proof (crawl_page_post env (base_url crawler) 0 crawler) as Hpost.
  fold (crawl env crawler) in Hpost.
  destruct (crawl env crawler) as [[] crawler'|e crawler'|]; [| |done].
  - exists crawler', false, []. split; [done|]. split.
    + by destruct (output_report _ _ _).
    + split; [|done]. intros _. split; [done|]. split; [done|].
      destruct Hpend as [_ Hnone]. intros u Hu.
      destruct (url_status crawler' !! u) eqn:E; [done|]. by destruct (Hnone u).
  - destruct Hpost as (He & Hint & _). specialize (He eq_refl). subst e.
    exists crawler', true, (interruption_notice KeyboardInterrupt).
    split; [done|]. split; [done|]. split; [done|]. intros _. auto.
Qed.

Lemma main_reports_what_the_crawl_left_witness :
  exists crawler' is_partial notice,
    outcome_state (crawl mixed_env same_com) = Some crawler'
    /\ main mixed_env quiet_host same_com_args
       = (notice
          ++ fst (output_report quiet_host (arg_output same_com_args)
                    (generate_report mixed_env (time_at_report quiet_host)
                       is_partial crawler')),
          snd (output_report quiet_host (arg_output same_com_args)
                 (generate_report mixed_env (time_at_report quiet_host)
                    is_partial crawler')))
    /\ (is_partial = false ->
        notice = []
        /\ crawl mixed_env same_com = Done tt crawler'
        /\ every_visited_url_has_status crawler')
    /\ (is_partial = true ->
        notice = [Printed (nl +:+ "Crawling interrupted by user");
                  Printed "Generating partial report..."]
        /\ crawl mixed_env same_com = Raised KeyboardInterrupt crawler'
        /\ interrupting mixed_env).
Proof.
  apply (main_reports_what_the_crawl_left mixed_env quiet_host same_com_args same_com).
  vm_compute; reflexivity.
Defined.

(** ** The crawler and the URLs of its site *)

(** X16. The constructor fails exactly when [urlparse] rejects the URL.
    Otherwise the crawler starts with empty ledgers, its [domain] is the
    host of the URL as it was given, and its [base_url] is the URL
    without the slashes at its end: the URL is [base_url] followed by
    slashes only, and [base_url] does not end with a slash. *)
Theorem init_strips_trailing_slashes env url max now :
  (init env url max now = None <-> Url.urlparse (ip_address env) url = None)
  /\ forall s, init env url max now = Some s ->
       (exists slashes,
          url = base_url s +:+ slashes
          /\ Py.all_chars (Ascii.eqb "/") slashes = true)
       /\ Py.endswith (base_url s) "/" = false
       /\ (exists parsed,
             Url.urlparse (ip_address env) url = Some parsed
             /\ domain s = Url.netloc parsed)
       /\ max_depth s = max /\ start_time s = now
       /\ visited_urls s = ∅ /\ url_status s = ∅ /\ url_depth s = ∅
       /\ error_urls s = ∅ /\ total_requests s = 0.
Proof.
  split.
  - unfold init. by destruct (Url.urlparse _ url).
  - intros s Hinit.
    destruct (init_fresh _ _ _ _ _ Hinit) as (? & ? & ? & ? & ? & _ & ?).
    unfold init in Hinit.
    destruct (Url.urlparse _ url) as [parsed|] eqn:Hparse; [|done].
    injection Hinit as <-. cbn [base_url domain start_time] in *.
    destruct (rstrip_spec (Ascii.eqb "/") url) as (k & Hurl & Hk & Hend).
    split; [by exists k|]. split; [by apply Hend|]. split; [by exists parsed|].
    done.
Qed.

Lemma init_strips_trailing_slashes_witness :
  exists slashes,
    "https://same.com/" = base_url same_com +:+ slashes
    /\ Py.all_chars (Ascii.eqb "/") slashes = true.
Proof.
  exact (proj1 (proj2 (init_strips_trailing_slashes mixed_env "https://same.com/" 2 0)
                  same_com mixed_init)).
Defined.

(** X17. A crawler made for an ASCII URL [scheme://host/path] written
    plainly has [host] as its domain, and of another ASCII URL written
    plainly its [is_valid_url] accepts exactly those on the same host
    whose path has none of the skipped extensions and none of the
    skipped directories: on its own site the crawler decides by the path
    alone, and it accepts no such URL of another host. *)
Theorem crawler_accepts_the_pages_of_its_site
    env scheme host path max now scheme' host' path' :
  scheme = "http" \/ scheme = "https" ->
  plain_host host = true -> isascii host = true ->
  plain_path path = true -> isascii path = true ->
  scheme' = "http" \/ scheme' = "https" ->
  plain_host host' = true -> isascii host' = true ->
  plain_path path' = true -> isascii path' = true ->
  exists s,
    init env (scheme +:+ "://" +:+ host +:+ path) max now = Some s
    /\ domain s = host
    /\ is_valid_url env s (scheme' +:+ "://" +:+ host' +:+ path')
       = Some (String.eqb host' host && accepted_path path').
Proof.
  intros Hscheme Hhost _ Hpath _ Hscheme' Hhost' _ Hpath' _.
  destruct (init_plain env scheme host path max now Hscheme Hhost Hpath)
    as (s & Hinit & Hdomain & _).
  exists s. split; [done|]. split; [done|].
  by rewrite (is_valid_url_plain env s scheme' host' path'), Hdomain.
Qed.

Lemma crawler_accepts_the_pages_of_its_site_witness :
  exists s,
    init mixed_env ("https" +:+ "://" +:+ "same.com" +:+ "/") 2 0 = Some s
    /\ domain s = "same.com"
    /\ is_valid_url mixed_env s ("http" +:+ "://" +:+ "same.com" +:+ "/docs/a.pdf")
       = Some (String.eqb "same.com" "same.com" && accepted_path "/docs/a.pdf").
Proof.
  apply (crawler_accepts_the_pages_of_its_site mixed_env "https" "same.com" "/" 2 0
           "http" "same.com" "/docs/a.pdf").
  - by right.
  - reflexivity.
  - reflexivity.
  - reflexivity.
  - reflexivity.
  - by left.
  - reflexivity.
  - reflexivity.
  - reflexivity.
  - reflexivity.
Defined.



(** ** The home page *)

(** X19. [__init__] takes the slash off the end of the base URL, and a
    link [/] on the home page resolves to the URL with the slash.  So on
    a crawl of [https://host/] that is not cut short, with a depth limit
    of 1 or more, a home page that answers 200 and links to [/] is
    requested twice: as [https://host] and as [https://host/], which the
    crawler holds for two pages. *)
Theorem home_page_linked_with_slash_is_fetched_twice
    env host max now text links s s' :
  plain_host host = true ->
  host <> EmptyString ->
  1 <= max ->
  (forall n, time_sleep env n = None) ->
  order_complete env ->
  init env ("https://" +:+ host +:+ "/") max now = Some s ->
  session_get env 0 ("https://" +:+ host) = Response 200 text ->
  "/" ∈ Url.findall_href text ->
  extract_links env s text ("https://" +:+ host) = Some links ->
  crawl env s = Done tt s' ->
  "https://" +:+ host ∈ session_calls s'
  /\ "https://" +:+ host +:+ "/" ∈ session_calls s'
  /\ "https://" +:+ host <> "https://" +:+ host +:+ "/".
Proof.
  intros Hhost Hne Hmax Hsleep Horder Hinit Hget Hhref Hlinks Hout.
  destruct (init_with_slash env host max now Hhost Hne) as (s0 & Hinit0 & Hbase & Hdom).
  rewrite Hinit in Hinit0. injection Hinit0 as <-.
  destruct (init_fresh _ _ _ _ _ Hinit) as (Hvis & _ & _ & _ & _ & Hcalls & Hlimit).
  unfold crawl in Hout. rewrite Hbase in Hout.
  assert ("https://" +:+ host ∉ visited_urls s) as Hnew.
  { rewrite Hvis. apply not_elem_of_empty. }
  assert (reachable env s') as Hreach.
  { eapply reachable_crawl_page; [by eapply reachable_init|]. by rewrite Hout. }
  pose proof (reachable_visits_requested env s' Hreach) as Hreq.
  split; [|split].
  - apply Hreq.
    destruct (crawl_page_grows env ("https://" +:+ host) 0 s s') as (_ & _ & Hself);
      [by rewrite Hout|].
    apply Hself; [done|lia].
  - apply Hreq.
    apply (crawl_page_links_visited env ("https://" +:+ host) 0 s text links s');
      try done.
    + lia.
    + by rewrite Hcalls.
    + apply Horder. unfold extract_links in Hlinks.
      apply (extract_links_loop_spec _ _ _ _ _ _ Hlinks). right.
      exists "/". split; [done|]. by apply extract_link_root.
  - rewrite <- append_assoc. apply append_slash_differs.
Qed.

Lemma home_page_linked_with_slash_is_fetched_twice_witness :
  "https://" +:+ "same.com" ∈ session_calls (exec (crawl home_env) same_com)
  /\ "https://" +:+ "same.com" +:+ "/" ∈ session_calls (exec (crawl home_env) same_com)
  /\ "https://" +:+ "same.com" <> "https://" +:+ "same.com" +:+ "/".
Proof.
  apply (home_page_linked_with_slash_is_fetched_twice home_env "same.com" 2 0
           (anchor "/") {[ "https://same.com/" ]} same_com
           (exec (crawl home_env) same_com)).
  - reflexivity.
  - discriminate.
  - lia.
  - reflexivity.
  - intros n links u Hu. by apply elem_of_elements.
  - vm_compute; reflexivity.
  - reflexivity.
  - vm_compute. apply list_elem_of_here.
  - vm_compute; reflexivity.
  - vm_compute; reflexivity.
Defined.

(** ** The pattern of [extract_links] *)

(** X20. Every text [re.findall] returns for the pattern of
    [extract_links] is the value of a quoted [href=] in the page: it is
    found in the page between [href=] with a quote and a quote, it is not
    empty and holds no quote itself.  A page in which [href=] does not
    occur has no links, whatever its URL. *)
Theorem findall_href_returns_quoted_values text :
  (forall href, href ∈ Url.findall_href text ->
     href <> EmptyString
     /\ Py.all_chars (fun a => negb (Url.is_quote a)) href = true
     /\ exists before q q' after,
          Url.is_quote q = true /\ Url.is_quote q' = true
          /\ text = before +:+ "href=" +:+ String q href +:+ String q' after)
  /\ (Py.contains "href=" text = false ->
      forall env self current_url,
        extract_links env self text current_url = Some ∅).
Proof.
  split.
  - intros href. apply findall_from_spec.
  - intros Hnone env self current_url. unfold extract_links.
    by rewrite (findall_href_none text Hnone).
Qed.

Lemma findall_href_returns_quoted_values_witness :
  extract_links mixed_env same_com "<p>no links on this page</p>" "https://same.com"
  = Some ∅.
Proof.
  apply (proj2 (findall_href_returns_quoted_values "<p>no links on this page</p>")).
  reflexivity.
Defined.

(** X21. In the report of a crawl on a new crawler, ended or cut short,
    the listing by depth shows each visited URL under exactly one depth,
    a depth the listing runs over, and once there; the page counts of the
    depth headings add up to the number of visited URLs, the
    [Total Pages Visited] of the report. *)
Theorem depth_listing_shows_each_page_once env base max now s s' :
  init env base max now = Some s ->
  outcome_state (crawl env s) = Some s' ->
  (forall u, u ∈ visited_urls s' ->
     exists d, d ∈ listed_depths s'
               /\ u ∈ urls_at_depth s' d
               /\ forall d', u ∈ urls_at_depth s' d' -> d' = d)
  /\ (forall d u, u ∈ urls_at_depth s' d -> u ∈ visited_urls s')
  /\ (forall d, NoDup (urls_at_depth s' d))
  /\ sum_list (map (fun d => length (urls_at_depth s' d)) (listed_depths s'))
     = size (visited_urls s').
Proof.
  intros Hinit Hout.
  destruct (crawl_from_init_depths _ _ _ _ _ _ Hinit Hout) as (Hdepths & _ & _).
  pose proof (crawl_from_init_reachable _ _ _ _ _ _ Hinit Hout) as Hreach.
  pose proof (reachable_ledger_ok env s' Hreach) as Hok.
  split; [|split; [|split]].
  - intros u Hu. destruct (Hdepths u Hu) as (d & Hd & Hpos & _). exists d.
    split; [|split].
    + apply elem_of_seqZ. case_bool_decide as Hempty.
      * by rewrite Hempty, lookup_empty in Hd.
      * pose proof (max_depth_reached_ge s' u d Hd). lia.
    + by apply urls_at_depth_spec.
    + intros d' Hd'. apply urls_at_depth_spec in Hd'. congruence.
  - intros d u Hu. apply urls_at_depth_spec in Hu.
    apply (depth_visited _ Hok). by rewrite Hu.
  - intros d. apply urls_at_depth_nodup.
  - rewrite urls_at_depth_sum.
    + by rewrite <- (size_dom (D := gset string)), (reachable_depth_keys env s' Hreach).
    + intros u d Hd.
      destruct (Hdepths u) as (d' & Hd' & ? & _);
        [apply (depth_visited _ Hok); by rewrite Hd|].
      congruence.
Qed.

Lemma depth_listing_shows_each_page_once_witness :
  sum_list (map (fun d => length (urls_at_depth (exec (crawl mixed_env) same_com) d))
              (listed_depths (exec (crawl mixed_env) same_com)))
  = size (visited_urls (exec (crawl mixed_env) same_com)).
Proof.
  exact (proj2 (proj2 (proj2
           (depth_listing_shows_each_page_once mixed_env "https://same.com/" 2 0
              same_com (exec (crawl mixed_env) same_com) mixed_init
              mixed_crawl_state)))).
Defined.

(** ** Links in clean form *)

(** X22. Every link [extract_links] returns is in clean form: it parses
    with the scheme [http] or [https], the domain of the crawler as its
    host, and no parameters, query or fragment, and its scheme, host and
    path put together as [extract_links] does give the link back.
    Cleaning a link once more changes nothing. *)
Theorem extract_links_returns_clean_urls env self html current_url links l :
  extract_links env self html current_url = Some links ->
  l ∈ links ->
  exists parsed,
    Url.urlparse (ip_address env) l = Some parsed
    /\ clean_url parsed = l
    /\ Url.netloc parsed = domain self
    /\ (Url.scheme parsed = "http" \/ Url.scheme parsed = "https")
    /\ Url.params parsed = EmptyString
    /\ Url.query parsed = EmptyString
    /\ Url.fragment parsed = EmptyString.
Proof.
  intros Hlinks Hl. unfold extract_links in Hlinks.
  apply (extract_links_loop_spec _ _ _ _ _ _ Hlinks l) in Hl
    as [Hin|(href & _ & Hlink)]; [by apply not_elem_of_empty in Hin|].
  apply extract_link_spec in Hlink as (absolute_url & parsed0 & _ & Hparse & -> & Hvalid).
  destruct (admissible_same_host env self _ Hvalid) as (parsed & Hparsed & Hnetloc & Hscheme).
  destruct (clean_url_fixed _ _ _ _ Hparse Hparsed) as (Hclean & _ & Hparams & Hquery & Hfragment).
  { by destruct Hscheme as [-> | ->]. }
  by exists parsed.
Qed.

Lemma extract_links_returns_clean_urls_witness :
  exists parsed,
    Url.urlparse (ip_address mixed_env) "https://same.com/p1" = Some parsed
    /\ clean_url parsed = "https://same.com/p1"
    /\ Url.netloc parsed = domain same_com
    /\ (Url.scheme parsed = "http" \/ Url.scheme parsed = "https")
    /\ Url.params parsed = EmptyString
    /\ Url.query parsed = EmptyString
    /\ Url.fragment parsed = EmptyString.
Proof.
  apply (extract_links_returns_clean_urls mixed_env same_com links_page
           "https://same.com/"
           {[ "https://same.com/p1"; "https://same.com/p2" ]}).
  - vm_compute; reflexivity.
  - apply elem_of_union. left. by apply elem_of_singleton.
Defined.
